(** * The Energy websocket API (homeassistant/components/energy/websocket_api.py)

    A shallow embedding of the four websocket command handlers of the energy
    component: [ws_get_prefs], [ws_save_prefs], [ws_info] and
    [ws_solar_forecast], together with the helper [_process_energy_platform].

    The handlers are Python coroutines that read and write process state
    ([hass.data], the manager's preferences, the request dict) and talk to a
    connection object.  They are embedded in a state-and-exception monad over
    an explicit [World]. *)

From stdpp Require Import gmap strings list fin_maps.

Open Scope string_scope.
Open Scope list_scope.

(** ** Data model *)

(** JSON-like payloads that this module forwards without inspecting them. *)
#[warnings="-register-all"]
Inductive Value :=
| VNone
| VInt (n : Z)
| VStr (s : string)
| VList (l : list Value)
| VDict (d : list (string * Value)).

(** One element of [manager.data["energy_sources"]].  Only [type] and
    [config_entry_solar_forecast] are read by this module;
    [source.get("config_entry_solar_forecast")] is [None] both when the key is
    missing and when it holds [None]. *)
Record EnergySource := {
  type : string;
  config_entry_solar_forecast : option (list string);
  source_fields : Value
}.

(** [manager.data] when it is not [None]. *)
Record EnergyPreferences := {
  energy_sources : list EnergySource;
  device_consumption : list Value
}.

(** Exceptions that can leave a handler. *)
Inductive Exn :=
| KeyError (key : string)
| PermissionDenied
| Failure (what : string).

(** What awaiting a forecast callback yields: the time it was suspended for and
    either a returned optional forecast or a raised exception. *)
Inductive Outcome :=
| Returns (forecast : option Value)
| Raises (e : Exn).

Record Awaited := {
  took : nat;
  outcome : Outcome
}.

(** A registered [async_get_solar_forecast(hass, config_entry_id)] callback.
    The callback belongs to another integration; here it is a function of the
    entry id that neither reads nor writes the state of this module. *)
Abbreviation Provider := (string → Awaited).

(** The energy platform of an integration; [hasattr(platform,
    "async_get_solar_forecast")] is [is_Some (async_get_solar_forecast p)]. *)
Record Platform := {
  async_get_solar_forecast : option Provider
}.

Record ConfigEntry := {
  domain : string
}.

(** [connection.user] *)
Record User := {
  is_admin : bool
}.

(** What the handler passed to the connection. *)
Inductive Payload :=
| PPrefs (data : option EnergyPreferences)
| PValue (v : Value)
| PForecasts (forecasts : gmap string Value).

Inductive Sent :=
| SendResult (msg_id : Value) (result : Payload)
| SendError (msg_id : Value) (code : string) (message : string).

(** Observable steps of a run, kept in order. *)
Inductive Event :=
| EvDiscovery
| EvGetEntry (config_entry_id : string)
| EvCall (dom : string) (config_entry_id : string)
| EvDone (config_entry_id : string)
| EvRaised (config_entry_id : string)
| EvUpdate (update : gmap string Value).

(** The process state the handlers run against.  [hass.data] is a dict shared
    by every component; the two keys this module touches are kept as typed
    slots ([None] when the key is not in the dict) and all other keys in
    [hass_data_rest].  [msg] is the request dict, which the dispatcher and the
    handler share by reference.  [trace] and [clock] only observe the run. *)
Record World := {
  hass_data_energy : option Value;
  hass_data_energy_platforms : option (gmap string Provider);
  hass_data_rest : gmap string Value;
  hass_config_entries : gmap string ConfigEntry;
  hass_components : list (string * option Platform);
  manager_data : option EnergyPreferences;
  connection_user : User;
  connection_sent : list Sent;
  msg : gmap string Value;
  trace : list Event;
  clock : nat
}.

Definition set_energy_platforms (r : option (gmap string Provider)) (w : World) : World :=
  {| hass_data_energy := hass_data_energy w;
     hass_data_energy_platforms := r;
     hass_data_rest := hass_data_rest w;
     hass_config_entries := hass_config_entries w;
     hass_components := hass_components w;
     manager_data := manager_data w;
     connection_user := connection_user w;
     connection_sent := connection_sent w;
     msg := msg w;
     trace := trace w;
     clock := clock w |}.

Definition set_manager_data (d : option EnergyPreferences) (w : World) : World :=
  {| hass_data_energy := hass_data_energy w;
     hass_data_energy_platforms := hass_data_energy_platforms w;
     hass_data_rest := hass_data_rest w;
     hass_config_entries := hass_config_entries w;
     hass_components := hass_components w;
     manager_data := d;
     connection_user := connection_user w;
     connection_sent := connection_sent w;
     msg := msg w;
     trace := trace w;
     clock := clock w |}.

Definition set_connection_user (u : User) (w : World) : World :=
  {| hass_data_energy := hass_data_energy w;
     hass_data_energy_platforms := hass_data_energy_platforms w;
     hass_data_rest := hass_data_rest w;
     hass_config_entries := hass_config_entries w;
     hass_components := hass_components w;
     manager_data := manager_data w;
     connection_user := u;
     connection_sent := connection_sent w;
     msg := msg w;
     trace := trace w;
     clock := clock w |}.

Definition set_connection_sent (s : list Sent) (w : World) : World :=
  {| hass_data_energy := hass_data_energy w;
     hass_data_energy_platforms := hass_data_energy_platforms w;
     hass_data_rest := hass_data_rest w;
     hass_config_entries := hass_config_entries w;
     hass_components := hass_components w;
     manager_data := manager_data w;
     connection_user := connection_user w;
     connection_sent := s;
     msg := msg w;
     trace := trace w;
     clock := clock w |}.

Definition set_msg (m : gmap string Value) (w : World) : World :=
  {| hass_data_energy := hass_data_energy w;
     hass_data_energy_platforms := hass_data_energy_platforms w;
     hass_data_rest := hass_data_rest w;
     hass_config_entries := hass_config_entries w;
     hass_components := hass_components w;
     manager_data := manager_data w;
     connection_user := connection_user w;
     connection_sent := connection_sent w;
     msg := m;
     trace := trace w;
     clock := clock w |}.

Definition set_trace (t : list Event) (w : World) : World :=
  {| hass_data_energy := hass_data_energy w;
     hass_data_energy_platforms := hass_data_energy_platforms w;
     hass_data_rest := hass_data_rest w;
     hass_config_entries := hass_config_entries w;
     hass_components := hass_components w;
     manager_data := manager_data w;
     connection_user := connection_user w;
     connection_sent := connection_sent w;
     msg := msg w;
     trace := t;
     clock := clock w |}.

Definition set_clock (c : nat) (w : World) : World :=
  {| hass_data_energy := hass_data_energy w;
     hass_data_energy_platforms := hass_data_energy_platforms w;
     hass_data_rest := hass_data_rest w;
     hass_config_entries := hass_config_entries w;
     hass_components := hass_components w;
     manager_data := manager_data w;
     connection_user := connection_user w;
     connection_sent := connection_sent w;
     msg := msg w;
     trace := trace w;
     clock := c |}.

(** ** The handler monad: state plus exceptions

    A raised exception keeps the state reached so far, as in Python. *)

Inductive Res (A : Type) :=
| Ok (a : A)
| Raise (e : Exn).
Arguments Ok {A} a.
Arguments Raise {A} e.

Definition M (A : Type) : Type := World → Res A * World.

#[export] Instance M_ret : MRet M := λ A a w, (Ok a, w).

#[export] Instance M_bind : MBind M := λ A B f m w,
  match m w with
  | (Ok a, w') => f a w'
  | (Raise e, w') => (Raise e, w')
  end.

Definition raise {A} (e : Exn) : M A := λ w, (Raise e, w).
Definition gets {A} (f : World → A) : M A := λ w, (Ok (f w), w).
Definition modify (f : World → World) : M unit := λ w, (Ok tt, f w).

Definition log (e : Event) : M unit :=
  modify (λ w, set_trace (trace w ++ [e]) w).

(** ** Collaborators *)

(** [websocket_api.ERR_NOT_FOUND], [DOMAIN] of [.const], and the key of the
    registry in [hass.data], line 25. *)
Definition ERR_NOT_FOUND : string := "not_found".
Definition DOMAIN : string := "energy".
Definition DATA_ENERGY_PLATFORMS : string := "energy_platforms".

(** [connection.send_result(msg_id, result)] *)
Definition send_result (msg_id : Value) (result : Payload) : M unit :=
  modify (λ w, set_connection_sent (connection_sent w ++ [SendResult msg_id result]) w).

(** [connection.send_error(msg_id, code, message)] *)
Definition send_error (msg_id : Value) (code message : string) : M unit :=
  modify (λ w, set_connection_sent (connection_sent w ++ [SendError msg_id code message]) w).

(** [msg[key]] *)
Definition msg_getitem (key : string) : M Value :=
  m ← gets msg;
  match m !! key with
  | Some v => mret v
  | None => raise (KeyError key)
  end.

(** [msg.pop(key)] *)
Definition msg_pop (key : string) : M Value :=
  m ← gets msg;
  match m !! key with
  | Some v => modify (set_msg (delete key m));; mret v
  | None => raise (KeyError key)
  end.

(** ** Handlers *)

(** [ws_get_prefs], lines 73-84. *)
Definition ws_get_prefs : M unit :=
  data ← gets manager_data;
  match data with
  | None =>
      msg_id ← msg_getitem "id";
      send_error msg_id ERR_NOT_FOUND "No prefs"
  | Some prefs =>
      msg_id ← msg_getitem "id";
      send_result msg_id (PPrefs (Some prefs))
  end.

(** [ws_info], lines 115-123: [hass.data[DOMAIN]] is a plain dict lookup. *)
Definition ws_info : M unit :=
  msg_id ← msg_getitem "id";
  info ← gets hass_data_energy;
  match info with
  | Some v => send_result msg_id (PValue v)
  | None => raise (KeyError DOMAIN)
  end.

(** *** Solar forecast *)

(** [config_entries[config_entry] = None] on the insertion-ordered dict
    [config_entries: dict[str, str | None]].  Every value is [None], so the
    dict is its list of keys in insertion order; assigning to a key that is
    already there keeps its place. *)
Definition dict_setitem (key : string) (keys : list string) : list string :=
  if decide (key ∈ keys) then keys else keys ++ [key].

(** The inner loop, line 153-154. *)
Fixpoint add_config_entries (listed : list string) (config_entries : list string)
  : list string :=
  match listed with
  | [] => config_entries
  | config_entry :: rest =>
      add_config_entries rest (dict_setitem config_entry config_entries)
  end.

(** The loop over [manager.data["energy_sources"]], lines 145-154. *)
Fixpoint collect_config_entries (sources : list EnergySource)
    (config_entries : list string) : list string :=
  match sources with
  | [] => config_entries
  | source :: rest =>
      if bool_decide (type source ≠ "solar") then
        collect_config_entries rest config_entries
      else
        match config_entry_solar_forecast source with
        | None => collect_config_entries rest config_entries
        | Some listed =>
            collect_config_entries rest (add_config_entries listed config_entries)
        end
  end.

(** [_process_energy_platform], lines 187-194. *)
Definition _process_energy_platform (dom : string) (platform : Platform) : M unit :=
  match async_get_solar_forecast platform with
  | None => mret tt
  | Some callback =>
      platforms ← gets hass_data_energy_platforms;
      match platforms with
      | None => raise (KeyError DATA_ENERGY_PLATFORMS)
      | Some registry =>
          modify (set_energy_platforms (Some (<[dom := callback]> registry)))
      end
  end.

(** Run [m] and drop an exception it raises. *)
Definition swallow (m : M unit) : M unit := λ w,
  match m w with
  | (Ok a, w') => (Ok a, w')
  | (Raise _, w') => (Ok tt, w')
  end.

Fixpoint for_each_integration (components : list (string * option Platform))
    (process_platform : string → Platform → M unit) : M unit :=
  match components with
  | [] => mret tt
  | (_, None) :: rest => for_each_integration rest process_platform
  | (dom, Some platform) :: rest =>
      swallow (process_platform dom platform);;
      for_each_integration rest process_platform
  end.

(** Modelled from the spec: [async_process_integration_platforms] of
    [homeassistant.helpers.integration_platform] is not among the sources.
    The spec has discovery enumerate all integrations known to the host
    platform and invoke the callback once for each, best effort: an
    integration that fails to load ([None] in [hass_components]) is skipped
    and a failure of the callback is swallowed. *)
Definition async_process_integration_platforms
    (process_platform : string → Platform → M unit) : M unit :=
  log EvDiscovery;;
  components ← gets hass_components;
  for_each_integration components process_platform.

(** [hass.config_entries.async_get_entry(config_entry_id)] *)
Definition async_get_entry (config_entry_id : string) : M (option ConfigEntry) :=
  log (EvGetEntry config_entry_id);;
  gets (λ w, hass_config_entries w !! config_entry_id).

(** [await callback(hass, config_entry_id)]: the handler is suspended until
    the callback's coroutine has finished. *)
Definition await_forecast (callback : Provider) (dom config_entry_id : string)
  : M (option Value) :=
  log (EvCall dom config_entry_id);;
  modify (λ w, set_clock (clock w + took (callback config_entry_id)) w);;
  match outcome (callback config_entry_id) with
  | Returns forecast => log (EvDone config_entry_id);; mret forecast
  | Raises e => log (EvRaised config_entry_id);; raise e
  end.

(** The loop over [config_entries], lines 170-182. *)
Fixpoint forecast_loop (get_forecast_by_domain : gmap string Provider)
    (config_entries : list string) (forecasts : gmap string Value)
  : M (gmap string Value) :=
  match config_entries with
  | [] => mret forecasts
  | config_entry_id :: rest =>
      config_entry ← async_get_entry config_entry_id;
      match config_entry with
      | None => forecast_loop get_forecast_by_domain rest forecasts
      | Some entry =>
          match get_forecast_by_domain !! domain entry with
          | None => forecast_loop get_forecast_by_domain rest forecasts
          | Some callback =>
              forecast ← await_forecast callback (domain entry) config_entry_id;
              match forecast with
              | None => forecast_loop get_forecast_by_domain rest forecasts
              | Some f =>
                  forecast_loop get_forecast_by_domain rest
                    (<[config_entry_id := f]> forecasts)
              end
          end
      end
  end.

(** Lines 162-168: the guarded discovery and the read of the registry. *)
Definition ensure_platforms : M (gmap string Provider) :=
  platforms ← gets hass_data_energy_platforms;
  match platforms with
  | None =>
      modify (set_energy_platforms (Some ∅));;
      async_process_integration_platforms _process_energy_platform
  | Some _ => mret tt
  end;;
  platforms ← gets hass_data_energy_platforms;
  match platforms with
  | None => raise (KeyError DATA_ENERGY_PLATFORMS)
  | Some registry => mret registry
  end.

(** [ws_solar_forecast], lines 132-184. *)
Definition ws_solar_forecast : M unit :=
  data ← gets manager_data;
  match data with
  | None =>
      msg_id ← msg_getitem "id";
      send_result msg_id (PForecasts ∅)
  | Some prefs =>
      let config_entries := collect_config_entries (energy_sources prefs) [] in
      match config_entries with
      | [] =>
          msg_id ← msg_getitem "id";
          send_result msg_id (PForecasts ∅)
      | _ :: _ =>
          get_forecast_by_domain ← ensure_platforms;
          forecasts ← forecast_loop get_forecast_by_domain config_entries ∅;
          msg_id ← msg_getitem "id";
          send_result msg_id (PForecasts forecasts)
      end
  end.

(** *** Saving preferences *)

(** Markers and value validators of a [voluptuous] dict schema. *)
Inductive Marker :=
| Required (key : string)
| Optional (key : string).

Definition marker_key (m : Marker) : string :=
  match m with
  | Required key => key
  | Optional key => key
  end.

Abbreviation Schema := (list (Marker * (Value → bool))).

(** A literal string as a schema value. *)
Definition literal (s : string) (v : Value) : bool :=
  match v with
  | VStr s' => bool_decide (s' = s)
  | _ => false
  end.

(** [[item]] as a schema value: a list whose elements all pass [item]. *)
Definition list_of (item : Value → bool) (v : Value) : bool :=
  match v with
  | VList l => forallb item l
  | _ => false
  end.

Definition positive_int (v : Value) : bool :=
  match v with
  | VInt n => bool_decide (0 ≤ n)%Z
  | _ => false
  end.

(** A dict passes a schema when every [Required] key is there with a valid
    value, every [Optional] key that is there has a valid value, and there is
    no other key. *)
Definition check_marker (m : gmap string Value) (entry : Marker * (Value → bool)) : bool :=
  match fst entry, m !! marker_key (fst entry) with
  | Required _, Some v => snd entry v
  | Required _, None => false
  | Optional _, Some v => snd entry v
  | Optional _, None => true
  end.

Definition validates (schema : Schema) (m : gmap string Value) : bool :=
  forallb (check_marker m) schema
  && forallb (λ kv, bool_decide (fst kv ∈ (marker_key ∘ fst) <$> schema)) (map_to_list m).

(** Modelled from the spec: [websocket_api.websocket_command] is not among
    the sources.  Every command carries a caller-supplied request id that is
    echoed in the response, so the decorator adds the required [id] to the
    schema it is given. *)
Definition websocket_command (schema : Schema) : Schema :=
  (Required "id", positive_int) :: schema.

(** Modelled from the spec: [websocket_api.require_admin] is not among the
    sources.  It is the permission guard executed before the handler body: a
    caller that is not an admin is rejected with [PermissionDenied] and the
    body does not run. *)
Definition require_admin (func : M unit) : M unit :=
  user ← gets connection_user;
  if is_admin user then func else raise PermissionDenied.

Section Commands.

(** [ENERGY_SOURCE_SCHEMA], [DEVICE_CONSUMPTION_SCHEMA] and
    [EnergyManager.async_update] live in [data.py], which is not among the
    sources.  The update is a function of the payload and the current
    [manager.data] that either raises or leaves a new [manager.data]. *)
Variable ENERGY_SOURCE_SCHEMA : Value → bool.
Variable DEVICE_CONSUMPTION_SCHEMA : Value → bool.
Variable manager_async_update :
  gmap string Value → option EnergyPreferences → Exn + option EnergyPreferences.

(** [connection.async_handle_exception(msg, err)] belongs to the connection
    object of the websocket transport, which is not among the sources.  From
    the request dict as it is when the exception arrives and from the
    exception, it either sends one message or raises. *)
Variable connection_async_handle_exception : gmap string Value → Exn → Exn + Sent.

Definition async_handle_exception (err : Exn) : M unit :=
  m ← gets msg;
  match connection_async_handle_exception m err with
  | inl e => raise e
  | inr message =>
      modify (λ w, set_connection_sent (connection_sent w ++ [message]) w)
  end.

(** Modelled from the spec: [websocket_api.async_response], line 51, is not
    among the sources.  The spec has the command channel answer a request
    with a success payload or with a tagged error, so the decorator runs the
    coroutine as the task of the request and hands an exception that leaves
    the coroutine, together with the request dict, to the connection.  The
    run of the command is the run of that task. *)
Definition async_response (func : M unit) : M unit := λ w,
  match func w with
  | (Ok a, w') => (Ok a, w')
  | (Raise err, w') => async_handle_exception err w'
  end.

(** [_ws_with_manager], lines 46-63.  [async_get_manager(hass)] hands out
    the manager of the process, whose [data] is the [manager_data] of the
    state, so the decorated function reads it from there; awaiting the
    coroutine that [func] returns is running it. *)
Definition _ws_with_manager (func : M unit) : M unit := async_response func.

(** [await manager.async_update(update)] *)
Definition async_update (update : gmap string Value) : M unit :=
  log (EvUpdate update);;
  data ← gets manager_data;
  match manager_async_update update data with
  | inl e => raise e
  | inr data' => modify (set_manager_data data')
  end.

(** The schema given to [websocket_command], lines 89-93. *)
Definition ws_save_prefs_schema : Schema :=
  [ (Required "type", literal "energy/save_prefs");
    (Optional "energy_sources", ENERGY_SOURCE_SCHEMA);
    (Optional "device_consumption", list_of DEVICE_CONSUMPTION_SCHEMA) ].

(** The body of [ws_save_prefs], lines 96-106.  [cast] is the identity: the
    dict handed to the manager is [msg] itself, after the two pops. *)
Definition ws_save_prefs : M unit :=
  msg_id ← msg_pop "id";
  _ ← msg_pop "type";
  update ← gets msg;
  async_update update;;
  data ← gets manager_data;
  send_result msg_id (PPrefs data).

(** The registered command: the body under [_ws_with_manager] and
    [require_admin], lines 87-95.  The permission guard is the outermost
    decorator, so what it raises does not pass through [async_response]. *)
Definition ws_save_prefs_command : M unit :=
  require_admin (_ws_with_manager ws_save_prefs).

(** *** The registered commands *)

(** [async_setup], lines 37-43, registers the four handlers.  A request names
    one of them; the dispatcher runs it on the request dict for the caller's
    connection.  [ws_info] is a plain callback, without [async_response]. *)
Inductive Command :=
| GetPrefs
| SavePrefs
| Info
| SolarForecast.

Record Request := {
  caller : User;
  command : Command;
  body : gmap string Value
}.

Definition async_setup (c : Command) : M unit :=
  match c with
  | GetPrefs => _ws_with_manager ws_get_prefs
  | SavePrefs => ws_save_prefs_command
  | Info => ws_info
  | SolarForecast => _ws_with_manager ws_solar_forecast
  end.

Definition handle (req : Request) (w : World) : World :=
  (async_setup (command req)
     (set_connection_user (caller req) (set_msg (body req) w))).2.

(** The requests of a process, served one after the other. *)
Fixpoint serve (requests : list Request) (w : World) : World :=
  match requests with
  | [] => w
  | req :: rest => serve rest (handle req w)
  end.

End Commands.


(** ** Statements about runs *)

(** A run answers with a success result: the handler returns normally and
    what it sent is one [SendResult]. *)
Definition succeeds (handler : M unit) (w : World) : Prop :=
  ∃ msg_id result w',
    handler w = (Ok tt, w')
    ∧ connection_sent w' = connection_sent w ++ [SendResult msg_id result].

(** A source of the preferences lists the entry id: the source is of type
    [solar] and the id is in its [config_entry_solar_forecast]. *)
Definition listed_in (sources : list EnergySource) (config_entry_id : string) : Prop :=
  ∃ source ids,
    source ∈ sources
    ∧ type source = "solar"
    ∧ config_entry_solar_forecast source = Some ids
    ∧ config_entry_id ∈ ids.

Definition listed (w : World) (config_entry_id : string) : Prop :=
  ∃ prefs, manager_data w = Some prefs ∧ listed_in (energy_sources prefs) config_entry_id.

(** The callback the loop finds for an entry id: the entry exists and its
    domain is in the registry. *)
Definition callback_for (entries : gmap string ConfigEntry)
    (registry : gmap string Provider) (config_entry_id : string) : option Provider :=
  entry ← entries !! config_entry_id;
  registry !! domain entry.

(** The forecast that callback returns, if it returns one. *)
Definition provided (entries : gmap string ConfigEntry)
    (registry : gmap string Provider) (config_entry_id : string) : option Value :=
  callback ← callback_for entries registry config_entry_id;
  match outcome (callback config_entry_id) with
  | Returns forecast => forecast
  | Raises _ => None
  end.

(** Reading a trace: the entry ids that were resolved, the entry ids whose
    callback was called, the number of discovery passes, and the time spent
    suspended in callbacks. *)
Definition resolved (t : list Event) : list string :=
  omap (λ e, match e with EvGetEntry id => Some id | _ => None end) t.

Definition called (t : list Event) : list string :=
  omap (λ e, match e with EvCall _ id => Some id | _ => None end) t.

Definition is_discovery (e : Event) : bool :=
  match e with
  | EvDiscovery => true
  | _ => false
  end.

Definition discoveries (t : list Event) : nat :=
  length (List.filter is_discovery t).

Definition call_time (registry : gmap string Provider) (e : Event) : nat :=
  match e with
  | EvCall dom id =>
      match registry !! dom with
      | Some callback => took (callback id)
      | None => 0
      end
  | _ => 0
  end.

Definition is_call_event (e : Event) : bool :=
  match e with
  | EvCall _ _ | EvDone _ | EvRaised _ => true
  | _ => false
  end.

(** The callbacks are awaited one after the other: each call is followed at
    once by its own completion, and a callback that raises ends the trace. *)
Inductive awaited_in_turn : list Event → Prop :=
| turn_nil : awaited_in_turn []
| turn_skip e t :
    is_call_event e = false → awaited_in_turn t → awaited_in_turn (e :: t)
| turn_done dom id t :
    awaited_in_turn t → awaited_in_turn (EvCall dom id :: EvDone id :: t)
| turn_raised dom id :
    awaited_in_turn [EvCall dom id; EvRaised id].

(** The calls are issued together and awaited collectively: every call is
    started before the completion of any call is awaited. *)
Definition issued_concurrently (t : list Event) : Prop :=
  ∀ i j dom id id',
    t !! i = Some (EvCall dom id) → t !! j = Some (EvDone id') → i < j.

(** An integration known to the host has an energy platform with this
    forecast callback. *)
Definition exposes (components : list (string * option Platform))
    (dom : string) (callback : Provider) : Prop :=
  ∃ platform,
    (dom, Some platform) ∈ components
    ∧ async_get_solar_forecast platform = Some callback.

(** The keys of [config_entries] when the loop over the sources is done. *)
Definition candidates (w : World) : list string :=
  match manager_data w with
  | Some prefs => collect_config_entries (energy_sources prefs) []
  | None => []
  end.

(** The callback in the registry for a domain once discovery is done: the
    one already registered, or, while [hass.data] has no registry yet, one
    that an integration exposes. *)
Definition registered (w : World) (dom : string) (callback : Provider) : Prop :=
  match hass_data_energy_platforms w with
  | Some registry => registry !! dom = Some callback
  | None => exposes (hass_components w) dom callback
  end.

(** No callback that a request would await raises. *)
Definition callbacks_return (w : World) : Prop :=
  ∀ id entry callback e,
    listed w id →
    hass_config_entries w !! id = Some entry →
    registered w (domain entry) callback →
    outcome (callback id) ≠ Raises e.

(** The registry that a discovery pass leaves, starting from [registry]: each
    integration whose platform has a forecast callback is entered under its
    domain, in the order of the integrations, a later one replacing an
    earlier one of the same domain. *)
Definition discovered (components : list (string * option Platform))
    (registry : gmap string Provider) : gmap string Provider :=
  foldl (λ found component,
           match component.2 with
           | Some platform =>
               match async_get_solar_forecast platform with
               | Some callback => <[component.1 := callback]> found
               | None => found
               end
           | None => found
           end)
        registry components.

(** The registry a forecast request works with, read off the state in which
    the request arrives: the one in [hass.data], or, without one, the one
    discovery builds from the integrations. *)
Definition registry_for (w : World) : gmap string Provider :=
  match hass_data_energy_platforms w with
  | Some registry => registry
  | None => discovered (hass_components w) ∅
  end.

(** The exception of the first entry id, in the order of [ids], whose
    callback raises. *)
Fixpoint first_raised (entries : gmap string ConfigEntry)
    (registry : gmap string Provider) (ids : list string) : option Exn :=
  match ids with
  | [] => None
  | id :: rest =>
      match callback_for entries registry id with
      | Some callback =>
          match outcome (callback id) with
          | Raises e => Some e
          | Returns _ => first_raised entries registry rest
          end
      | None => first_raised entries registry rest
      end
  end.

(** ** Example states *)

Definition request (command : string) : gmap string Value :=
  {[ "id" := VInt 1; "type" := VStr command ]}.

(** A process in which nothing of the energy component has been set up. *)
Definition blank_world (command : string) : World :=
  {| hass_data_energy := None;
     hass_data_energy_platforms := None;
     hass_data_rest := ∅;
     hass_config_entries := ∅;
     hass_components := [];
     manager_data := None;
     connection_user := {| is_admin := false |};
     connection_sent := [];
     msg := request command;
     trace := [];
     clock := 0 |}.

(** The energy component is set up and one solar source is configured. *)
Definition solar_prefs (listed : list string) : EnergyPreferences :=
  {| energy_sources :=
       [ {| type := "grid"; config_entry_solar_forecast := None; source_fields := VNone |};
         {| type := "solar"; config_entry_solar_forecast := Some listed;
            source_fields := VNone |} ];
     device_consumption := [] |}.

Definition configured_world (command : string) : World :=
  {| hass_data_energy := Some (VDict [("cost_sensors", VDict [])]);
     hass_data_energy_platforms := None;
     hass_data_rest := ∅;
     hass_config_entries := ∅;
     hass_components := [];
     manager_data := Some (solar_prefs []);
     connection_user := {| is_admin := false |};
     connection_sent := [];
     msg := request command;
     trace := [];
     clock := 0 |}.

(** The end-to-end scenario: two solar sources list [entry1] three times and
    [entry2] once; [entry1] belongs to an integration whose platform has a
    forecast callback, [entry2] to a domain without one. *)
Definition scenario_prefs : EnergyPreferences :=
  {| energy_sources :=
       [ {| type := "solar"; config_entry_solar_forecast := Some ["entry1"; "entry2"; "entry1"];
            source_fields := VNone |};
         {| type := "grid"; config_entry_solar_forecast := Some ["entry3"];
            source_fields := VNone |};
         {| type := "solar"; config_entry_solar_forecast := None; source_fields := VNone |};
         {| type := "solar"; config_entry_solar_forecast := Some ["entry1"];
            source_fields := VNone |} ];
     device_consumption := [] |}.

Definition returns_after (time : nat) (forecast : option Value) : Provider :=
  λ _, {| took := time; outcome := Returns forecast |}.

Definition raises_after (time : nat) (what : string) : Provider :=
  λ _, {| took := time; outcome := Raises (Failure what) |}.

Definition scenario_world : World :=
  {| hass_data_energy := Some (VDict [("cost_sensors", VDict [])]);
     hass_data_energy_platforms := None;
     hass_data_rest := ∅;
     hass_config_entries :=
       {[ "entry1" := {| domain := "forecast_solar" |};
          "entry2" := {| domain := "hue" |} ]};
     hass_components :=
       [ ("forecast_solar",
          Some {| async_get_solar_forecast :=
                    Some (returns_after 3 (Some (VDict [("wh", VInt 120)]))) |});
         ("hue", Some {| async_get_solar_forecast := None |});
         ("broken", None) ];
     manager_data := Some scenario_prefs;
     connection_user := {| is_admin := false |};
     connection_sent := [];
     msg := request "energy/solar_forecast";
     trace := [];
     clock := 0 |}.

(** Two entries of two integrations, whose callbacks take 3 and 4 time units;
    the first either returns or raises. *)
Definition two_providers (first : Provider) : World :=
  {| hass_data_energy := Some (VDict [("cost_sensors", VDict [])]);
     hass_data_energy_platforms := None;
     hass_data_rest := ∅;
     hass_config_entries :=
       {[ "entry1" := {| domain := "forecast_solar" |};
          "entry2" := {| domain := "solcast" |} ]};
     hass_components :=
       [ ("forecast_solar", Some {| async_get_solar_forecast := Some first |});
         ("solcast",
          Some {| async_get_solar_forecast := Some (returns_after 4 (Some (VInt 7))) |}) ];
     manager_data := Some (solar_prefs ["entry1"; "entry2"]);
     connection_user := {| is_admin := false |};
     connection_sent := [];
     msg := request "energy/solar_forecast";
     trace := [];
     clock := 0 |}.

(** A save request of an admin and of an ordinary user, with stand-ins for
    the schemas and the manager's update of [data.py]. *)
Definition any_value (v : Value) : bool := true.

Definition store_update (update : gmap string Value) (data : option EnergyPreferences)
  : Exn + option EnergyPreferences :=
  inr (Some (solar_prefs [])).

(** A stand-in for the connection's handler of exceptions: an error message
    that echoes the request id, which it reads from the request dict. *)
Definition report_error (m : gmap string Value) (err : Exn) : Exn + Sent :=
  match m !! "id" with
  | Some msg_id => inr (SendError msg_id "unknown_error" "Unknown error")
  | None => inl (KeyError "id")
  end.

Definition save_request : gmap string Value :=
  <["energy_sources" := VList []]> (request "energy/save_prefs").

Definition save_world (admin : bool) : World :=
  {| hass_data_energy := Some (VDict [("cost_sensors", VDict [])]);
     hass_data_energy_platforms := None;
     hass_data_rest := ∅;
     hass_config_entries := ∅;
     hass_components := [];
     manager_data := None;
     connection_user := {| is_admin := admin |};
     connection_sent := [];
     msg := save_request;
     trace := [];
     clock := 0 |}.

(** ** Proof steps *)

(** Unfold the monad and run a handler one step. *)
Ltac run_monad :=
  unfold log, gets, modify, raise, send_result, send_error;
  unfold mbind, M_bind, mret, M_ret; cbn.

(** Two states are the same when their fields are, which [fields_eq] says;
    the trace and the clock are the fields that take an argument. *)
Ltac same_world_by fields_eq :=
  apply fields_eq; try reflexivity;
  first
    [ cbn [trace set_trace set_clock set_connection_sent set_energy_platforms];
      by rewrite <- ?app_assoc, ?app_nil_r
    | cbn [clock set_trace set_clock set_connection_sent set_energy_platforms
           sum_list_with call_time];
      repeat match goal with H : _ !! _ = Some _ |- _ => rewrite H end;
      lia ].

(** ** Further statements about the energy handlers *)

(** The entry ids of the solar sources in the order in which the loop over
    [manager.data["energy_sources"]] meets them, repetitions included. *)
Definition listed_ids (sources : list EnergySource) : list string :=
  sources ≫= λ source,
    if bool_decide (type source ≠ "solar") then []
    else default [] (config_entry_solar_forecast source).

(** A request of an admin to save preferences and a request to read them. *)
Definition save_by_admin : Request :=
  {| caller := {| is_admin := true |}; command := SavePrefs; body := save_request |}.

Definition get_by_user : Request :=
  {| caller := {| is_admin := false |}; command := GetPrefs;
     body := <["id" := VInt 2]> (request "energy/get_prefs") |}.

(** The number of messages a handler that ended in [r] should have sent. *)
Definition replies {A} (r : Res A) : nat :=
  match r with
  | Ok _ => 1
  | Raise _ => 0
  end.

(** A request that cannot change the stored preferences: anything but a save,
    or a save of a caller who is not an admin. *)
Definition read_only (req : Request) : Prop :=
  command req = SavePrefs → is_admin (caller req) = false.

(** * The Yeelight light platform (homeassistant/components/yeelight/light.py)

    The light classes of the platform, their method resolution, the
    properties they read from the bulb and the effect command. *)

Module Yeelight.

(** ** Effects, lines 81-164 *)

Definition EFFECT_DISCO : string := "Disco".
Definition EFFECT_TEMP : string := "Slow Temp".
Definition EFFECT_STROBE : string := "Strobe epilepsy!".
Definition EFFECT_STROBE_COLOR : string := "Strobe color".
Definition EFFECT_ALARM : string := "Alarm".
Definition EFFECT_POLICE : string := "Police".
Definition EFFECT_POLICE2 : string := "Police2".
Definition EFFECT_CHRISTMAS : string := "Christmas".
Definition EFFECT_RGB : string := "RGB".
Definition EFFECT_RANDOM_LOOP : string := "Random Loop".
Definition EFFECT_FAST_RANDOM_LOOP : string := "Fast Random Loop".
Definition EFFECT_LSD : string := "LSD".
Definition EFFECT_SLOWDOWN : string := "Slowdown".
Definition EFFECT_WHATSAPP : string := "WhatsApp".
Definition EFFECT_FACEBOOK : string := "Facebook".
Definition EFFECT_TWITTER : string := "Twitter".
Definition EFFECT_STOP : string := "Stop".
Definition EFFECT_HOME : string := "Home".
Definition EFFECT_NIGHT_MODE : string := "Night Mode".
Definition EFFECT_DATE_NIGHT : string := "Date Night".
Definition EFFECT_MOVIE : string := "Movie".
Definition EFFECT_SUNRISE : string := "Sunrise".
Definition EFFECT_SUNSET : string := "Sunset".
Definition EFFECT_ROMANCE : string := "Romance".
Definition EFFECT_HAPPY_BIRTHDAY : string := "Happy Birthday".
Definition EFFECT_CANDLE_FLICKER : string := "Candle Flicker".

Definition YEELIGHT_TEMP_ONLY_EFFECT_LIST : list string :=
  [EFFECT_TEMP; EFFECT_STOP].

Definition YEELIGHT_MONO_EFFECT_LIST : list string :=
  [ EFFECT_DISCO; EFFECT_STROBE; EFFECT_ALARM; EFFECT_POLICE2; EFFECT_WHATSAPP;
    EFFECT_FACEBOOK; EFFECT_TWITTER; EFFECT_HOME; EFFECT_CANDLE_FLICKER ]
  ++ YEELIGHT_TEMP_ONLY_EFFECT_LIST.

Definition YEELIGHT_COLOR_EFFECT_LIST : list string :=
  [ EFFECT_STROBE_COLOR; EFFECT_POLICE; EFFECT_CHRISTMAS; EFFECT_RGB;
    EFFECT_RANDOM_LOOP; EFFECT_FAST_RANDOM_LOOP; EFFECT_LSD; EFFECT_SLOWDOWN;
    EFFECT_NIGHT_MODE; EFFECT_DATE_NIGHT; EFFECT_MOVIE; EFFECT_SUNRISE;
    EFFECT_SUNSET; EFFECT_ROMANCE; EFFECT_HAPPY_BIRTHDAY ]
  ++ YEELIGHT_MONO_EFFECT_LIST.

(** [EFFECTS_MAP]: the values are functions of [yeelight.flows], named here
    by their attribute name. *)
Definition EFFECTS_MAP : gmap string string :=
  list_to_map
    [ (EFFECT_DISCO, "disco"); (EFFECT_TEMP, "temp"); (EFFECT_STROBE, "strobe");
      (EFFECT_STROBE_COLOR, "strobe_color"); (EFFECT_ALARM, "alarm");
      (EFFECT_POLICE, "police"); (EFFECT_POLICE2, "police2");
      (EFFECT_CHRISTMAS, "christmas"); (EFFECT_RGB, "rgb");
      (EFFECT_RANDOM_LOOP, "random_loop"); (EFFECT_LSD, "lsd");
      (EFFECT_SLOWDOWN, "slowdown"); (EFFECT_HOME, "home");
      (EFFECT_NIGHT_MODE, "night_mode"); (EFFECT_DATE_NIGHT, "date_night");
      (EFFECT_MOVIE, "movie"); (EFFECT_SUNRISE, "sunrise");
      (EFFECT_SUNSET, "sunset"); (EFFECT_ROMANCE, "romance");
      (EFFECT_HAPPY_BIRTHDAY, "happy_birthday");
      (EFFECT_CANDLE_FLICKER, "candle_flicker") ].

(** ** The classes, lines 381-1012 *)

Inductive Class :=
| YeelightGenericLight
| YeelightColorLightSupport
| YeelightWhiteTempLightSupport
| YeelightNightLightSupport
| YeelightColorLightWithoutNightlightSwitch
| YeelightColorLightWithNightlightSwitch
| YeelightWhiteTempWithoutNightlightSwitch
| YeelightWithNightLight
| YeelightNightLightMode
| YeelightNightLightModeWithAmbientSupport
| YeelightNightLightModeWithoutBrightnessControl
| YeelightWithAmbientWithoutNightlight
| YeelightWithAmbientAndNightlight
| YeelightAmbientLight.

#[export] Instance Class_eq_dec : EqDecision Class.
Proof. solve_decision. Defined.

(** The bases each class statement names, in order.  [YeelightEntity] and
    [LightEntity], the bases of [YeelightGenericLight], belong to the
    framework; they come last in every resolution order and hold the
    defaults. *)
Definition bases (c : Class) : list Class :=
  match c with
  | YeelightGenericLight => []
  | YeelightColorLightSupport => [YeelightGenericLight]
  | YeelightWhiteTempLightSupport => []
  | YeelightNightLightSupport => []
  | YeelightColorLightWithoutNightlightSwitch =>
      [YeelightColorLightSupport; YeelightGenericLight]
  | YeelightColorLightWithNightlightSwitch =>
      [YeelightNightLightSupport; YeelightColorLightSupport; YeelightGenericLight]
  | YeelightWhiteTempWithoutNightlightSwitch =>
      [YeelightWhiteTempLightSupport; YeelightGenericLight]
  | YeelightWithNightLight =>
      [YeelightNightLightSupport; YeelightWhiteTempLightSupport; YeelightGenericLight]
  | YeelightNightLightMode => [YeelightGenericLight]
  | YeelightNightLightModeWithAmbientSupport => [YeelightNightLightMode]
  | YeelightNightLightModeWithoutBrightnessControl => [YeelightNightLightMode]
  | YeelightWithAmbientWithoutNightlight => [YeelightWhiteTempWithoutNightlightSwitch]
  | YeelightWithAmbientAndNightlight => [YeelightWithNightLight]
  | YeelightAmbientLight => [YeelightColorLightWithoutNightlightSwitch]
  end.

(** Python's method resolution order (C3): the class, then the merge of the
    orders of its bases and of the list of bases.  The merge takes the first
    head that is in the tail of no sequence. *)
Definition good_head (seqs : list (list Class)) (c : Class) : bool :=
  forallb (λ seq, negb (bool_decide (c ∈ tail seq))) seqs.

Definition drop_head (c : Class) (seq : list Class) : list Class :=
  match seq with
  | h :: rest => if decide (h = c) then rest else seq
  | [] => []
  end.

Fixpoint merge (fuel : nat) (seqs : list (list Class)) : list Class :=
  match fuel with
  | 0 => []
  | S fuel =>
      match List.filter (good_head seqs) (omap head seqs) with
      | c :: _ => c :: merge fuel (drop_head c <$> seqs)
      | [] => []
      end
  end.

Fixpoint linearize (fuel : nat) (c : Class) : list Class :=
  match fuel with
  | 0 => [c]
  | S fuel => c :: merge 16 ((linearize fuel <$> bases c) ++ [bases c])
  end.

Definition mro (c : Class) : list Class := linearize 4 c.

(** The attribute a class gets: the first definition along its order. *)
Definition resolve {A} (own : Class → option A) (c : Class) : option A :=
  head (omap own (mro c)).

(** What each class body defines. *)
Definition own_brightness_property (c : Class) : option string :=
  match c with
  | YeelightGenericLight => Some "bright"
  | YeelightColorLightWithoutNightlightSwitch => Some "current_brightness"
  | YeelightWhiteTempWithoutNightlightSwitch => Some "current_brightness"
  | YeelightNightLightMode => Some "nl_br"
  | YeelightAmbientLight => Some "bright"
  | _ => None
  end.

Definition own_power_property (c : Class) : option string :=
  match c with
  | YeelightGenericLight => Some "power"
  | YeelightNightLightModeWithAmbientSupport => Some "main_power"
  | YeelightWithAmbientWithoutNightlight => Some "main_power"
  | YeelightWithAmbientAndNightlight => Some "main_power"
  | _ => None
  end.

Inductive PowerMode := LAST | NORMAL | MOONLIGHT.

Definition own_turn_on_power_mode (c : Class) : option PowerMode :=
  match c with
  | YeelightGenericLight => Some LAST
  | YeelightNightLightSupport => Some NORMAL
  | YeelightNightLightMode => Some MOONLIGHT
  | _ => None
  end.

Definition own_predefined_effects (c : Class) : option (list string) :=
  match c with
  | YeelightGenericLight => Some YEELIGHT_MONO_EFFECT_LIST
  | YeelightColorLightSupport => Some YEELIGHT_COLOR_EFFECT_LIST
  | YeelightWhiteTempLightSupport => Some YEELIGHT_TEMP_ONLY_EFFECT_LIST
  | YeelightNightLightMode => Some YEELIGHT_TEMP_ONLY_EFFECT_LIST
  | _ => None
  end.

Inductive ColorMode :=
| COLOR_MODE_BRIGHTNESS
| COLOR_MODE_COLOR_TEMP
| COLOR_MODE_HS
| COLOR_MODE_ONOFF
| COLOR_MODE_RGB
| COLOR_MODE_UNKNOWN.

#[export] Instance ColorMode_eq_dec : EqDecision ColorMode.
Proof. solve_decision. Defined.

Definition own_attr_color_mode (c : Class) : option ColorMode :=
  match c with
  | YeelightGenericLight => Some COLOR_MODE_BRIGHTNESS
  | YeelightWhiteTempLightSupport => Some COLOR_MODE_COLOR_TEMP
  | YeelightNightLightModeWithoutBrightnessControl => Some COLOR_MODE_ONOFF
  | _ => None
  end.

Definition own_attr_supported_color_modes (c : Class) : option (list ColorMode) :=
  match c with
  | YeelightGenericLight => Some [COLOR_MODE_BRIGHTNESS]
  | YeelightColorLightSupport =>
      Some [COLOR_MODE_COLOR_TEMP; COLOR_MODE_HS; COLOR_MODE_RGB]
  | YeelightWhiteTempLightSupport => Some [COLOR_MODE_COLOR_TEMP]
  | YeelightNightLightModeWithoutBrightnessControl => Some [COLOR_MODE_ONOFF]
  | _ => None
  end.

(** The properties of the class attributes; every order ends in
    [YeelightGenericLight], which defines them all. *)
Definition _brightness_property (c : Class) : string :=
  default "bright" (resolve own_brightness_property c).

Definition _power_property (c : Class) : string :=
  default "power" (resolve own_power_property c).

Definition _turn_on_power_mode (c : Class) : PowerMode :=
  default LAST (resolve own_turn_on_power_mode c).

Definition _predefined_effects (c : Class) : list string :=
  default [] (resolve own_predefined_effects c).

Definition supported_color_modes (c : Class) : list ColorMode :=
  default [] (resolve own_attr_supported_color_modes c).

(** [self._light_type]: set to [LightType.Main] by
    [YeelightGenericLight.__init__] and then to [LightType.Ambient] by
    [YeelightAmbientLight.__init__]. *)
Inductive LightType := Main | Ambient.

Definition light_type (c : Class) : LightType :=
  if bool_decide (YeelightAmbientLight ∈ mro c) then Ambient else Main.

(** ** A light and its bulb *)

Inductive Error :=
| BulbException
| TypeError
| ValueError
| AttributeError
| IndexError
| KeyError (key : string).

(** A transition object: the class of the [yeelight] module that
    [getattr(yeelight, transition)] names, called with the parameters. *)
Record Transition := {
  transition : string;
  params : list Z
}.

(** The keyword arguments of [Flow] that [_parse_custom_effects] stores for
    an effect. *)
Record CustomEffect := {
  count : Z;
  action : Z;
  transitions : list Transition
}.

(** A flow: [Flow] called with the keyword arguments of a custom effect, or
    the result of a function of [yeelight.flows]. *)
Inductive Flow :=
| FlowOf (effect : CustomEffect)
| FlowsCall (function : string) (args : list Z) (kwargs : list (string * Z)).

(** The calls a light makes on its bulb. *)
Inductive BulbCommand :=
| async_stop_flow (lt : LightType)
| async_start_flow (flow : Flow) (lt : LightType)
| async_set_rgb_command (red green blue : Z) (duration : Z) (lt : LightType).

(** The state of a light entity.  [last_properties] is
    [self._bulb.last_properties], [None] when [self._bulb] is [None]; a
    property of the bulb is a string or [None].  [custom_effects] is a dict,
    given by its items in insertion order.  [commands] records the calls made
    on the bulb. *)
Record Light := {
  klass : Class;
  last_properties : option (gmap string (option string));
  is_nightlight_enabled : bool;
  _effect : option string;
  custom_effects : list (string * CustomEffect);
  commands : list BulbCommand
}.

Definition set_effect (effect : option string) (light : Light) : Light :=
  {| klass := klass light;
     last_properties := last_properties light;
     is_nightlight_enabled := is_nightlight_enabled light;
     _effect := effect;
     custom_effects := custom_effects light;
     commands := commands light |}.

Definition set_commands (cs : list BulbCommand) (light : Light) : Light :=
  {| klass := klass light;
     last_properties := last_properties light;
     is_nightlight_enabled := is_nightlight_enabled light;
     _effect := _effect light;
     custom_effects := custom_effects light;
     commands := cs |}.

(** [_properties], lines 519-523. *)
Definition _properties (light : Light) : gmap string (option string) :=
  default ∅ (last_properties light).

Definition PROPERTIES_MAPPING : gmap string string :=
  {[ "color_mode" := "bg_lmode" ]}.

(** The name [YeelightAmbientLight._get_property], lines 1006-1012, passes
    on to [super()._get_property]. *)
Definition bg_prop (prop : string) : string :=
  match PROPERTIES_MAPPING !! prop with
  | Some name => if bool_decide (name = "") then String.append "bg_" prop else name
  | None => String.append "bg_" prop
  end.

(** [_get_property], lines 525-526 and 1006-1012, with the default
    [None]: [dict.get] gives the value of the key, which may be [None]. *)
Fixpoint _get_property_along (order : list Class)
    (properties : gmap string (option string)) (prop : string) : option string :=
  match order with
  | [] => None
  | YeelightAmbientLight :: rest => _get_property_along rest properties (bg_prop prop)
  | YeelightGenericLight :: _ => mjoin (properties !! prop)
  | _ :: rest => _get_property_along rest properties prop
  end.

Definition _get_property (light : Light) (prop : string) : option string :=
  _get_property_along (mro (klass light)) (_properties light) prop.

(** [is_on], lines 441-444, 866-869, 890-893 and 915-918; [super().is_on] is
    the definition further along the order. *)
Fixpoint is_on_along (order : list Class) (light : Light) : bool :=
  match order with
  | [] => false
  | YeelightGenericLight :: _ =>
      bool_decide (_get_property light (_power_property (klass light)) = Some "on")
  | YeelightColorLightWithNightlightSwitch :: rest
  | YeelightWithNightLight :: rest =>
      is_on_along rest light && negb (is_nightlight_enabled light)
  | YeelightNightLightMode :: rest =>
      is_on_along rest light && is_nightlight_enabled light
  | _ :: rest => is_on_along rest light
  end.

Definition is_on (light : Light) : bool :=
  is_on_along (mro (klass light)) light.

(** [unique_id], lines 899-903 and 991-995, over the [unique_id] of
    [YeelightEntity]. *)
Fixpoint unique_id_along (order : list Class) (unique : string) : string :=
  match order with
  | [] => unique
  | YeelightNightLightMode :: rest =>
      String.append (unique_id_along rest unique) "-nightlight"
  | YeelightAmbientLight :: rest =>
      String.append (unique_id_along rest unique) "-ambilight"
  | _ :: rest => unique_id_along rest unique
  end.

Definition unique_id (c : Class) (unique : string) : string :=
  unique_id_along (mro c) unique.

Section Bulb.

(** Python's [int] on a string ([None] for [ValueError]) and the bulb, which
    answers a call, given the calls made before, by returning or by
    raising. *)
Variable int : string → option Z.
Variable bulb : list BulbCommand → BulbCommand → option Error.

(** [rgb_color], lines 493-506. *)
Definition rgb_color (light : Light) : Error + option (Z * Z * Z) :=
  match _get_property light "rgb" with
  | None => inr None
  | Some text =>
      match int text with
      | None => inl ValueError
      | Some rgb =>
          let blue := Z.land rgb 255 in
          let green := Z.land (Z.shiftr rgb 8) 255 in
          let red := Z.land (Z.shiftr rgb 16) 255 in
          inr (Some (red, green, blue))
      end
  end.

(** [color_mode]: the property of [YeelightColorLightSupport], lines
    811-822, for the classes that have it in their order, and the class
    attribute [_attr_color_mode] for the others. *)
Definition color_mode (light : Light) : Error + ColorMode :=
  if bool_decide (YeelightColorLightSupport ∈ mro (klass light)) then
    match _get_property light "color_mode" with
    | None => inl TypeError
    | Some text =>
        match int text with
        | None => inl ValueError
        | Some mode =>
            if bool_decide (mode = 1%Z) then inr COLOR_MODE_RGB
            else if bool_decide (mode = 2%Z) then inr COLOR_MODE_COLOR_TEMP
            else if bool_decide (mode = 3%Z) then inr COLOR_MODE_HS
            else inr COLOR_MODE_UNKNOWN
        end
    end
  else inr (default COLOR_MODE_BRIGHTNESS (resolve own_attr_color_mode (klass light))).

(** A call on [self._bulb]. *)
Definition call_bulb (command : BulbCommand) (light : Light) : (Error + unit) * Light :=
  match last_properties light with
  | None => (inl AttributeError, light)
  | Some _ =>
      let light' := set_commands (commands light ++ [command]) light in
      match bulb (commands light) command with
      | Some e => (inl e, light')
      | None => (inr tt, light')
      end
  end.

(** [_async_cmd], lines 237-247. *)
Definition _async_cmd (func : Light → (Error + unit) * Light) (light : Light)
  : (Error + unit) * Light :=
  match func light with
  | (inl BulbException, light') => (inr tt, light')
  | result => result
  end.

(** [custom_effects_names], lines 473-476. *)
Definition custom_effects_names (light : Light) : list string :=
  fst <$> custom_effects light.

(** [effect_list], lines 423-426. *)
Definition effect_list (light : Light) : list string :=
  _predefined_effects (klass light) ++ custom_effects_names light.

(** The flow that [async_set_effect], lines 694-707, picks for an effect. *)
Definition effect_flow (light : Light) (effect : string) : option Flow :=
  if bool_decide (effect ∈ custom_effects_names light) then
    FlowOf <$> (list_find (λ item, fst item = effect) (custom_effects light)
                  ≫= λ found, Some (snd (snd found)))
  else
    match EFFECTS_MAP !! effect with
    | Some function => Some (FlowsCall function [] [])
    | None =>
        if bool_decide (effect = EFFECT_FAST_RANDOM_LOOP) then
          Some (FlowsCall "random_loop" [] [("duration", 250%Z)])
        else if bool_decide (effect = EFFECT_WHATSAPP) then
          Some (FlowsCall "pulse" [37; 211; 102]%Z [("count", 2%Z)])
        else if bool_decide (effect = EFFECT_FACEBOOK) then
          Some (FlowsCall "pulse" [59; 89; 152]%Z [("count", 2%Z)])
        else if bool_decide (effect = EFFECT_TWITTER) then
          Some (FlowsCall "pulse" [0; 172; 237]%Z [("count", 2%Z)])
        else None
    end.

(** [async_set_effect], lines 684-713: the body and the decorated method. *)
Definition async_set_effect_body (effect : option string) (light : Light)
  : (Error + unit) * Light :=
  match effect with
  | None => (inr tt, light)
  | Some name =>
      if bool_decide (name = "") then (inr tt, light)
      else if bool_decide (name = EFFECT_STOP) then
        call_bulb (async_stop_flow (light_type (klass light))) light
      else
        match effect_flow light name with
        | None => (inr tt, light)
        | Some flow =>
            match call_bulb (async_start_flow flow (light_type (klass light))) light with
            | (inr _, light') => (inr tt, set_effect (Some name) light')
            | (inl BulbException, light') => (inr tt, light')
            | (inl e, light') => (inl e, light')
            end
        end
  end.

Definition async_set_effect (effect : option string) : Light → (Error + unit) * Light :=
  _async_cmd (async_set_effect_body effect).

(** [async_set_rgb], lines 608-622. *)
Definition async_set_rgb_body (rgb : option (Z * Z * Z)) (duration : Z) (light : Light)
  : (Error + unit) * Light :=
  match rgb with
  | None => (inr tt, light)
  | Some (red, green, blue) =>
      if bool_decide (COLOR_MODE_RGB ∈ supported_color_modes (klass light)) then
        let send :=
          call_bulb (async_set_rgb_command red green blue duration
                       (light_type (klass light))) light in
        match color_mode light with
        | inl e => (inl e, light)
        | inr mode =>
            if bool_decide (mode = COLOR_MODE_RGB) then
              match rgb_color light with
              | inl e => (inl e, light)
              | inr current =>
                  if bool_decide (current = Some (red, green, blue))
                  then (inr tt, light)
                  else send
              end
            else send
        end
      else (inr tt, light)
  end.

Definition async_set_rgb (rgb : option (Z * Z * Z)) (duration : Z)
  : Light → (Error + unit) * Light :=
  _async_cmd (async_set_rgb_body rgb duration).

End Bulb.

(** ** Setting up the lights of a device *)

(** One element of the validated effects config: [CONF_NAME] and, under
    [CONF_FLOW_PARAMS], [ATTR_COUNT], [ATTR_ACTION] and
    [ATTR_TRANSITIONS]. *)
Record EffectConfig := {
  conf_name : string;
  attr_count : Z;
  attr_action : string;
  attr_transitions : list (list (string * list Z))
}.

(** [effects[name] = value] on a dict given by its items. *)
Fixpoint dict_set {V} (key : string) (value : V) (items : list (string * V))
  : list (string * V) :=
  match items with
  | [] => [(key, value)]
  | (k, v) :: rest =>
      if decide (k = key) then (k, value) :: rest
      else (k, v) :: dict_set key value rest
  end.

Section CustomEffects.

(** [Flow.actions] of the [yeelight] package. *)
Variable Flow_actions : gmap string Z.

(** [getattr(yeelight, transition)] called with the parameters, line 215:
    the transition classes of the [yeelight] package are not among the
    sources.  The call raises, for a name the package does not have or for
    parameters the class refuses, or gives the transition object. *)
Variable yeelight_transition : string → list Z → Error + Transition.

(** [_transitions_config_parser], lines 209-217; a transition config is a
    dict, given by its items in order. *)
Fixpoint _transitions_config_parser (transitions : list (list (string * list Z)))
  : Error + list Transition :=
  match transitions with
  | [] => inr []
  | transition_config :: rest =>
      match transition_config with
      | [] => inl IndexError
      | (name, parameters) :: _ =>
          match yeelight_transition name parameters with
          | inl e => inl e
          | inr object =>
              match _transitions_config_parser rest with
              | inl e => inl e
              | inr transition_objects => inr (object :: transition_objects)
              end
          end
      end
  end.

(** [_parse_custom_effects], lines 220-234. *)
Fixpoint parse_effects (effects_config : list EffectConfig)
    (effects : list (string * CustomEffect)) : Error + list (string * CustomEffect) :=
  match effects_config with
  | [] => inr effects
  | config :: rest =>
      match Flow_actions !! attr_action config with
      | None => inl (KeyError (attr_action config))
      | Some act =>
          match _transitions_config_parser (attr_transitions config) with
          | inl e => inl e
          | inr objects =>
              parse_effects rest
                (dict_set (conf_name config)
                   {| count := attr_count config; action := act;
                      transitions := objects |}
                   effects)
          end
      end
  end.

Definition _parse_custom_effects (effects_config : list EffectConfig)
  : Error + list (string * CustomEffect) :=
  parse_effects effects_config [].

End CustomEffects.

(** [BulbType] of the [yeelight] package; [OtherType] stands for every value
    that is none of the four the code names. *)
Inductive BulbType := White | Color | WhiteTemp | WhiteTempMood | OtherType.

(** The classes that lines 262-295 of [async_setup_entry] pass to
    [_lights_setup_helper], in order. *)
Definition setup_classes (device_type : BulbType)
    (nl_switch_light is_nightlight_supported : bool) : list Class :=
  match device_type with
  | White => [YeelightGenericLight]
  | Color =>
      if nl_switch_light && is_nightlight_supported then
        [ YeelightColorLightWithNightlightSwitch;
          YeelightNightLightModeWithoutBrightnessControl ]
      else [YeelightColorLightWithoutNightlightSwitch]
  | WhiteTemp =>
      if nl_switch_light && is_nightlight_supported then
        [YeelightWithNightLight; YeelightNightLightMode]
      else [YeelightWhiteTempWithoutNightlightSwitch]
  | WhiteTempMood =>
      (if nl_switch_light && is_nightlight_supported then
         [ YeelightNightLightModeWithAmbientSupport;
           YeelightWithAmbientAndNightlight ]
       else [YeelightWithAmbientWithoutNightlight])
      ++ [YeelightAmbientLight]
  | OtherType => [YeelightGenericLight]
  end.

(** The light [klass(device, config_entry, custom_effects=custom_effects)],
    lines 387-405, of a device whose bulb shows [properties].  The bounds
    that [__init__] computes from the model specs of the bulb are not part of
    the state of a light here. *)
Definition new_light (c : Class) (properties : option (gmap string (option string)))
    (nightlight : bool) (effects : list (string * CustomEffect)) : Light :=
  {| klass := c;
     last_properties := properties;
     is_nightlight_enabled := nightlight;
     _effect := None;
     custom_effects := effects;
     commands := [] |}.

(** [async_setup_entry], lines 250-298: the lights handed to
    [async_add_entities], for the effects config and the device found in
    [hass.data].  The custom effects are parsed first, line 254, and what
    the parser raises leaves the function before any light is built; then
    [_lights_setup_helper] builds a light of each class in turn, all from
    the same device and custom effects. *)
Definition async_setup_entry (Flow_actions : gmap string Z)
    (yeelight_transition : string → list Z → Error + Transition)
    (effects_config : list EffectConfig) (device_type : BulbType)
    (nl_switch_light is_nightlight_supported : bool)
    (properties : option (gmap string (option string))) (nightlight : bool)
  : Error + list Light :=
  match _parse_custom_effects Flow_actions yeelight_transition effects_config with
  | inl e => inl e
  | inr custom_effects =>
      inr ((λ klass, new_light klass properties nightlight custom_effects)
           <$> setup_classes device_type nl_switch_light is_nightlight_supported)
  end.

End Yeelight.

(** ** Example lights *)

Module YeelightExamples.
Import Yeelight.

(** [int] on the decimal strings the examples use. *)
Definition int (text : string) : option Z :=
  if bool_decide (text = "1") then Some 1%Z
  else if bool_decide (text = "2") then Some 2%Z
  else if bool_decide (text = "16711935") then Some 16711935%Z
  else None.

(** A bulb that accepts every call, and one that rejects every call. *)
Definition accepts (before : list BulbCommand) (command : BulbCommand) : option Error :=
  None.

Definition rejects (before : list BulbCommand) (command : BulbCommand) : option Error :=
  Some BulbException.

(** A colour bulb that is on, in RGB mode, showing magenta (0xFF00FF). *)
Definition magenta : gmap string (option string) :=
  {[ "power" := Some "on"; "color_mode" := Some "1"; "rgb" := Some "16711935";
     "bg_power" := Some "off" ]}.

Definition color_light : Light :=
  new_light YeelightColorLightWithoutNightlightSwitch (Some magenta) false [].

Definition party : CustomEffect :=
  {| count := 0; action := 0; transitions := [] |}.

End YeelightExamples.

#[export] Existing Instance Yeelight.Class_eq_dec.
#[export] Existing Instance Yeelight.ColorMode_eq_dec.

#[export] Instance Yeelight_LightType_eq_dec : EqDecision Yeelight.LightType.
Proof. solve_decision. Defined.

#[export] Instance Yeelight_BulbType_eq_dec : EqDecision Yeelight.BulbType.
Proof. solve_decision. Defined.

(** The main lights among the lights that [async_setup_entry] adds for a
    device whose bulb shows [properties], once the custom effects are
    parsed. *)
Definition yeelight_main_lights (device_type : Yeelight.BulbType)
    (nl_switch_light is_nightlight_supported : bool)
    (properties : option (gmap string (option string))) (night : bool)
    (effects : list (string * Yeelight.CustomEffect)) : list Yeelight.Light :=
  (λ c, Yeelight.new_light c properties night effects)
  <$> filter (λ c, Yeelight.light_type c = Yeelight.Main)
        (Yeelight.setup_classes device_type nl_switch_light
           is_nightlight_supported).

(** The custom effect that [_parse_custom_effects] builds from a config. *)
Definition yeelight_built_from (Flow_actions : gmap string Z)
    (yeelight_transition : string → list Z → Yeelight.Error + Yeelight.Transition)
    (config : Yeelight.EffectConfig) (effect : Yeelight.CustomEffect) : Prop :=
  ∃ act objects,
    Flow_actions !! Yeelight.attr_action config = Some act
    ∧ Yeelight._transitions_config_parser yeelight_transition
        (Yeelight.attr_transitions config)
      = inr objects
    ∧ effect = {| Yeelight.count := Yeelight.attr_count config;
                  Yeelight.action := act;
                  Yeelight.transitions := objects |}.

(** Two configured effects with the same name, with stand-ins for
    [Flow.actions] and for the transition classes of the [yeelight]
    package. *)
Definition yeelight_actions : gmap string Z :=
  {[ "recover" := 0%Z; "stay" := 1%Z; "off" := 2%Z ]}.

Definition yeelight_new_transition (name : string) (parameters : list Z)
  : Yeelight.Error + Yeelight.Transition :=
  if decide (name ∈ ["RGBTransition"; "HSVTransition"; "TemperatureTransition";
                     "SleepTransition"])
  then inr {| Yeelight.transition := name; Yeelight.params := parameters |}
  else inl Yeelight.AttributeError.

Definition yeelight_effects_config : list Yeelight.EffectConfig :=
  [ {| Yeelight.conf_name := "party"; Yeelight.attr_count := 2;
       Yeelight.attr_action := "recover";
       Yeelight.attr_transitions := [[("RGBTransition", [255; 0; 0]%Z)]] |};
    {| Yeelight.conf_name := "calm"; Yeelight.attr_count := 0;
       Yeelight.attr_action := "stay";
       Yeelight.attr_transitions := [[("TemperatureTransition", [1900; 1000; 80]%Z)]] |};
    {| Yeelight.conf_name := "party"; Yeelight.attr_count := 5;
       Yeelight.attr_action := "off";
       Yeelight.attr_transitions := [] |} ].

Definition yeelight_effects : list (string * Yeelight.CustomEffect) :=
  [ ("party",
     {| Yeelight.count := 5; Yeelight.action := 2; Yeelight.transitions := [] |});
    ("calm",
     {| Yeelight.count := 0; Yeelight.action := 1;
        Yeelight.transitions :=
          [ {| Yeelight.transition := "TemperatureTransition";
               Yeelight.params := [1900; 1000; 80]%Z |} ] |}) ].

(** * The Ezviz sensor platform (homeassistant/components/ezviz/sensor.py) *)

Module Ezviz.

Inductive Error :=
| KeyError (key : string)
| IndexError.

(** [camera.get(key)] on a camera of [coordinator.data], a dict given by its
    items in order; the value may be [VNone]. *)
Definition dict_get (camera : list (string * Value)) (key : string) : option Value :=
  (λ found, snd (snd found)) <$> list_find (λ item, fst item = key) camera.

(** [camera[key]] *)
Definition dict_getitem (camera : list (string * Value)) (key : string)
  : Error + Value :=
  match dict_get camera key with
  | Some v => inr v
  | None => inl (KeyError key)
  end.

Record EzvizSensor := {
  _idx : nat;
  _camera_name : Value;
  _name : string;
  _sensor_name : string;
  sensor_type_name : string;
  _serial : Value
}.

Section Sensor.

(** [SensorType.__members__] of [pyezviz.constants], each member name with
    the member's value, and the text that an f-string puts for a value. *)
Variable SensorType : gmap string string.
Variable str : Value → string.

(** [EzvizSensor.__init__], lines 47-62. *)
Definition __init__ (data : list (list (string * Value))) (idx : nat)
    (name type_name : string) : Error + EzvizSensor :=
  match data !! idx with
  | None => inl IndexError
  | Some camera =>
      match dict_getitem camera "name" with
      | inl e => inl e
      | inr camera_name =>
          match dict_getitem camera "serial" with
          | inl e => inl e
          | inr serial =>
              inr {| _idx := idx;
                     _camera_name := camera_name;
                     _name := name;
                     _sensor_name :=
                       String.append (str camera_name) (String.append "." name);
                     sensor_type_name := type_name;
                     _serial := serial |}
          end
      end
  end.

(** [unique_id], lines 74-77. *)
Definition unique_id (sensor : EzvizSensor) : string :=
  String.append (str (_serial sensor)) (String.append "_" (_sensor_name sensor)).

(** [native_value], lines 69-72. *)
Definition native_value (data : list (list (string * Value))) (sensor : EzvizSensor)
  : Error + Value :=
  match data !! _idx sensor with
  | None => inl IndexError
  | Some camera => dict_getitem camera (_name sensor)
  end.

(** [device_class], lines 90-93. *)
Definition device_class (sensor : EzvizSensor) : string :=
  sensor_type_name sensor.

(** The inner loop of [async_setup_entry], lines 30-37, over the keys of one
    camera. *)
Fixpoint camera_sensors (data : list (list (string * Value))) (idx : nat)
    (camera : list (string * Value)) (names : list string)
    (sensors : list EzvizSensor) : Error + list EzvizSensor :=
  match names with
  | [] => inr sensors
  | name :: rest =>
      match dict_get camera name with
      | None | Some VNone => camera_sensors data idx camera rest sensors
      | Some _ =>
          match SensorType !! name with
          | None => camera_sensors data idx camera rest sensors
          | Some type_name =>
              match __init__ data idx name type_name with
              | inl e => inl e
              | inr sensor =>
                  camera_sensors data idx camera rest (sensors ++ [sensor])
              end
          end
      end
  end.

(** The outer loop, line 29, from index [idx] on. *)
Fixpoint setup_cameras (data : list (list (string * Value))) (idx : nat)
    (cameras : list (list (string * Value))) (sensors : list EzvizSensor)
  : Error + list EzvizSensor :=
  match cameras with
  | [] => inr sensors
  | camera :: rest =>
      match camera_sensors data idx camera camera.*1 sensors with
      | inl e => inl e
      | inr sensors' => setup_cameras data (S idx) rest sensors'
      end
  end.

(** [async_setup_entry], lines 20-39: the sensors handed to
    [async_add_entities], for the [coordinator.data] found in [hass.data]. *)
Definition async_setup_entry (data : list (list (string * Value)))
  : Error + list EzvizSensor :=
  setup_cameras data 0 data [].

(** The sensor stands for a key of its camera that has a value and is a
    member of [SensorType], and its fields are the ones [__init__] reads
    from that camera. *)
Definition sensor_of (data : list (list (string * Value))) (sensor : EzvizSensor)
  : Prop :=
  ∃ camera value,
    data !! _idx sensor = Some camera
    ∧ dict_get camera (_name sensor) = Some value
    ∧ value ≠ VNone
    ∧ SensorType !! _name sensor = Some (sensor_type_name sensor)
    ∧ dict_get camera "name" = Some (_camera_name sensor)
    ∧ dict_get camera "serial" = Some (_serial sensor)
    ∧ _sensor_name sensor
      = String.append (str (_camera_name sensor)) (String.append "." (_name sensor)).

End Sensor.

End Ezviz.

(** Two cameras: the first has a battery level and no motion trigger, the
    second has neither name nor sensor values. *)
Definition ezviz_sensor_types : gmap string string :=
  {[ "battery_level" := "battery"; "alarm_sound_mod" := "None";
     "PIR_Status" := "motion" ]}.

Definition ezviz_str (v : Value) : string :=
  match v with
  | VStr s => s
  | _ => "?"
  end.

Definition ezviz_data : list (list (string * Value)) :=
  [ [ ("serial", VStr "D123"); ("name", VStr "porch"); ("battery_level", VInt 80);
      ("PIR_Status", VNone); ("local_ip", VStr "10.0.0.7") ];
    [ ("serial", VStr "D456"); ("battery_level", VNone) ] ].

(** Why [async_setup_entry] of Ezviz can fail: a camera that would get a
    sensor has no [name], or has a [name] and no [serial]. *)
Definition ezviz_setup_failure (SensorType : gmap string string)
    (data : list (list (string * Value))) (e : Ezviz.Error) : Prop :=
  ∃ camera name value,
    camera ∈ data
    ∧ Ezviz.dict_get camera name = Some value
    ∧ value ≠ VNone
    ∧ is_Some (SensorType !! name)
    ∧ ((e = Ezviz.KeyError "name" ∧ Ezviz.dict_get camera "name" = None)
       ∨ (e = Ezviz.KeyError "serial" ∧ Ezviz.dict_get camera "serial" = None)).

(** * Properties *)

(** ** Running the monad *)

Lemma bind_run {A B} (m : M A) (f : A → M B) (w : World) :
  (m ≫= f) w =
  match m w with
  | (Ok a, w') => f a w'
  | (Raise e, w') => (Raise e, w')
  end.
Proof. reflexivity. Qed.

Lemma msg_getitem_run (key : string) (w : World) :
  msg_getitem key w =
  match msg w !! key with
  | Some v => (Ok v, w)
  | None => (Raise (KeyError key), w)
  end.
Proof.
  unfold msg_getitem. rewrite bind_run. cbn.
  destruct (msg w !! key); reflexivity.
Qed.

Lemma msg_pop_run (key : string) (w : World) :
  msg_pop key w =
  match msg w !! key with
  | Some v => (Ok v, set_msg (delete key (msg w)) w)
  | None => (Raise (KeyError key), w)
  end.
Proof.
  unfold msg_pop. rewrite bind_run. cbn.
  destruct (msg w !! key); reflexivity.
Qed.

(** ** The decorators *)

Lemma async_response_run (exc : gmap string Value → Exn → Exn + Sent)
    (func : M unit) (w : World) :
  async_response exc func w =
  match func w with
  | (Ok a, w') => (Ok a, w')
  | (Raise err, w') =>
      match exc (msg w') err with
      | inl e => (Raise e, w')
      | inr message =>
          (Ok tt, set_connection_sent (connection_sent w' ++ [message]) w')
      end
  end.
Proof.
  unfold async_response, async_handle_exception.
  destruct (func w) as [[a|err] w']; [done|].
  rewrite bind_run. unfold gets. cbv beta iota.
  by destruct (exc (msg w') err).
Qed.

(** The decorator touches the outbox of the connection and nothing else. *)
Lemma async_response_keeps (exc : gmap string Value → Exn → Exn + Sent)
    (func : M unit) (w : World) :
  hass_data_energy_platforms (async_response exc func w).2
    = hass_data_energy_platforms (func w).2
  ∧ trace (async_response exc func w).2 = trace (func w).2
  ∧ manager_data (async_response exc func w).2 = manager_data (func w).2
  ∧ msg (async_response exc func w).2 = msg (func w).2.
Proof.
  rewrite async_response_run.
  destruct (func w) as [[a|err] w']; [done|].
  by destruct (exc (msg w') err).
Qed.

(** ** Reading preferences *)

(** C7: with the request id in the message, [ws_get_prefs] sends exactly one
    reply and changes nothing but the connection's outbox; the reply is the
    stored document when there is one, and it is the [not_found] error if and
    only if [manager.data] is [None]. *)
Theorem ws_get_prefs_reply (w : World) (msg_id : Value) :
  msg w !! "id" = Some msg_id →
  ∃ reply,
    ws_get_prefs w
      = (Ok tt, set_connection_sent (connection_sent w ++ [reply]) w)
    ∧ (∀ prefs, manager_data w = Some prefs →
         reply = SendResult msg_id (PPrefs (Some prefs)))
    ∧ (reply = SendError msg_id ERR_NOT_FOUND "No prefs" ↔ manager_data w = None).
Proof.
  intros Hid. unfold ws_get_prefs. rewrite bind_run. cbn.
  destruct (manager_data w) as [prefs|] eqn:Hdata.
  - exists (SendResult msg_id (PPrefs (Some prefs))).
    rewrite bind_run, msg_getitem_run, Hid. cbn.
    split; [reflexivity|]. split.
    + intros p [= <-]. reflexivity.
    + split; discriminate.
  - exists (SendError msg_id ERR_NOT_FOUND "No prefs").
    rewrite bind_run, msg_getitem_run, Hid. cbn.
    split; [reflexivity|]. split.
    + discriminate.
    + split; reflexivity.
Qed.

Lemma ws_get_prefs_reply_witness :
  ∃ reply,
    ws_get_prefs (configured_world "energy/get_prefs")
      = (Ok tt,
         set_connection_sent
           (connection_sent (configured_world "energy/get_prefs") ++ [reply])
           (configured_world "energy/get_prefs"))
    ∧ (∀ prefs, manager_data (configured_world "energy/get_prefs") = Some prefs →
         reply = SendResult (VInt 1) (PPrefs (Some prefs)))
    ∧ (reply = SendError (VInt 1) ERR_NOT_FOUND "No prefs"
       ↔ manager_data (configured_world "energy/get_prefs") = None).
Proof.
  apply (ws_get_prefs_reply (configured_world "energy/get_prefs") (VInt 1)).
  reflexivity.
Defined.

(** Before any save, the reply is the [not_found] error. *)
Example ws_get_prefs_before_save :
  ws_get_prefs (blank_world "energy/get_prefs")
  = (Ok tt,
     set_connection_sent [SendError (VInt 1) "not_found" "No prefs"]
       (blank_world "energy/get_prefs")).
Proof. reflexivity. Qed.

(** ** Info *)

(** C8, as amended: with the request id in the message, [ws_info] sends the
    value stored under [hass.data["energy"]] as a success result when that key
    is in [hass.data]; when the key was never set, the lookup raises
    [KeyError] and nothing is sent. *)
Theorem ws_info_reply (w : World) (msg_id : Value) :
  msg w !! "id" = Some msg_id →
  match hass_data_energy w with
  | Some v =>
      ws_info w
        = (Ok tt,
           set_connection_sent (connection_sent w ++ [SendResult msg_id (PValue v)]) w)
  | None => ws_info w = (Raise (KeyError DOMAIN), w)
  end.
Proof.
  intros Hid. unfold ws_info.
  rewrite bind_run, msg_getitem_run, Hid, bind_run. cbn.
  destruct (hass_data_energy w); reflexivity.
Qed.

Lemma ws_info_reply_witness :
  ws_info (configured_world "energy/info")
  = (Ok tt,
     set_connection_sent
       [SendResult (VInt 1) (PValue (VDict [("cost_sensors", VDict [])]))]
       (configured_world "energy/info")).
Proof.
  apply (ws_info_reply (configured_world "energy/info") (VInt 1)).
  reflexivity.
Defined.

(** C8, as stated, fails: in a process where [hass.data["energy"]] was never
    initialised, [ws_info] does not send a success result. *)
Lemma ws_info_uninitialised_fails :
  ¬ succeeds ws_info (blank_world "energy/info").
Proof.
  intros (msg_id & result & w' & Hrun & _).
  pose proof (ws_info_reply (blank_world "energy/info") (VInt 1) eq_refl) as H.
  cbn in H. rewrite H in Hrun. discriminate Hrun.
Qed.

(** ** Saving preferences *)

(** C6: a save request of a caller that is not an admin is rejected with
    [PermissionDenied] and leaves the whole state as it was: the stored
    preferences are unchanged and no call of the manager's update is
    recorded. *)
Theorem ws_save_prefs_non_admin
    (upd : gmap string Value → option EnergyPreferences → Exn + option EnergyPreferences)
    (exc : gmap string Value → Exn → Exn + Sent)
    (w : World) :
  is_admin (connection_user w) = false →
  ws_save_prefs_command upd exc w = (Raise PermissionDenied, w)
  ∧ manager_data (ws_save_prefs_command upd exc w).2 = manager_data w
  ∧ trace (ws_save_prefs_command upd exc w).2 = trace w.
Proof.
  intros Hadmin.
  assert (ws_save_prefs_command upd exc w = (Raise PermissionDenied, w)) as Hrun.
  { unfold ws_save_prefs_command, require_admin.
    rewrite bind_run. cbn. rewrite Hadmin. reflexivity. }
  rewrite Hrun. auto.
Qed.

Lemma ws_save_prefs_non_admin_witness :
  ws_save_prefs_command store_update report_error (save_world false)
    = (Raise PermissionDenied, save_world false)
  ∧ manager_data (ws_save_prefs_command store_update report_error (save_world false)).2
    = None
  ∧ trace (ws_save_prefs_command store_update report_error (save_world false)).2 = [].
Proof.
  apply (ws_save_prefs_non_admin store_update report_error (save_world false)).
  reflexivity.
Defined.

Lemma validates_required (schema : Schema) (m : gmap string Value)
    (key : string) (check : Value → bool) :
  validates schema m = true →
  (Required key, check) ∈ schema →
  ∃ v, m !! key = Some v ∧ check v = true.
Proof.
  unfold validates. intros [Hmarkers _]%andb_true_iff Hin.
  rewrite forallb_forall in Hmarkers.
  specialize (Hmarkers _ (proj1 (list_elem_of_In _ _) Hin)).
  unfold check_marker in Hmarkers. cbn in Hmarkers.
  destruct (m !! key) as [v|]; [eauto | discriminate].
Qed.

Lemma validates_keys (schema : Schema) (m : gmap string Value) (key : string) :
  validates schema m = true →
  is_Some (m !! key) →
  key ∈ (marker_key ∘ fst) <$> schema.
Proof.
  unfold validates. intros [_ Hkeys]%andb_true_iff [v Hv].
  rewrite forallb_forall in Hkeys.
  apply elem_of_map_to_list, list_elem_of_In in Hv.
  specialize (Hkeys _ Hv). cbn in Hkeys.
  by apply bool_decide_eq_true in Hkeys.
Qed.

(** Dropping an [Optional] key keeps a dict valid. *)
Lemma validates_delete_optional (schema : Schema) (m : gmap string Value)
    (key : string) :
  (∀ entry, entry ∈ schema → marker_key (fst entry) = key → fst entry = Optional key) →
  validates schema m = true →
  validates schema (delete key m) = true.
Proof.
  unfold validates. intros Hopt [Hmarkers Hkeys]%andb_true_iff.
  rewrite forallb_forall in Hmarkers. rewrite forallb_forall in Hkeys.
  apply andb_true_iff. split; apply forallb_forall.
  - intros entry Hin. specialize (Hmarkers _ Hin).
    apply list_elem_of_In in Hin.
    unfold check_marker in *.
    destruct (decide (marker_key (fst entry) = key)) as [Heq|Hne].
    + rewrite (Hopt _ Hin Heq). cbn. by rewrite lookup_delete_eq.
    + rewrite lookup_delete_ne by done. exact Hmarkers.
  - intros [k v] Hin. apply Hkeys.
    apply list_elem_of_In. apply list_elem_of_In in Hin.
    apply elem_of_map_to_list. apply elem_of_map_to_list in Hin.
    apply lookup_delete_Some in Hin. tauto.
Qed.

Lemma ws_save_prefs_run
    (upd : gmap string Value → option EnergyPreferences → Exn + option EnergyPreferences)
    (w : World) (msg_id type_value : Value) :
  msg w !! "id" = Some msg_id →
  msg w !! "type" = Some type_value →
  let update := delete "type" (delete "id" (msg w)) in
  let called := set_trace (trace w ++ [EvUpdate update]) (set_msg update w) in
  ws_save_prefs upd w =
  match upd update (manager_data w) with
  | inl e => (Raise e, called)
  | inr data' =>
      (Ok tt,
       set_connection_sent (connection_sent w ++ [SendResult msg_id (PPrefs data')])
         (set_manager_data data' called))
  end.
Proof.
  intros Hid Htype. cbn zeta. unfold ws_save_prefs.
  rewrite bind_run, msg_pop_run, Hid.
  rewrite bind_run, msg_pop_run. cbn [msg set_msg].
  rewrite lookup_delete_ne by done. rewrite Htype.
  unfold async_update, log, gets, modify, raise, send_result.
  unfold mbind, M_bind, mret, M_ret. cbn.
  destruct (upd _ _); reflexivity.
Qed.

Lemma ws_save_prefs_command_admin
    (upd : gmap string Value → option EnergyPreferences → Exn + option EnergyPreferences)
    (exc : gmap string Value → Exn → Exn + Sent)
    (w : World) :
  is_admin (connection_user w) = true →
  ws_save_prefs_command upd exc w = async_response exc (ws_save_prefs upd) w.
Proof.
  intros Hadmin. unfold ws_save_prefs_command, require_admin, _ws_with_manager.
  rewrite bind_run. cbn. by rewrite Hadmin.
Qed.

(** C10: for an admin's validated save request, the dict handed to the
    manager's update is the request with exactly the keys [id] and [type]
    removed, and it is the request dict itself, which the handler has changed
    in place.  [energy_sources] and [device_consumption] reach the update as
    they are in the request, nothing else does, and the schema accepts a
    request without either of them. *)
Theorem ws_save_prefs_update_payload
    (SRC DEV : Value → bool)
    (upd : gmap string Value → option EnergyPreferences → Exn + option EnergyPreferences)
    (exc : gmap string Value → Exn → Exn + Sent)
    (w : World) :
  is_admin (connection_user w) = true →
  validates (websocket_command (ws_save_prefs_schema SRC DEV)) (msg w) = true →
  let update := delete "type" (delete "id" (msg w)) in
  let w' := (ws_save_prefs_command upd exc w).2 in
  trace w' = trace w ++ [EvUpdate update]
  ∧ msg w' = update
  ∧ update !! "energy_sources" = msg w !! "energy_sources"
  ∧ update !! "device_consumption" = msg w !! "device_consumption"
  ∧ (∀ key, is_Some (update !! key) →
       key = "energy_sources" ∨ key = "device_consumption")
  ∧ validates (websocket_command (ws_save_prefs_schema SRC DEV))
      (delete "energy_sources" (msg w)) = true
  ∧ validates (websocket_command (ws_save_prefs_schema SRC DEV))
      (delete "device_consumption" (msg w)) = true.
Proof.
  intros Hadmin Hvalid. cbn zeta.
  destruct (validates_required _ _ "id" positive_int Hvalid) as (msg_id & Hid & _).
  { unfold websocket_command. set_solver. }
  destruct (validates_required _ _ "type" (literal "energy/save_prefs") Hvalid)
    as (type_value & Htype & _).
  { unfold websocket_command, ws_save_prefs_schema. set_solver. }
  destruct (async_response_keeps exc (ws_save_prefs upd) w) as (_ & Htrace & _ & Hmsg).
  rewrite (ws_save_prefs_command_admin upd exc w Hadmin), Htrace, Hmsg.
  rewrite (ws_save_prefs_run upd w msg_id type_value Hid Htype). cbn zeta.
  repeat split.
  - destruct (upd _ _); reflexivity.
  - destruct (upd _ _); reflexivity.
  - by rewrite !lookup_delete_ne.
  - by rewrite !lookup_delete_ne.
  - intros key [v Hv].
    apply lookup_delete_Some in Hv as [Hne1 Hv].
    apply lookup_delete_Some in Hv as [Hne2 Hv].
    pose proof (validates_keys _ _ key Hvalid (mk_is_Some _ _ Hv)) as Hkey.
    cbn in Hkey.
    repeat (apply elem_of_cons in Hkey as [->|Hkey]); try done; auto.
    by apply elem_of_nil in Hkey.
  - apply validates_delete_optional; [|done].
    intros entry Hin Hkey. cbn in Hin.
    repeat (apply elem_of_cons in Hin as [->|Hin]); try done.
    by apply elem_of_nil in Hin.
  - apply validates_delete_optional; [|done].
    intros entry Hin Hkey. cbn in Hin.
    repeat (apply elem_of_cons in Hin as [->|Hin]); try done.
    by apply elem_of_nil in Hin.
Qed.

Lemma ws_save_prefs_update_payload_witness :
  let update := delete "type" (delete "id" save_request) in
  let w' := (ws_save_prefs_command store_update report_error (save_world true)).2 in
  trace w' = trace (save_world true) ++ [EvUpdate update]
  ∧ msg w' = update
  ∧ update !! "energy_sources" = msg (save_world true) !! "energy_sources"
  ∧ update !! "device_consumption" = msg (save_world true) !! "device_consumption"
  ∧ (∀ key, is_Some (update !! key) →
       key = "energy_sources" ∨ key = "device_consumption")
  ∧ validates (websocket_command (ws_save_prefs_schema any_value any_value))
      (delete "energy_sources" (msg (save_world true))) = true
  ∧ validates (websocket_command (ws_save_prefs_schema any_value any_value))
      (delete "device_consumption" (msg (save_world true))) = true.
Proof.
  apply (ws_save_prefs_update_payload any_value any_value store_update report_error
           (save_world true)).
  - reflexivity.
  - vm_compute. reflexivity.
Defined.

(** The admin's request of the example lists [energy_sources] only: the
    update gets that key and nothing else. *)
Example save_request_update :
  trace (ws_save_prefs_command store_update report_error (save_world true)).2
  = [EvUpdate {[ "energy_sources" := VList [] ]}].
Proof. vm_compute. reflexivity. Qed.

(** ** Collecting the candidate entry ids *)

Lemma dict_setitem_elem (key x : string) (keys : list string) :
  x ∈ dict_setitem key keys ↔ x = key ∨ x ∈ keys.
Proof.
  unfold dict_setitem. case_decide.
  - split; [auto | intros [->|]; done].
  - rewrite elem_of_app, list_elem_of_singleton. tauto.
Qed.

Lemma dict_setitem_NoDup (key : string) (keys : list string) :
  NoDup keys → NoDup (dict_setitem key keys).
Proof.
  unfold dict_setitem. case_decide; [done|].
  intros Hnd. apply NoDup_app. split; [done|]. split.
  - intros x Hx ->%list_elem_of_singleton. done.
  - apply NoDup_singleton.
Qed.

Lemma add_config_entries_elem (ids keys : list string) (x : string) :
  x ∈ add_config_entries ids keys ↔ x ∈ ids ∨ x ∈ keys.
Proof.
  revert keys. induction ids as [|id ids IH]; intros keys; cbn.
  - rewrite elem_of_nil. tauto.
  - rewrite IH, dict_setitem_elem, elem_of_cons. tauto.
Qed.

Lemma add_config_entries_NoDup (ids keys : list string) :
  NoDup keys → NoDup (add_config_entries ids keys).
Proof.
  revert keys. induction ids as [|id ids IH]; intros keys Hnd; cbn; [done|].
  apply IH, dict_setitem_NoDup, Hnd.
Qed.

Lemma collect_config_entries_elem (sources : list EnergySource)
    (keys : list string) (x : string) :
  x ∈ collect_config_entries sources keys ↔ x ∈ keys ∨ listed_in sources x.
Proof.
  revert keys. induction sources as [|source sources IH]; intros keys; cbn.
  - split; [auto|]. intros [|(s & ids & Hs & _)]; [done|].
    by apply elem_of_nil in Hs.
  - assert (listed_in (source :: sources) x ↔
            (type source = "solar" ∧ ∃ ids,
               config_entry_solar_forecast source = Some ids ∧ x ∈ ids)
            ∨ listed_in sources x) as ->.
    { split.
      - intros (s & ids & [->|Hs]%elem_of_cons & Hty & Hcfg & Hx).
        + left. eauto.
        + right. exists s, ids. auto.
      - intros [(Hty & ids & Hcfg & Hx)|(s & ids & Hs & Hrest)].
        + exists source, ids. split; [left|]; auto.
        + exists s, ids. split; [by right|]. auto. }
    case_bool_decide as Hty.
    + rewrite IH. split; [tauto|]. intros [|[[]|]]; tauto.
    + destruct (config_entry_solar_forecast source) as [ids|].
      * rewrite IH, add_config_entries_elem. split.
        -- intros [[|]|]; eauto 8.
        -- intros [|[(_ & ids' & [= <-] & Hx)|]]; auto.
      * rewrite IH. split; [tauto|].
        intros [|[(_ & ids' & [=] & _)|]]; auto.
Qed.

Lemma collect_config_entries_NoDup (sources : list EnergySource) (keys : list string) :
  NoDup keys → NoDup (collect_config_entries sources keys).
Proof.
  revert keys. induction sources as [|source sources IH]; intros keys Hnd; cbn; [done|].
  case_bool_decide; [by apply IH|].
  destruct (config_entry_solar_forecast source); [|by apply IH].
  apply IH, add_config_entries_NoDup, Hnd.
Qed.

(** ** Discovery *)

Lemma set_energy_platforms_same (w : World) :
  set_energy_platforms (hass_data_energy_platforms w) w = w.
Proof. by destruct w. Qed.

Lemma _process_energy_platform_run (dom : string) (platform : Platform)
    (registry : gmap string Provider) (w : World) :
  hass_data_energy_platforms w = Some registry →
  _process_energy_platform dom platform w =
  (Ok tt,
   match async_get_solar_forecast platform with
   | Some callback => set_energy_platforms (Some (<[dom := callback]> registry)) w
   | None => w
   end).
Proof.
  intros Hreg. unfold _process_energy_platform.
  destruct (async_get_solar_forecast platform); [|reflexivity].
  run_monad. by rewrite Hreg.
Qed.

Lemma for_each_integration_run (components : list (string * option Platform)) :
  ∀ (registry : gmap string Provider) (w : World),
    hass_data_energy_platforms w = Some registry →
    ∃ registry',
      for_each_integration components _process_energy_platform w
        = (Ok tt, set_energy_platforms (Some registry') w)
      ∧ (∀ dom callback, registry' !! dom = Some callback →
           registry !! dom = Some callback ∨ exposes components dom callback)
      ∧ (∀ dom, is_Some (registry !! dom) → is_Some (registry' !! dom))
      ∧ (∀ dom callback, exposes components dom callback → is_Some (registry' !! dom)).
Proof.
  induction components as [|[dom [platform|]] components IH]; intros registry w Hreg.
  - exists registry. cbn. split; [|split; [|split]].
    + by rewrite <- Hreg, set_energy_platforms_same.
    + auto.
    + auto.
    + intros d cb (p & Hin & _). by apply elem_of_nil in Hin.
  - cbn [for_each_integration]. rewrite bind_run. unfold swallow.
    rewrite (_process_energy_platform_run dom platform registry w Hreg).
    destruct (async_get_solar_forecast platform) as [callback|] eqn:Hcb.
    + destruct (IH (<[dom := callback]> registry)
                  (set_energy_platforms (Some (<[dom := callback]> registry)) w)
                  eq_refl) as (registry' & Hrun & Honly & Hmono & Hall).
      exists registry'. split; [exact Hrun|]. split; [|split].
      * intros d cb Hd. destruct (Honly d cb Hd) as [Hins|(p & Hin & Hp)].
        -- apply lookup_insert_Some in Hins as [[<- <-]|[_ Hold]]; [|by left].
           right. exists platform. split; [left|]; done.
        -- right. exists p. split; [by right|done].
      * intros d Hd. apply Hmono.
        destruct (decide (dom = d)) as [->|Hne].
        -- rewrite lookup_insert_eq. eauto.
        -- by rewrite lookup_insert_ne.
      * intros d cb (p & Hin & Hp). apply elem_of_cons in Hin as [Heq|Hin].
        -- injection Heq as -> ->. apply Hmono. rewrite lookup_insert_eq. eauto.
        -- apply (Hall d cb). by exists p.
    + destruct (IH registry w Hreg) as (registry' & Hrun & Honly & Hmono & Hall).
      exists registry'. split; [exact Hrun|]. split; [|split].
      * intros d cb Hd. destruct (Honly d cb Hd) as [|(p & Hin & Hp)]; [by left|].
        right. exists p. split; [by right|done].
      * exact Hmono.
      * intros d cb (p & Hin & Hp). apply elem_of_cons in Hin as [Heq|Hin].
        -- injection Heq as -> ->. congruence.
        -- apply (Hall d cb). by exists p.
  - cbn [for_each_integration].
    destruct (IH registry w Hreg) as (registry' & Hrun & Honly & Hmono & Hall).
    exists registry'. split; [exact Hrun|]. split; [|split].
    + intros d cb Hd. destruct (Honly d cb Hd) as [|(p & Hin & Hp)]; [by left|].
      right. exists p. split; [by right|done].
    + exact Hmono.
    + intros d cb (p & Hin & Hp). apply elem_of_cons in Hin as [Heq|Hin]; [done|].
      apply (Hall d cb). by exists p.
Qed.

Lemma ensure_platforms_run (w : World) :
  match hass_data_energy_platforms w with
  | Some registry => ensure_platforms w = (Ok registry, w)
  | None =>
      ∃ registry,
        ensure_platforms w
          = (Ok registry,
             set_trace (trace w ++ [EvDiscovery])
               (set_energy_platforms (Some registry) w))
        ∧ (∀ dom callback, registry !! dom = Some callback →
             exposes (hass_components w) dom callback)
        ∧ (∀ dom callback, exposes (hass_components w) dom callback →
             is_Some (registry !! dom))
  end.
Proof.
  unfold ensure_platforms.
  destruct (hass_data_energy_platforms w) as [registry|] eqn:Hreg.
  - run_monad. rewrite Hreg. cbn. rewrite ?Hreg. reflexivity.
  - unfold async_process_integration_platforms.
    destruct (for_each_integration_run (hass_components w) ∅
                (set_trace (trace w ++ [EvDiscovery])
                   (set_energy_platforms (Some ∅) w)) eq_refl)
      as (registry & Hrun & Honly & _ & Hall).
    exists registry. split; [|split].
    + run_monad. rewrite Hreg. cbn. rewrite Hrun. reflexivity.
    + intros d cb Hd. destruct (Honly d cb Hd) as [Hempty|]; [|done].
      by rewrite lookup_empty in Hempty.
    + exact Hall.
Qed.

(** ** The loop over the candidates *)

Lemma world_eq (w1 w2 : World) :
  hass_data_energy w1 = hass_data_energy w2 →
  hass_data_energy_platforms w1 = hass_data_energy_platforms w2 →
  hass_data_rest w1 = hass_data_rest w2 →
  hass_config_entries w1 = hass_config_entries w2 →
  hass_components w1 = hass_components w2 →
  manager_data w1 = manager_data w2 →
  connection_user w1 = connection_user w2 →
  connection_sent w1 = connection_sent w2 →
  msg w1 = msg w2 →
  trace w1 = trace w2 →
  clock w1 = clock w2 →
  w1 = w2.
Proof. destruct w1, w2; cbn; congruence. Qed.

Lemma world_trace_clock_same (w : World) :
  set_clock (clock w) (set_trace (trace w) w) = w.
Proof. by destruct w. Qed.

Lemma loop_step_lookup (prov : string → option Value) (id0 : string)
    (ids : list string) (acc acc' forecasts : gmap string Value) :
  (∀ id, forecasts !! id =
         if decide (id ∈ ids) then
           match prov id with Some f => Some f | None => acc' !! id end
         else acc' !! id) →
  (∀ id, id ≠ id0 → acc' !! id = acc !! id) →
  acc' !! id0 = match prov id0 with Some f => Some f | None => acc !! id0 end →
  ∀ id, forecasts !! id =
        if decide (id ∈ id0 :: ids) then
          match prov id with Some f => Some f | None => acc !! id end
        else acc !! id.
Proof.
  intros Hloop Hother Hhere id. rewrite Hloop.
  destruct (decide (id = id0)) as [->|Hne].
  - rewrite (decide_True (P := id0 ∈ id0 :: ids)) by left.
    rewrite Hhere. case_decide; [|done]. by destruct (prov id0).
  - rewrite (Hother id Hne).
    destruct (decide (id ∈ ids)) as [Hin|Hnin].
    + by rewrite (decide_True (P := id ∈ id0 :: ids)) by by right.
    + rewrite (decide_False (P := id ∈ id0 :: ids)); [done|].
      by intros [?|?]%elem_of_cons.
Qed.

Lemma loop_step_returns (entries : gmap string ConfigEntry)
    (registry : gmap string Provider) (id0 : string) (ids : list string) :
  (∀ callback e, callback_for entries registry id0 = Some callback →
                 outcome (callback id0) ≠ Raises e) →
  (∀ id callback e, id ∈ ids → callback_for entries registry id = Some callback →
                    outcome (callback id) ≠ Raises e) →
  ∀ id callback e, id ∈ id0 :: ids → callback_for entries registry id = Some callback →
                   outcome (callback id) ≠ Raises e.
Proof.
  intros Hhere Hrest id callback e [->|Hin]%elem_of_cons; [apply Hhere|by apply Hrest].
Qed.

Lemma forecast_loop_run (registry : gmap string Provider) (ids : list string) :
  ∀ (acc : gmap string Value) (w : World),
  ∃ (t : list Event) (r : Res (gmap string Value)),
    forecast_loop registry ids acc w
      = (r, set_clock (clock w + sum_list_with (call_time registry) t)
              (set_trace (trace w ++ t) w))
    ∧ awaited_in_turn t
    ∧ discoveries t = 0
    ∧ resolved t `sublist_of` ids
    ∧ called t `sublist_of` ids
    ∧ match r with
      | Ok forecasts =>
          (∀ id, forecasts !! id =
                 if decide (id ∈ ids) then
                   match provided (hass_config_entries w) registry id with
                   | Some f => Some f
                   | None => acc !! id
                   end
                 else acc !! id)
          ∧ (∀ id callback e,
               id ∈ ids →
               callback_for (hass_config_entries w) registry id = Some callback →
               outcome (callback id) ≠ Raises e)
      | Raise e =>
          ∃ id callback,
            id ∈ ids
            ∧ callback_for (hass_config_entries w) registry id = Some callback
            ∧ outcome (callback id) = Raises e
      end.
Proof.
  induction ids as [|id0 ids IH]; intros acc w.
  - exists [], (Ok acc). cbn. split; [|split; [|split; [|split; [|split; [|split]]]]].
    + f_equal. rewrite Nat.add_0_r, app_nil_r. symmetry. apply world_trace_clock_same.
    + constructor.
    + reflexivity.
    + constructor.
    + constructor.
    + intros id. by rewrite decide_False by apply not_elem_of_nil.
    + intros id callback e Hin. by apply elem_of_nil in Hin.
  - cbn [forecast_loop]. unfold async_get_entry, await_forecast. run_monad.
    destruct (hass_config_entries w !! id0) as [entry|] eqn:Hentry;
      [destruct (registry !! domain entry) as [callback|] eqn:Hcb;
       [destruct (outcome (callback id0)) as [[f|]|e] eqn:Hout|]|].
    + (* the callback returns a forecast *)
      edestruct (IH (<[id0 := f]> acc)) as (t & r & Hrun & Hturn & Hdisc & Hres & Hcall & Hr).
      exists (EvGetEntry id0 :: EvCall (domain entry) id0 :: EvDone id0 :: t), r.
      split; [|split; [|split; [|split; [|split]]]].
      * rewrite Hrun. f_equal. same_world_by world_eq.
      * apply turn_skip; [done|]. by apply turn_done.
      * exact Hdisc.
      * cbn. by apply sublist_skip.
      * cbn. by apply sublist_skip.
      * cbn in Hr. destruct r as [forecasts|e]; [destruct Hr as [Hlook Hret]; split|].
        -- apply (loop_step_lookup _ id0 ids acc (<[id0 := f]> acc)); [exact Hlook| |].
           ++ intros id Hne. by rewrite lookup_insert_ne.
           ++ unfold provided, callback_for. rewrite Hentry. cbn. rewrite Hcb. cbn.
              rewrite Hout. by rewrite lookup_insert_eq.
        -- apply loop_step_returns; [|exact Hret].
           unfold callback_for. rewrite Hentry. cbn. rewrite Hcb.
           intros cb e [= <-]. by rewrite Hout.
        -- destruct Hr as (id & cb & Hin & Hrest). exists id, cb. split; [by right|done].
    + (* the callback returns None *)
      edestruct (IH acc) as (t & r & Hrun & Hturn & Hdisc & Hres & Hcall & Hr).
      exists (EvGetEntry id0 :: EvCall (domain entry) id0 :: EvDone id0 :: t), r.
      split; [|split; [|split; [|split; [|split]]]].
      * rewrite Hrun. f_equal. same_world_by world_eq.
      * apply turn_skip; [done|]. by apply turn_done.
      * exact Hdisc.
      * cbn. by apply sublist_skip.
      * cbn. by apply sublist_skip.
      * cbn in Hr. destruct r as [forecasts|e]; [destruct Hr as [Hlook Hret]; split|].
        -- apply (loop_step_lookup _ id0 ids acc acc); [exact Hlook|done|].
           unfold provided, callback_for. rewrite Hentry. cbn. rewrite Hcb. cbn.
           by rewrite Hout.
        -- apply loop_step_returns; [|exact Hret].
           unfold callback_for. rewrite Hentry. cbn. rewrite Hcb.
           intros cb e [= <-]. by rewrite Hout.
        -- destruct Hr as (id & cb & Hin & Hrest). exists id, cb. split; [by right|done].
    + (* the callback raises *)
      exists [EvGetEntry id0; EvCall (domain entry) id0; EvRaised id0], (Raise e).
      split; [|split; [|split; [|split; [|split]]]].
      * f_equal. same_world_by world_eq.
      * apply turn_skip; [done|]. apply turn_raised.
      * reflexivity.
      * cbn. apply sublist_skip, sublist_nil_l.
      * cbn. apply sublist_skip, sublist_nil_l.
      * exists id0, callback. split; [left|]. split; [|done].
        unfold callback_for. rewrite Hentry. cbn. by rewrite Hcb.
    + (* the domain has no callback *)
      edestruct (IH acc) as (t & r & Hrun & Hturn & Hdisc & Hres & Hcall & Hr).
      exists (EvGetEntry id0 :: t), r.
      split; [|split; [|split; [|split; [|split]]]].
      * rewrite Hrun. f_equal. same_world_by world_eq.
      * by apply turn_skip.
      * exact Hdisc.
      * cbn. by apply sublist_skip.
      * cbn. by apply sublist_cons.
      * cbn in Hr. destruct r as [forecasts|e]; [destruct Hr as [Hlook Hret]; split|].
        -- apply (loop_step_lookup _ id0 ids acc acc); [exact Hlook|done|].
           unfold provided, callback_for. rewrite Hentry. cbn. by rewrite Hcb.
        -- apply loop_step_returns; [|exact Hret].
           unfold callback_for. rewrite Hentry. cbn. rewrite Hcb. discriminate.
        -- destruct Hr as (id & cb & Hin & Hrest). exists id, cb. split; [by right|done].
    + (* the entry does not exist *)
      edestruct (IH acc) as (t & r & Hrun & Hturn & Hdisc & Hres & Hcall & Hr).
      exists (EvGetEntry id0 :: t), r.
      split; [|split; [|split; [|split; [|split]]]].
      * rewrite Hrun. f_equal. same_world_by world_eq.
      * by apply turn_skip.
      * exact Hdisc.
      * cbn. by apply sublist_skip.
      * cbn. by apply sublist_cons.
      * cbn in Hr. destruct r as [forecasts|e]; [destruct Hr as [Hlook Hret]; split|].
        -- apply (loop_step_lookup _ id0 ids acc acc); [exact Hlook|done|].
           unfold provided, callback_for. by rewrite Hentry.
        -- apply loop_step_returns; [|exact Hret].
           unfold callback_for. rewrite Hentry. discriminate.
        -- destruct Hr as (id & cb & Hin & Hrest). exists id, cb. split; [by right|done].
Qed.

(** The loop and the reply that follows it, lines 170-184. *)
Lemma forecast_reply_run (registry : gmap string Provider) (ids : list string)
    (w : World) :
  ∃ (t : list Event) (sent : list Sent) (r : Res unit),
    (forecasts ← forecast_loop registry ids ∅;
     msg_id ← msg_getitem "id";
     send_result msg_id (PForecasts forecasts)) w
      = (r, set_connection_sent (connection_sent w ++ sent)
              (set_clock (clock w + sum_list_with (call_time registry) t)
                 (set_trace (trace w ++ t) w)))
    ∧ awaited_in_turn t
    ∧ discoveries t = 0
    ∧ resolved t `sublist_of` ids
    ∧ called t `sublist_of` ids
    ∧ match r with
      | Ok _ =>
          ∃ msg_id forecasts,
            msg w !! "id" = Some msg_id
            ∧ sent = [SendResult msg_id (PForecasts forecasts)]
            ∧ (∀ id, forecasts !! id =
                     if decide (id ∈ ids)
                     then provided (hass_config_entries w) registry id
                     else None)
            ∧ (∀ id callback e,
                 id ∈ ids →
                 callback_for (hass_config_entries w) registry id = Some callback →
                 outcome (callback id) ≠ Raises e)
      | Raise e =>
          sent = []
          ∧ ((e = KeyError "id" ∧ msg w !! "id" = None)
             ∨ ∃ id callback,
                 id ∈ ids
                 ∧ callback_for (hass_config_entries w) registry id = Some callback
                 ∧ outcome (callback id) = Raises e)
      end.
Proof.
  destruct (forecast_loop_run registry ids ∅ w)
    as (t & r & Hrun & Hturn & Hdisc & Hres & Hcall & Hr).
  rewrite bind_run, Hrun.
  destruct r as [forecasts|e].
  - rewrite bind_run, msg_getitem_run. cbn [msg set_clock set_trace].
    destruct Hr as [Hlook Hret].
    destruct (msg w !! "id") as [msg_id|] eqn:Hid.
    + exists t, [SendResult msg_id (PForecasts forecasts)], (Ok tt).
      split; [|split; [|split; [|split; [|split]]]]; try done.
      exists msg_id, forecasts. split; [done|]. split; [done|]. split; [|done].
      intros id. rewrite Hlook, lookup_empty. case_decide; [|done].
      by destruct (provided _ _ _).
    + exists t, [], (Raise (KeyError "id")).
      split; [|split; [|split; [|split; [|split]]]]; try done.
      * f_equal. apply world_eq; try reflexivity.
        cbn. by rewrite app_nil_r.
      * split; [done|]. by left.
  - exists t, [], (Raise e).
    split; [|split; [|split; [|split; [|split]]]]; try done.
    + f_equal. apply world_eq; try reflexivity.
      cbn. by rewrite app_nil_r.
    + split; [done|]. by right.
Qed.

(** ** One forecast request *)

(** What one run of [ws_solar_forecast] does to the state, in full. *)
Lemma ws_solar_forecast_run (w : World) :
  ∃ (platforms : option (gmap string Provider)) (t0 t : list Event)
    (sent : list Sent) (r : Res unit),
    ws_solar_forecast w
      = (r, set_connection_sent (connection_sent w ++ sent)
              (set_clock
                 (clock w + sum_list_with (call_time (default ∅ platforms)) t)
                 (set_trace (trace w ++ t0 ++ t)
                    (set_energy_platforms platforms w))))
    ∧ ((t0 = []
        ∧ platforms = hass_data_energy_platforms w
        ∧ (candidates w = [] → t = [])
        ∧ (candidates w ≠ [] → is_Some platforms))
       ∨ (t0 = [EvDiscovery]
          ∧ hass_data_energy_platforms w = None
          ∧ candidates w ≠ []
          ∧ ∃ registry,
              platforms = Some registry
              ∧ (∀ dom callback, registry !! dom = Some callback →
                   exposes (hass_components w) dom callback)
              ∧ (∀ dom callback, exposes (hass_components w) dom callback →
                   is_Some (registry !! dom))))
    ∧ awaited_in_turn t
    ∧ discoveries t = 0
    ∧ resolved t `sublist_of` candidates w
    ∧ called t `sublist_of` candidates w
    ∧ match r with
      | Ok _ =>
          ∃ msg_id forecasts,
            msg w !! "id" = Some msg_id
            ∧ sent = [SendResult msg_id (PForecasts forecasts)]
            ∧ (∀ id, forecasts !! id =
                     if decide (id ∈ candidates w)
                     then provided (hass_config_entries w) (default ∅ platforms) id
                     else None)
            ∧ (∀ id callback e,
                 id ∈ candidates w →
                 callback_for (hass_config_entries w) (default ∅ platforms) id
                   = Some callback →
                 outcome (callback id) ≠ Raises e)
      | Raise e =>
          sent = []
          ∧ ((e = KeyError "id" ∧ msg w !! "id" = None)
             ∨ ∃ id callback,
                 id ∈ candidates w
                 ∧ callback_for (hass_config_entries w) (default ∅ platforms) id
                     = Some callback
                 ∧ outcome (callback id) = Raises e)
      end.
Proof.
  assert (candidates w = [] →
    ws_solar_forecast w = (msg_id ← msg_getitem "id";
                           send_result msg_id (PForecasts ∅)) w) as Hnone.
  { unfold candidates, ws_solar_forecast. rewrite bind_run. unfold gets at 1.
    cbv beta iota zeta.
    destruct (manager_data w) as [prefs|]; [|done]. by intros ->. }
  destruct (candidates w) as [|id0 ids] eqn:Hids.
  - (* no preferences, or no solar source lists an entry *)
    rewrite Hnone by done. rewrite bind_run, msg_getitem_run.
    exists (hass_data_energy_platforms w), [], [].
    destruct (msg w !! "id") as [msg_id|] eqn:Hid;
      unfold send_result, modify; cbv beta iota.
    + exists [SendResult msg_id (PForecasts ∅)], (Ok tt).
      split; [f_equal; same_world_by world_eq|].
      split; [by left|].
      split; [constructor|]. split; [done|]. split; [constructor|].
      split; [constructor|].
      exists msg_id, ∅. split; [done|]. split; [done|]. split.
      * intros id. by rewrite lookup_empty, decide_False by apply not_elem_of_nil.
      * intros id callback e Hin. by apply elem_of_nil in Hin.
    + exists [], (Raise (KeyError "id")).
      split; [f_equal; same_world_by world_eq|].
      split; [by left|].
      split; [constructor|]. split; [done|]. split; [constructor|].
      split; [constructor|].
      split; [done|]. by left.
  - (* at least one candidate *)
    assert (ws_solar_forecast w =
      (get_forecast_by_domain ← ensure_platforms;
       forecasts ← forecast_loop get_forecast_by_domain (id0 :: ids) ∅;
       msg_id ← msg_getitem "id";
       send_result msg_id (PForecasts forecasts)) w) as ->.
    { unfold candidates in Hids. unfold ws_solar_forecast.
      rewrite bind_run. unfold gets at 1. cbv beta iota zeta.
      destruct (manager_data w) as [prefs|]; [|done]. by rewrite Hids. }
    rewrite bind_run.
    pose proof (ensure_platforms_run w) as Hensure.
    destruct (hass_data_energy_platforms w) as [old|] eqn:Hold.
    + rewrite Hensure.
      destruct (forecast_reply_run old (id0 :: ids) w)
        as (t & sent & r & Hrun & Hturn & Hdisc & Hres & Hcall & Hr).
      exists (Some old), [], t, sent, r.
      split.
      { rewrite Hrun. f_equal. apply world_eq; try reflexivity. by symmetry. }
      split.
      { left. split; [done|]. split; [done|]. split; [done|]. intros _. eauto. }
      done.
    + destruct Hensure as (registry & Hensure & Honly & Hall).
      rewrite Hensure.
      destruct (forecast_reply_run registry (id0 :: ids)
                  (set_trace (trace w ++ [EvDiscovery])
                     (set_energy_platforms (Some registry) w)))
        as (t & sent & r & Hrun & Hturn & Hdisc & Hres & Hcall & Hr).
      exists (Some registry), [EvDiscovery], t, sent, r.
      split.
      { rewrite Hrun. f_equal. apply world_eq; try reflexivity.
        cbn. by rewrite <- app_assoc. }
      split.
      { right. split; [done|]. split; [done|]. split; [done|]. by exists registry. }
      done.
Qed.

Lemma candidates_listed (w : World) (id : string) :
  id ∈ candidates w ↔ listed w id.
Proof.
  unfold candidates, listed. destruct (manager_data w) as [prefs|].
  - rewrite collect_config_entries_elem. split.
    + intros [Hin|Hin]; [by apply elem_of_nil in Hin|eauto].
    + intros (p & [= <-] & Hin). by right.
  - split; [by intros ?%elem_of_nil|]. by intros (p & [=] & _).
Qed.

Lemma candidates_NoDup (w : World) : NoDup (candidates w).
Proof.
  unfold candidates. destruct (manager_data w); [|constructor].
  apply collect_config_entries_NoDup. constructor.
Qed.

Lemma callback_for_Some (entries : gmap string ConfigEntry)
    (registry : gmap string Provider) (id : string) (callback : Provider) :
  callback_for entries registry id = Some callback ↔
  ∃ entry, entries !! id = Some entry ∧ registry !! domain entry = Some callback.
Proof.
  unfold callback_for. destruct (entries !! id) as [entry|]; cbn.
  - split; [eauto|]. by intros (e & [= <-] & H).
  - split; [done|]. by intros (e & [=] & _).
Qed.

Lemma provided_Some (entries : gmap string ConfigEntry)
    (registry : gmap string Provider) (id : string) (f : Value) :
  provided entries registry id = Some f ↔
  ∃ entry callback,
    entries !! id = Some entry
    ∧ registry !! domain entry = Some callback
    ∧ outcome (callback id) = Returns (Some f).
Proof.
  unfold provided.
  destruct (callback_for entries registry id) as [callback|] eqn:Hcb; cbn.
  - apply callback_for_Some in Hcb as (entry & Hentry & Hcb). split.
    + intros Hout. exists entry, callback. split; [done|]. split; [done|].
      destruct (outcome (callback id)) as [o|]; [by subst|done].
    + intros (entry' & callback' & Hentry' & Hcb' & Hout).
      assert (entry' = entry) as -> by congruence.
      assert (callback' = callback) as -> by congruence.
      by rewrite Hout.
  - split; [done|]. intros (entry & callback & Hentry & Hreg & _).
    assert (callback_for entries registry id = Some callback) as Hsome
      by (apply callback_for_Some; eauto).
    congruence.
Qed.

Lemma ws_solar_forecast_unfold (w : World) :
  ws_solar_forecast w
  = match candidates w with
    | [] => (msg_id ← msg_getitem "id"; send_result msg_id (PForecasts ∅)) w
    | _ :: _ =>
        (get_forecast_by_domain ← ensure_platforms;
         forecasts ← forecast_loop get_forecast_by_domain (candidates w) ∅;
         msg_id ← msg_getitem "id";
         send_result msg_id (PForecasts forecasts)) w
    end.
Proof.
  unfold candidates, ws_solar_forecast. rewrite bind_run. unfold gets at 1.
  cbv beta iota zeta.
  destruct (manager_data w) as [prefs|]; [|done].
  by destruct (collect_config_entries (energy_sources prefs) []).
Qed.

(** ** The registry and the outcome, read off the request state *)

Lemma for_each_integration_discovered (components : list (string * option Platform)) :
  ∀ (registry : gmap string Provider) (w : World),
    hass_data_energy_platforms w = Some registry →
    for_each_integration components _process_energy_platform w
    = (Ok tt, set_energy_platforms (Some (discovered components registry)) w).
Proof.
  induction components as [|[dom [platform|]] components IH]; intros registry w Hreg.
  - cbn. by rewrite <- Hreg, set_energy_platforms_same.
  - cbn [for_each_integration]. rewrite bind_run. unfold swallow.
    rewrite (_process_energy_platform_run dom platform registry w Hreg).
    unfold discovered. cbn [foldl fst snd].
    destruct (async_get_solar_forecast platform) as [callback|].
    + exact (IH (<[dom := callback]> registry)
               (set_energy_platforms (Some (<[dom := callback]> registry)) w) eq_refl).
    + exact (IH registry w Hreg).
  - exact (IH registry w Hreg).
Qed.

Lemma ensure_platforms_discovered (w : World) :
  ensure_platforms w
  = (Ok (registry_for w),
     match hass_data_energy_platforms w with
     | Some _ => w
     | None =>
         set_trace (trace w ++ [EvDiscovery])
           (set_energy_platforms (Some (registry_for w)) w)
     end).
Proof.
  unfold ensure_platforms, registry_for.
  destruct (hass_data_energy_platforms w) as [registry|] eqn:Hreg.
  - run_monad. rewrite Hreg. cbn. rewrite ?Hreg. reflexivity.
  - unfold async_process_integration_platforms.
    pose proof (for_each_integration_discovered (hass_components w) ∅
                  (set_trace (trace w ++ [EvDiscovery])
                     (set_energy_platforms (Some ∅) w)) eq_refl) as Hrun.
    run_monad. rewrite Hreg. cbn. rewrite Hrun. reflexivity.
Qed.

Lemma discovered_exposes (components : list (string * option Platform)) :
  ∀ (registry : gmap string Provider) (dom : string) (callback : Provider),
    discovered components registry !! dom = Some callback →
    registry !! dom = Some callback ∨ exposes components dom callback.
Proof.
  induction components as [|[d [platform|]] components IH];
    intros registry dom callback; unfold discovered; cbn [foldl fst snd].
  - by left.
  - destruct (async_get_solar_forecast platform) as [cb|] eqn:Hcb; intros Hfound.
    + destruct (IH _ _ _ Hfound) as [Hins|(p & Hin & Hp)].
      * apply lookup_insert_Some in Hins as [[<- <-]|[_ Hold]]; [|by left].
        right. exists platform. split; [left|]; done.
      * right. exists p. split; [by right|done].
    + destruct (IH _ _ _ Hfound) as [|(p & Hin & Hp)]; [by left|].
      right. exists p. split; [by right|done].
  - intros Hfound. destruct (IH _ _ _ Hfound) as [|(p & Hin & Hp)]; [by left|].
    right. exists p. split; [by right|done].
Qed.

Lemma registry_for_registered (w : World) (dom : string) (callback : Provider) :
  registry_for w !! dom = Some callback → registered w dom callback.
Proof.
  unfold registry_for, registered.
  destruct (hass_data_energy_platforms w) as [registry|]; [done|].
  intros Hfound. destruct (discovered_exposes _ _ _ _ Hfound) as [Hempty|]; [|done].
  by rewrite lookup_empty in Hempty.
Qed.

Lemma first_raised_None (entries : gmap string ConfigEntry)
    (registry : gmap string Provider) (ids : list string) :
  first_raised entries registry ids = None ↔
  ∀ id callback e,
    id ∈ ids →
    callback_for entries registry id = Some callback →
    outcome (callback id) ≠ Raises e.
Proof.
  induction ids as [|id0 ids IH]; cbn [first_raised].
  - split; [|done]. intros _ id callback e Hin. by apply elem_of_nil in Hin.
  - destruct (callback_for entries registry id0) as [callback0|] eqn:Hcb.
    + destruct (outcome (callback0 id0)) as [f|e0] eqn:Hout.
      * rewrite IH. split.
        -- intros H id callback e [->|Hin]%elem_of_cons Hc; [|by eapply H].
           assert (callback = callback0) as -> by congruence. congruence.
        -- intros H id callback e Hin. apply H. by right.
      * split; [done|]. intros H. exfalso.
        by apply (H id0 callback0 e0); [left| |].
    + rewrite IH. split.
      * intros H id callback e [->|Hin]%elem_of_cons Hc; [congruence|by eapply H].
      * intros H id callback e Hin. apply H. by right.
Qed.

Lemma first_raised_Some (entries : gmap string ConfigEntry)
    (registry : gmap string Provider) (ids : list string) (e : Exn) :
  first_raised entries registry ids = Some e →
  ∃ id callback,
    id ∈ ids
    ∧ callback_for entries registry id = Some callback
    ∧ outcome (callback id) = Raises e.
Proof.
  induction ids as [|id0 ids IH]; cbn [first_raised]; [done|].
  destruct (callback_for entries registry id0) as [callback0|] eqn:Hcb.
  - destruct (outcome (callback0 id0)) as [f|e0] eqn:Hout.
    + intros (id & callback & Hin & H)%IH. exists id, callback. split; [by right|done].
    + intros [= <-]. exists id0, callback0. split; [by left|done].
  - intros (id & callback & Hin & H)%IH. exists id, callback. split; [by right|done].
Qed.

(** The loop ends with the exception of the first callback that raises. *)
Lemma forecast_loop_raises (registry : gmap string Provider) (ids : list string) :
  ∀ (acc : gmap string Value) (w : World) (e : Exn),
    first_raised (hass_config_entries w) registry ids = Some e →
    (forecast_loop registry ids acc w).1 = Raise e.
Proof.
  induction ids as [|id0 ids IH]; intros acc w e; cbn [first_raised]; [done|].
  unfold callback_for.
  cbn [forecast_loop]. unfold async_get_entry, await_forecast. run_monad.
  destruct (hass_config_entries w !! id0) as [entry|] eqn:Hentry; cbn;
    [destruct (registry !! domain entry) as [callback|] eqn:Hcb;
     [destruct (outcome (callback id0)) as [[f|]|e0] eqn:Hout|]|].
  - intros Hfirst. by apply IH.
  - intros Hfirst. by apply IH.
  - by intros [= ->].
  - intros Hfirst. by apply IH.
  - intros Hfirst. by apply IH.
Qed.

(** One forecast request with the request id in the message: whether it
    replies, and with what, is a function of the state it arrives in. *)
Lemma ws_solar_forecast_outcome (w : World) (msg_id : Value) :
  msg w !! "id" = Some msg_id →
  match first_raised (hass_config_entries w) (registry_for w) (candidates w) with
  | None =>
      ∃ forecasts,
        ws_solar_forecast w = (Ok tt, (ws_solar_forecast w).2)
        ∧ connection_sent (ws_solar_forecast w).2
            = connection_sent w ++ [SendResult msg_id (PForecasts forecasts)]
        ∧ ∀ id, forecasts !! id =
                if decide (id ∈ candidates w)
                then provided (hass_config_entries w) (registry_for w) id
                else None
  | Some e =>
      ws_solar_forecast w = (Raise e, (ws_solar_forecast w).2)
      ∧ connection_sent (ws_solar_forecast w).2 = connection_sent w
  end
  ∧ (candidates w ≠ [] →
     hass_data_energy_platforms (ws_solar_forecast w).2 = Some (registry_for w)).
Proof.
  intros Hid. rewrite ws_solar_forecast_unfold.
  destruct (candidates w) as [|id0 ids] eqn:Hids.
  - cbn [first_raised]. rewrite bind_run, msg_getitem_run, Hid. split; [|done].
    exists ∅. split; [done|]. split; [done|].
    intros id. by rewrite lookup_empty, decide_False by apply not_elem_of_nil.
  - set (cands := id0 :: ids). rewrite bind_run, ensure_platforms_discovered.
    set (w1 := match hass_data_energy_platforms w with
               | Some _ => w
               | None =>
                   set_trace (trace w ++ [EvDiscovery])
                     (set_energy_platforms (Some (registry_for w)) w)
               end).
    assert (hass_config_entries w1 = hass_config_entries w
            ∧ msg w1 = msg w
            ∧ connection_sent w1 = connection_sent w
            ∧ hass_data_energy_platforms w1 = Some (registry_for w))
      as (Hentries & Hmsg & Hsent1 & Hreg1).
    { unfold w1, registry_for.
      by destruct (hass_data_energy_platforms w) as [registry|] eqn:Hreg. }
    destruct (forecast_reply_run (registry_for w) cands w1)
      as (t & sent & r & Hrun & _ & _ & _ & _ & Hr).
    pose proof (forecast_loop_raises (registry_for w) cands ∅ w1) as Hraises.
    rewrite bind_run in Hrun. rewrite Hentries in Hraises, Hr. rewrite Hmsg in Hr.
    cbv beta iota. rewrite bind_run.
    split; [|intros _; rewrite Hrun; exact Hreg1].
    destruct (first_raised (hass_config_entries w) (registry_for w) cands)
      as [e|] eqn:Hfirst.
    + specialize (Hraises e eq_refl).
      destruct (forecast_loop (registry_for w) cands ∅ w1) as [[forecasts|e'] w2];
        cbn [fst] in Hraises; [done|]. injection Hraises as ->.
      injection Hrun as <- Hw2. rewrite Hw2. destruct Hr as [-> _].
      split; [done|]. cbn. by rewrite app_nil_r.
    + rewrite Hrun. cbn [snd].
      destruct r as [[]|e].
      * destruct Hr as (msg_id' & forecasts & Hid' & -> & Hlook & _).
        assert (msg_id' = msg_id) as -> by congruence.
        exists forecasts. split; [done|]. split; [cbn; by rewrite Hsent1|done].
      * exfalso. destruct Hr as (_ & [[_ Hmissing]|(id & callback & Hin & Hcb & Hout)]).
        { congruence. }
        by apply (proj1 (first_raised_None _ _ _) Hfirst id callback e).
Qed.

(** C1: with the request id in the message, [ws_solar_forecast] sends one
    success result whose mapping holds exactly the entry ids that (a) a solar
    source lists, (b) resolve to a config entry, (c) whose domain is in the
    registry and (d) whose callback returned a forecast, each with that
    forecast.  The registry is the one found in [hass.data] when the request
    arrives or, without one, the one discovery builds from the integrations;
    it is what [hass.data] holds afterwards.  That is the outcome whenever no
    callback of a listed entry raises; otherwise the first callback that
    raises ends the request with its exception and nothing is sent.  Without
    preferences, or when no solar source lists an entry id, the mapping is
    empty. *)
Theorem ws_solar_forecast_response (w : World) (msg_id : Value) :
  msg w !! "id" = Some msg_id →
  let w' := (ws_solar_forecast w).2 in
  let registry := registry_for w in
  ((∃ forecasts,
      ws_solar_forecast w = (Ok tt, w')
      ∧ connection_sent w'
          = connection_sent w ++ [SendResult msg_id (PForecasts forecasts)]
      ∧ (∀ id f,
           forecasts !! id = Some f ↔
           listed w id
           ∧ ∃ entry callback,
               hass_config_entries w !! id = Some entry
               ∧ registry !! domain entry = Some callback
               ∧ outcome (callback id) = Returns (Some f))
      ∧ (∀ id entry callback e,
           listed w id →
           hass_config_entries w !! id = Some entry →
           registry !! domain entry = Some callback →
           outcome (callback id) ≠ Raises e)
      ∧ (manager_data w = None ∨ (∀ id, ¬ listed w id) → forecasts = ∅))
   ∨ (∃ e id entry callback,
        ws_solar_forecast w = (Raise e, w')
        ∧ connection_sent w' = connection_sent w
        ∧ first_raised (hass_config_entries w) registry (candidates w) = Some e
        ∧ listed w id
        ∧ hass_config_entries w !! id = Some entry
        ∧ registry !! domain entry = Some callback
        ∧ outcome (callback id) = Raises e))
  ∧ ((∃ id, listed w id) → hass_data_energy_platforms w' = Some registry).
Proof.
  intros Hid. cbn zeta.
  destruct (ws_solar_forecast_outcome w msg_id Hid) as [Hout Hreg]. split.
  - destruct (first_raised (hass_config_entries w) (registry_for w) (candidates w))
      as [e|] eqn:Hfirst.
    + right. destruct Hout as [Hrun Hsent].
      destruct (first_raised_Some _ _ _ _ Hfirst) as (id & callback & Hin & Hcb & Hraise).
      apply callback_for_Some in Hcb as (entry & Hentry & Hcb).
      exists e, id, entry, callback.
      split; [done|]. split; [done|]. split; [done|].
      split; [by apply candidates_listed|]. done.
    + left. destruct Hout as (forecasts & Hrun & Hsent & Hlook).
      exists forecasts. split; [done|]. split; [done|]. split; [|split].
      * intros id f. rewrite Hlook. case_decide as Hin.
        -- rewrite provided_Some, <- candidates_listed. split.
           ++ intros (entry & callback & Hentry & Hcb & Hret).
              split; [done|]. by exists entry, callback.
           ++ intros (_ & entry & callback & Hentry & Hcb & Hret).
              by exists entry, callback.
        -- rewrite <- candidates_listed. split; [done|]. by intros [? _].
      * intros id entry callback e Hlisted Hentry Hcb.
        apply (proj1 (first_raised_None _ _ _) Hfirst id callback e).
        -- by apply candidates_listed.
        -- apply callback_for_Some. eauto.
      * intros Hnone. apply map_eq. intros id. rewrite Hlook, lookup_empty.
        case_decide as Hin; [|done]. exfalso.
        apply candidates_listed in Hin.
        destruct Hnone as [Hnone|Hnone]; [|by apply (Hnone id)].
        destruct Hin as (prefs & Hprefs & _). congruence.
  - intros [id Hlisted]. apply Hreg. intros Hnil.
    apply candidates_listed in Hlisted. rewrite Hnil in Hlisted.
    by apply elem_of_nil in Hlisted.
Qed.

(** In the scenario the reply holds the forecast of [entry1] and nothing for
    [entry2], whose domain has no callback. *)
Lemma ws_solar_forecast_response_witness :
  ∃ forecasts,
    connection_sent (ws_solar_forecast scenario_world).2
      = [SendResult (VInt 1) (PForecasts forecasts)]
    ∧ forecasts !! "entry1" = Some (VDict [("wh", VInt 120)])
    ∧ forecasts !! "entry2" = None
    ∧ hass_data_energy_platforms (ws_solar_forecast scenario_world).2
      = Some (registry_for scenario_world).
Proof.
  assert (candidates scenario_world = ["entry1"; "entry2"]) as Hcands
    by (vm_compute; reflexivity).
  assert (listed scenario_world "entry1") as Hlisted.
  { apply candidates_listed. rewrite Hcands. by left. }
  destruct (ws_solar_forecast_response scenario_world (VInt 1) eq_refl)
    as [[(forecasts & _ & Hsent & Hiff & _)|(e & _ & _ & _ & _ & _ & Hfirst & _)] Hreg].
  - exists forecasts. split; [exact Hsent|]. split; [|split].
    + apply Hiff. split; [exact Hlisted|].
      exists {| domain := "forecast_solar" |},
        (returns_after 3 (Some (VDict [("wh", VInt 120)]))).
      split; [reflexivity|]. split; [|reflexivity]. vm_compute. reflexivity.
    + destruct (forecasts !! "entry2") as [f|] eqn:Hf; [exfalso|reflexivity].
      apply Hiff in Hf as (_ & entry & callback & Hentry & Hcb & _).
      injection Hentry as <-. vm_compute in Hcb. discriminate Hcb.
    + apply Hreg. by exists "entry1".
  - exfalso. vm_compute in Hfirst. discriminate Hfirst.
Defined.

(** The scenario, run: [entry1] is looked up and asked once although it is
    listed three times, [entry2] has no callback, and the reply holds the
    forecast of [entry1] only. *)
Example scenario_reply :
  connection_sent (ws_solar_forecast scenario_world).2
    = [SendResult (VInt 1) (PForecasts {[ "entry1" := VDict [("wh", VInt 120)] ]})]
  ∧ trace (ws_solar_forecast scenario_world).2
    = [EvDiscovery; EvGetEntry "entry1"; EvCall "forecast_solar" "entry1";
       EvDone "entry1"; EvGetEntry "entry2"].
Proof. split; vm_compute; reflexivity. Qed.

(** ** A callback that raises *)

(** C2, as amended: with the request id in the message, [ws_solar_forecast]
    sends a success result whenever no callback it awaits raises.  The handler
    catches nothing: when the callback of a listed entry raises, the request
    ends with an exception, that of the first callback to raise in the order
    of the candidates, and sends no result; and whenever the request ends
    with an exception, nothing was sent and the exception is the one a
    callback of a listed entry raised. *)
Theorem ws_solar_forecast_succeeds (w : World) (msg_id : Value) :
  msg w !! "id" = Some msg_id →
  let w' := (ws_solar_forecast w).2 in
  (callbacks_return w →
   ∃ forecasts,
     ws_solar_forecast w = (Ok tt, w')
     ∧ connection_sent w'
         = connection_sent w ++ [SendResult msg_id (PForecasts forecasts)])
  ∧ (∀ id entry callback e,
       listed w id →
       hass_config_entries w !! id = Some entry →
       registry_for w !! domain entry = Some callback →
       outcome (callback id) = Raises e →
       ∃ e',
         ws_solar_forecast w = (Raise e', w')
         ∧ connection_sent w' = connection_sent w
         ∧ first_raised (hass_config_entries w) (registry_for w) (candidates w)
           = Some e')
  ∧ (∀ e, (ws_solar_forecast w).1 = Raise e →
       connection_sent w' = connection_sent w
       ∧ ∃ id entry callback,
           listed w id
           ∧ hass_config_entries w !! id = Some entry
           ∧ registered w (domain entry) callback
           ∧ outcome (callback id) = Raises e).
Proof.
  intros Hid. cbn zeta.
  destruct (ws_solar_forecast_outcome w msg_id Hid) as [Hout _].
  destruct (first_raised (hass_config_entries w) (registry_for w) (candidates w))
    as [e0|] eqn:Hfirst.
  - destruct Hout as [Hrun Hsent].
    destruct (first_raised_Some _ _ _ _ Hfirst) as (id0 & callback0 & Hin & Hcb & Hraise).
    apply callback_for_Some in Hcb as (entry0 & Hentry0 & Hcb0).
    apply candidates_listed in Hin.
    apply registry_for_registered in Hcb0.
    split; [|split].
    + intros Hreturn. exfalso. by apply (Hreturn id0 entry0 callback0 e0).
    + intros id entry callback e _ _ _ _. by exists e0.
    + intros e He. rewrite Hrun in He. injection He as <-.
      split; [done|]. by exists id0, entry0, callback0.
  - destruct Hout as (forecasts & Hrun & Hsent & _).
    split; [|split].
    + intros _. by exists forecasts.
    + intros id entry callback e Hlisted Hentry Hcb Hraise. exfalso.
      apply (proj1 (first_raised_None _ _ _) Hfirst id callback e); [| |done].
      * by apply candidates_listed.
      * apply callback_for_Some. eauto.
    + intros e He. rewrite Hrun in He. discriminate He.
Qed.

(** In the scenario no callback raises and the reply is sent; with two
    providers of which the first raises, the request ends with that
    exception and sends nothing. *)
Lemma ws_solar_forecast_succeeds_witness :
  (∃ forecasts,
     connection_sent (ws_solar_forecast scenario_world).2
       = [SendResult (VInt 1) (PForecasts forecasts)])
  ∧ (ws_solar_forecast (two_providers (raises_after 3 "timeout"))).1
    = Raise (Failure "timeout")
  ∧ connection_sent (ws_solar_forecast (two_providers (raises_after 3 "timeout"))).2
    = [].
Proof.
  split.
  - destruct (ws_solar_forecast_succeeds scenario_world (VInt 1) eq_refl)
      as [Hsucceeds _].
    destruct Hsucceeds as (forecasts & _ & Hsent).
    + intros id entry callback e _ Hentry Hreg Hout.
      destruct Hreg as (platform & Hin & Hcb).
      cbn [scenario_world hass_components] in Hin.
      repeat (apply elem_of_cons in Hin as [Hin|Hin];
              [try discriminate Hin; injection Hin as _ ->; cbn in Hcb;
               try discriminate Hcb; injection Hcb as <-; discriminate Hout|]).
      by apply elem_of_nil in Hin.
    + exists forecasts. exact Hsent.
  - assert (candidates (two_providers (raises_after 3 "timeout"))
            = ["entry1"; "entry2"]) as Hcands by (vm_compute; reflexivity).
    destruct (ws_solar_forecast_succeeds (two_providers (raises_after 3 "timeout"))
                (VInt 1) eq_refl) as (_ & Hraises & _).
    destruct (Hraises "entry1" {| domain := "forecast_solar" |}
                (raises_after 3 "timeout") (Failure "timeout"))
      as (e' & Hrun & Hsent & Hfirst).
    + apply candidates_listed. rewrite Hcands. by left.
    + reflexivity.
    + vm_compute. reflexivity.
    + reflexivity.
    + vm_compute in Hfirst. injection Hfirst as <-.
      split; [exact (f_equal fst Hrun)|exact Hsent].
Defined.

(** C2, as stated, fails: when the callback of the first entry raises, the
    handler ends with that exception and sends no result. *)
Lemma ws_solar_forecast_provider_raises :
  ¬ succeeds ws_solar_forecast (two_providers (raises_after 3 "timeout")).
Proof.
  intros (msg_id & result & w' & Hrun & _).
  vm_compute in Hrun. discriminate Hrun.
Qed.

(** ** The order of the calls *)

(** C3, as amended: the callbacks are called one at a time, in the order of
    the candidate ids, and each is awaited to completion before the next
    entry is looked up; a callback that raises ends the loop, so no later
    candidate is called; the time the request is suspended in callbacks is
    the sum of the times of the callbacks it called. *)
Theorem ws_solar_forecast_awaits_in_turn (w : World) :
  let w' := (ws_solar_forecast w).2 in
  ∃ t,
    trace w' = trace w ++ t
    ∧ awaited_in_turn t
    ∧ called t `sublist_of` candidates w
    ∧ clock w'
        = clock w
          + sum_list_with (call_time (default ∅ (hass_data_energy_platforms w'))) t.
Proof.
  cbn zeta.
  destruct (ws_solar_forecast_run w)
    as (platforms & t0 & t & sent & r & Hrun & Hcase & Hturn & _ & _ & Hcall & _).
  rewrite Hrun. cbn [snd]. exists (t0 ++ t).
  assert (t0 = [] ∨ t0 = [EvDiscovery]) as [-> | ->].
  { destruct Hcase as [(-> & _)|(-> & _)]; auto. }
  - by cbn.
  - cbn. split; [done|]. split; [|done]. by apply turn_skip.
Qed.

(** C3, as stated, fails.  With two entries whose callbacks take 3 and 4 time
    units, the second call is issued only after the first has completed, and
    the request is suspended for 7 time units, more than the slowest callback
    takes.  When the callback of the first entry raises, the callback of the
    second entry is never called. *)
Lemma ws_solar_forecast_not_concurrent :
  let w := two_providers (returns_after 3 (Some (VInt 5))) in
  let w' := (ws_solar_forecast w).2 in
  let failed := (ws_solar_forecast (two_providers (raises_after 3 "timeout"))).2 in
  ¬ issued_concurrently (trace w')
  ∧ ¬ (clock w' - clock w
       ≤ max_list_with (call_time (default ∅ (hass_data_energy_platforms w')))
           (trace w'))%nat
  ∧ "entry2" ∉ called (trace failed).
Proof.
  cbn zeta. split; [|split].
  - assert (trace (ws_solar_forecast
                     (two_providers (returns_after 3 (Some (VInt 5))))).2
            = [EvDiscovery; EvGetEntry "entry1"; EvCall "forecast_solar" "entry1";
               EvDone "entry1"; EvGetEntry "entry2"; EvCall "solcast" "entry2";
               EvDone "entry2"]) as -> by (vm_compute; reflexivity).
    intros Hconc.
    pose proof (Hconc 5 3 "solcast" "entry2" "entry1" eq_refl eq_refl). lia.
  - assert (clock (ws_solar_forecast
                     (two_providers (returns_after 3 (Some (VInt 5))))).2 = 7)
      as -> by (vm_compute; reflexivity).
    match goal with
    | |- ¬ (_ ≤ ?m)%nat => assert (m = 4) as -> by (vm_compute; reflexivity)
    end.
    cbn. lia.
  - assert (called (trace (ws_solar_forecast
                             (two_providers (raises_after 3 "timeout"))).2)
            = ["entry1"]) as -> by (vm_compute; reflexivity).
    by intros [=]%list_elem_of_singleton.
Qed.

(** ** Each candidate once *)

(** C5: the candidate ids hold every listed entry id exactly once, however
    often and by however many solar sources it is listed, and one request
    resolves each entry id at most once and calls a callback for it at most
    once. *)
Theorem ws_solar_forecast_deduplicates (w : World) :
  let w' := (ws_solar_forecast w).2 in
  NoDup (candidates w)
  ∧ (∀ id, id ∈ candidates w ↔ listed w id)
  ∧ ∃ t,
      trace w' = trace w ++ t
      ∧ resolved t `sublist_of` candidates w
      ∧ called t `sublist_of` candidates w
      ∧ NoDup (resolved t)
      ∧ NoDup (called t).
Proof.
  cbn zeta. split; [apply candidates_NoDup|]. split; [apply candidates_listed|].
  destruct (ws_solar_forecast_run w)
    as (platforms & t0 & t & sent & r & Hrun & Hcase & _ & _ & Hres & Hcall & _).
  rewrite Hrun. cbn [snd]. exists (t0 ++ t).
  assert (resolved (t0 ++ t) = resolved t ∧ called (t0 ++ t) = called t) as [-> ->].
  { destruct Hcase as [(-> & _)|(-> & _)]; done. }
  split; [done|]. split; [done|]. split; [done|].
  split; eapply sublist_NoDup; eauto using candidates_NoDup.
Qed.

(** In the scenario [entry1] is listed three times by two sources. *)
Example scenario_deduplicated :
  candidates scenario_world = ["entry1"; "entry2"]
  ∧ resolved (trace (ws_solar_forecast scenario_world).2) = ["entry1"; "entry2"]
  ∧ called (trace (ws_solar_forecast scenario_world).2) = ["entry1"].
Proof. repeat split; vm_compute; reflexivity. Qed.

(** ** What a forecast request writes *)

(** C9: [ws_solar_forecast] leaves [manager.data], every key of [hass.data]
    other than the registry, the config entries, the integrations, the
    request dict and the connection's user as they were.  A registry that is
    already in [hass.data] is left as it is; otherwise the request creates it
    when there is a candidate, and then every callback in it is the
    [async_get_solar_forecast] of the platform of an integration. *)
Theorem ws_solar_forecast_frame (w : World) :
  let w' := (ws_solar_forecast w).2 in
  manager_data w' = manager_data w
  ∧ hass_data_energy w' = hass_data_energy w
  ∧ hass_data_rest w' = hass_data_rest w
  ∧ hass_config_entries w' = hass_config_entries w
  ∧ hass_components w' = hass_components w
  ∧ msg w' = msg w
  ∧ connection_user w' = connection_user w
  ∧ match hass_data_energy_platforms w, candidates w with
    | Some registry, _ => hass_data_energy_platforms w' = Some registry
    | None, [] => hass_data_energy_platforms w' = None
    | None, _ :: _ =>
        ∃ registry,
          hass_data_energy_platforms w' = Some registry
          ∧ (∀ dom callback, registry !! dom = Some callback →
               exposes (hass_components w) dom callback)
          ∧ (∀ dom callback, exposes (hass_components w) dom callback →
               is_Some (registry !! dom))
    end.
Proof.
  cbn zeta.
  destruct (ws_solar_forecast_run w)
    as (platforms & t0 & t & sent & r & Hrun & Hcase & _).
  rewrite Hrun. cbn [snd].
  repeat (split; [reflexivity|]). cbn.
  destruct Hcase as [(_ & -> & _ & Hsome)|(_ & -> & Hne & registry & -> & Honly & Hall)].
  - destruct (hass_data_energy_platforms w) as [old|]; [done|].
    destruct (candidates w) as [|id0 ids]; [done|].
    by destruct Hsome as [? [=]].
  - destruct (candidates w) as [|id0 ids]; [done|]. by exists registry.
Qed.

(** ** Discovery across requests *)

Lemma discoveries_app (t1 t2 : list Event) :
  discoveries (t1 ++ t2) = discoveries t1 + discoveries t2.
Proof. unfold discoveries. by rewrite List.filter_app, length_app. Qed.

Lemma ws_get_prefs_keeps_registry (w : World) :
  hass_data_energy_platforms (ws_get_prefs w).2 = hass_data_energy_platforms w
  ∧ trace (ws_get_prefs w).2 = trace w.
Proof.
  unfold ws_get_prefs, msg_getitem. run_monad.
  destruct (manager_data w); destruct (msg w !! "id"); done.
Qed.

Lemma ws_info_keeps_registry (w : World) :
  hass_data_energy_platforms (ws_info w).2 = hass_data_energy_platforms w
  ∧ trace (ws_info w).2 = trace w.
Proof.
  unfold ws_info, msg_getitem. run_monad.
  destruct (msg w !! "id"); [|done]. by destruct (hass_data_energy w).
Qed.

Lemma ws_save_prefs_keeps_registry
    (upd : gmap string Value → option EnergyPreferences → Exn + option EnergyPreferences)
    (exc : gmap string Value → Exn → Exn + Sent)
    (w : World) :
  hass_data_energy_platforms (ws_save_prefs_command upd exc w).2
    = hass_data_energy_platforms w
  ∧ (trace (ws_save_prefs_command upd exc w).2 = trace w
     ∨ ∃ update,
         trace (ws_save_prefs_command upd exc w).2 = trace w ++ [EvUpdate update]).
Proof.
  unfold ws_save_prefs_command, require_admin, _ws_with_manager. rewrite bind_run. unfold gets.
  cbv beta iota. destruct (is_admin (connection_user w)); [|by split; [|left]].
  destruct (async_response_keeps exc (ws_save_prefs upd) w) as (-> & -> & _).
  unfold ws_save_prefs. rewrite bind_run, msg_pop_run.
  destruct (msg w !! "id") as [msg_id|]; [|by split; [|left]].
  rewrite bind_run, msg_pop_run.
  destruct (msg _ !! "type") as [type_value|]; [|by split; [|left]].
  unfold async_update. run_monad.
  destruct (upd _ _); cbn; (split; [done|]); right; eauto.
Qed.

Lemma ws_solar_forecast_discovers (w : World) :
  let w' := (ws_solar_forecast w).2 in
  match hass_data_energy_platforms w with
  | Some registry =>
      hass_data_energy_platforms w' = Some registry
      ∧ discoveries (trace w') = discoveries (trace w)
  | None =>
      (hass_data_energy_platforms w' = None
       ∧ discoveries (trace w') = discoveries (trace w))
      ∨ (is_Some (hass_data_energy_platforms w')
         ∧ discoveries (trace w') = discoveries (trace w) + 1)
  end.
Proof.
  cbn zeta.
  destruct (ws_solar_forecast_run w)
    as (platforms & t0 & t & sent & r & Hrun & Hcase & _ & Hdisc & _).
  rewrite Hrun.
  cbn [snd trace hass_data_energy_platforms set_connection_sent set_clock
       set_trace set_energy_platforms].
  rewrite !discoveries_app, Hdisc.
  destruct Hcase as [(-> & -> & _)|(-> & -> & _ & registry & -> & _)].
  - cbn. destruct (hass_data_energy_platforms w); [split|left; split]; (done || lia).
  - right. split; [eauto|]. cbn. lia.
Qed.

Lemma handle_discovers
    (upd : gmap string Value → option EnergyPreferences → Exn + option EnergyPreferences)
    (exc : gmap string Value → Exn → Exn + Sent)
    (req : Request) (w : World) :
  let w' := handle upd exc req w in
  match hass_data_energy_platforms w with
  | Some registry =>
      hass_data_energy_platforms w' = Some registry
      ∧ discoveries (trace w') = discoveries (trace w)
  | None =>
      (hass_data_energy_platforms w' = None
       ∧ discoveries (trace w') = discoveries (trace w))
      ∨ (is_Some (hass_data_energy_platforms w')
         ∧ discoveries (trace w') = discoveries (trace w) + 1)
  end.
Proof.
  cbn zeta. unfold handle.
  set (w0 := set_connection_user (caller req) (set_msg (body req) w)).
  assert (hass_data_energy_platforms w = hass_data_energy_platforms w0
          ∧ trace w = trace w0) as [-> ->] by done.
  destruct (command req); cbn [async_setup]; unfold _ws_with_manager.
  - destruct (async_response_keeps exc ws_get_prefs w0) as (-> & -> & _).
    destruct (ws_get_prefs_keeps_registry w0) as [-> ->].
    destruct (hass_data_energy_platforms w0); auto.
  - destruct (ws_save_prefs_keeps_registry upd exc w0) as [-> [->|[update ->]]].
    + destruct (hass_data_energy_platforms w0); auto.
    + rewrite discoveries_app.
      change (discoveries [EvUpdate update]) with 0. rewrite Nat.add_0_r.
      destruct (hass_data_energy_platforms w0); auto.
  - destruct (ws_info_keeps_registry w0) as [-> ->].
    destruct (hass_data_energy_platforms w0); auto.
  - destruct (async_response_keeps exc ws_solar_forecast w0) as (-> & -> & _).
    apply ws_solar_forecast_discovers.
Qed.

(** C4: across any sequence of requests to the four commands, served one
    after the other, discovery runs at most once.  Once the registry is in
    [hass.data], no request runs discovery again and the registry stays the
    one that was cached; in a process that starts without it, discovery has
    run exactly once if the registry has been created and not at all
    otherwise. *)
Theorem discovery_at_most_once
    (upd : gmap string Value → option EnergyPreferences → Exn + option EnergyPreferences)
    (exc : gmap string Value → Exn → Exn + Sent)
    (requests : list Request) (w : World) :
  let w' := serve upd exc requests w in
  match hass_data_energy_platforms w with
  | Some registry =>
      hass_data_energy_platforms w' = Some registry
      ∧ discoveries (trace w') = discoveries (trace w)
  | None =>
      (hass_data_energy_platforms w' = None
       ∧ discoveries (trace w') = discoveries (trace w))
      ∨ (is_Some (hass_data_energy_platforms w')
         ∧ discoveries (trace w') = discoveries (trace w) + 1)
  end.
Proof.
  cbn zeta. revert w. induction requests as [|req requests IH]; intros w.
  - cbn. destruct (hass_data_energy_platforms w); auto.
  - cbn [serve]. specialize (IH (handle upd exc req w)).
    pose proof (handle_discovers upd exc req w) as Hstep. cbn zeta in Hstep.
    destruct (hass_data_energy_platforms w) as [registry|].
    + destruct Hstep as [Hreg Hcount]. rewrite Hreg in IH.
      destruct IH as [-> ->]. done.
    + destruct Hstep as [[Hreg Hcount]|[[registry Hreg] Hcount]];
        rewrite Hreg in IH.
      * destruct IH as [[-> ->]|[Hsome ->]]; [left|right]; split; (done || lia).
      * destruct IH as [-> ->]. right. split; [eauto|done].
Qed.

(** Three forecast requests in a row, with a save in between: one
    discovery. *)
Example scenario_discovers_once :
  let forecast :=
    {| caller := {| is_admin := false |}; command := SolarForecast;
       body := request "energy/solar_forecast" |} in
  let save :=
    {| caller := {| is_admin := true |}; command := SavePrefs;
       body := save_request |} in
  discoveries
    (trace (serve store_update report_error [forecast; forecast; save; forecast]
              scenario_world))
  = 1.
Proof. vm_compute. reflexivity. Qed.

(** * Further properties of the energy handlers *)

(** ** Saving preferences: reply and failures *)

(** X1: when the manager's update succeeds, an admin's save request returns
    normally, [manager.data] is what the update left, and the one reply sent
    echoes the request id and carries that document. *)
Theorem ws_save_prefs_stores
    (upd : gmap string Value → option EnergyPreferences → Exn + option EnergyPreferences)
    (exc : gmap string Value → Exn → Exn + Sent)
    (w : World) (msg_id type_value : Value) (data' : option EnergyPreferences) :
  is_admin (connection_user w) = true →
  msg w !! "id" = Some msg_id →
  msg w !! "type" = Some type_value →
  upd (delete "type" (delete "id" (msg w))) (manager_data w) = inr data' →
  ∃ w',
    ws_save_prefs_command upd exc w = (Ok tt, w')
    ∧ manager_data w' = data'
    ∧ connection_sent w' = connection_sent w ++ [SendResult msg_id (PPrefs data')]
    ∧ hass_data_energy w' = hass_data_energy w
    ∧ hass_data_energy_platforms w' = hass_data_energy_platforms w
    ∧ hass_data_rest w' = hass_data_rest w
    ∧ hass_config_entries w' = hass_config_entries w.
Proof.
  intros Hadmin Hid Htype Hupd.
  rewrite (ws_save_prefs_command_admin upd exc w Hadmin), async_response_run.
  rewrite (ws_save_prefs_run upd w msg_id type_value Hid Htype). cbn zeta.
  rewrite Hupd. eexists. split; [reflexivity|]. by cbn.
Qed.

Lemma ws_save_prefs_stores_witness :
  ∃ w',
    ws_save_prefs_command store_update report_error (save_world true) = (Ok tt, w')
    ∧ manager_data w' = Some (solar_prefs [])
    ∧ connection_sent w' = [SendResult (VInt 1) (PPrefs (Some (solar_prefs [])))]
    ∧ hass_data_energy w' = hass_data_energy (save_world true)
    ∧ hass_data_energy_platforms w' = hass_data_energy_platforms (save_world true)
    ∧ hass_data_rest w' = hass_data_rest (save_world true)
    ∧ hass_config_entries w' = hass_config_entries (save_world true).
Proof.
  apply (ws_save_prefs_stores store_update report_error (save_world true) (VInt 1)
           (VStr "energy/save_prefs") (Some (solar_prefs []))); reflexivity.
Defined.

(** X2: when the manager's update raises, the exception leaves the coroutine
    [ws_save_prefs], lines 96-106, which catches nothing: the coroutine has
    sent no reply and has not changed [manager.data], although the request
    dict has already lost [id] and [type] and the call of the update is on
    record. *)
Theorem ws_save_prefs_update_raises
    (upd : gmap string Value → option EnergyPreferences → Exn + option EnergyPreferences)
    (w : World) (msg_id type_value : Value) (e : Exn) :
  msg w !! "id" = Some msg_id →
  msg w !! "type" = Some type_value →
  upd (delete "type" (delete "id" (msg w))) (manager_data w) = inl e →
  ∃ w',
    ws_save_prefs upd w = (Raise e, w')
    ∧ connection_sent w' = connection_sent w
    ∧ manager_data w' = manager_data w
    ∧ msg w' = delete "type" (delete "id" (msg w))
    ∧ trace w' = trace w ++ [EvUpdate (delete "type" (delete "id" (msg w)))].
Proof.
  intros Hid Htype Hupd.
  rewrite (ws_save_prefs_run upd w msg_id type_value Hid Htype). cbn zeta.
  rewrite Hupd. eexists. split; [reflexivity|]. by cbn.
Qed.

Lemma ws_save_prefs_update_raises_witness :
  ∃ w',
    ws_save_prefs (λ _ _, inl (Failure "invalid")) (save_world true)
      = (Raise (Failure "invalid"), w')
    ∧ connection_sent w' = []
    ∧ manager_data w' = None
    ∧ msg w' = delete "type" (delete "id" save_request)
    ∧ trace w' = [EvUpdate (delete "type" (delete "id" save_request))].
Proof.
  apply (ws_save_prefs_update_raises (λ _ _, inl (Failure "invalid"))
           (save_world true) (VInt 1) (VStr "energy/save_prefs") (Failure "invalid"));
    reflexivity.
Defined.

(** X27: when the manager's update raises in an admin's save request, the
    exception reaches the connection together with the request dict as the
    coroutine left it, without [id] and [type]: the run of the command ends
    as the connection's handler does on that dict, with its one message or
    with what it raises, and [manager.data] stays as it was. *)
Theorem ws_save_prefs_command_update_raises
    (upd : gmap string Value → option EnergyPreferences → Exn + option EnergyPreferences)
    (exc : gmap string Value → Exn → Exn + Sent)
    (w : World) (msg_id type_value : Value) (e : Exn) :
  is_admin (connection_user w) = true →
  msg w !! "id" = Some msg_id →
  msg w !! "type" = Some type_value →
  upd (delete "type" (delete "id" (msg w))) (manager_data w) = inl e →
  let w' := (ws_save_prefs_command upd exc w).2 in
  manager_data w' = manager_data w
  ∧ match exc (delete "type" (delete "id" (msg w))) e with
    | inl e' =>
        (ws_save_prefs_command upd exc w).1 = Raise e'
        ∧ connection_sent w' = connection_sent w
    | inr message =>
        (ws_save_prefs_command upd exc w).1 = Ok tt
        ∧ connection_sent w' = connection_sent w ++ [message]
    end.
Proof.
  intros Hadmin Hid Htype Hupd. cbn zeta.
  rewrite (ws_save_prefs_command_admin upd exc w Hadmin), async_response_run.
  rewrite (ws_save_prefs_run upd w msg_id type_value Hid Htype). cbn zeta.
  rewrite Hupd. cbn [msg set_trace set_msg].
  by destruct (exc _ e).
Qed.

(** A handler that echoes the request id finds none in the dict. *)
Lemma ws_save_prefs_command_update_raises_witness :
  let w' :=
    (ws_save_prefs_command (λ _ _, inl (Failure "invalid")) report_error
       (save_world true)).2 in
  manager_data w' = None
  ∧ (ws_save_prefs_command (λ _ _, inl (Failure "invalid")) report_error
       (save_world true)).1
    = Raise (KeyError "id")
  ∧ connection_sent w' = [].
Proof.
  apply (ws_save_prefs_command_update_raises (λ _ _, inl (Failure "invalid"))
           report_error (save_world true) (VInt 1) (VStr "energy/save_prefs")
           (Failure "invalid")); reflexivity.
Defined.

(** X3: the coroutine [ws_save_prefs], lines 96-106, called on a dict that
    lacks [id] or [type], ends in [KeyError] before the manager's update is
    called and sends nothing; when only [type] is missing, [id] has already
    been removed from the dict.  Both keys are required by the schema of the
    command, so such a dict reaches the coroutine only in a direct call. *)
Theorem ws_save_prefs_missing_key
    (upd : gmap string Value → option EnergyPreferences → Exn + option EnergyPreferences)
    (w : World) :
  msg w !! "id" = None ∨ msg w !! "type" = None →
  ws_save_prefs upd w
  = match msg w !! "id" with
    | None => (Raise (KeyError "id"), w)
    | Some _ => (Raise (KeyError "type"), set_msg (delete "id" (msg w)) w)
    end.
Proof.
  intros Hmissing.
  unfold ws_save_prefs. rewrite bind_run, msg_pop_run.
  destruct (msg w !! "id") as [msg_id|] eqn:Hid; [|done].
  destruct Hmissing as [|Htype]; [done|].
  rewrite bind_run, msg_pop_run. cbn [msg set_msg].
  rewrite lookup_delete_ne by done. by rewrite Htype.
Qed.

Lemma ws_save_prefs_missing_key_witness :
  ws_save_prefs store_update
    (set_msg {[ "id" := VInt 1 ]} (save_world true))
  = (Raise (KeyError "type"),
     set_msg (delete "id" {[ "id" := VInt 1 ]})
       (set_msg {[ "id" := VInt 1 ]} (save_world true))).
Proof.
  assert (msg (set_msg {[ "id" := VInt 1 ]} (save_world true)) !! "id" = None
          ∨ msg (set_msg {[ "id" := VInt 1 ]} (save_world true)) !! "type" = None)
    as Hmissing by (right; reflexivity).
  rewrite (ws_save_prefs_missing_key store_update
             (set_msg {[ "id" := VInt 1 ]} (save_world true)) Hmissing).
  reflexivity.
Defined.

(** X4: a read that follows an admin's successful save is answered with the
    document the save stored, the same one the save's reply carried, or with
    [not_found] when the update left [manager.data] at [None]. *)
Theorem save_then_get_prefs
    (upd : gmap string Value → option EnergyPreferences → Exn + option EnergyPreferences)
    (exc : gmap string Value → Exn → Exn + Sent)
    (w : World) (save get : Request) (save_id type_value get_id : Value)
    (data' : option EnergyPreferences) :
  command save = SavePrefs →
  is_admin (caller save) = true →
  body save !! "id" = Some save_id →
  body save !! "type" = Some type_value →
  upd (delete "type" (delete "id" (body save))) (manager_data w) = inr data' →
  command get = GetPrefs →
  body get !! "id" = Some get_id →
  connection_sent (serve upd exc [save; get] w)
  = connection_sent w
    ++ [ SendResult save_id (PPrefs data');
         match data' with
         | Some prefs => SendResult get_id (PPrefs (Some prefs))
         | None => SendError get_id ERR_NOT_FOUND "No prefs"
         end ].
Proof.
  intros Hsave Hadmin Hid Htype Hupd Hget Hgid.
  cbn [serve]. unfold handle at 2. rewrite Hsave. cbn [async_setup].
  rewrite ws_save_prefs_command_admin, async_response_run by done.
  rewrite (ws_save_prefs_run upd _ save_id type_value) by done.
  cbn zeta. cbn [msg manager_data set_msg set_connection_user].
  rewrite Hupd. cbn [snd].
  unfold handle. rewrite Hget. cbn [async_setup]. unfold _ws_with_manager.
  rewrite async_response_run.
  unfold ws_get_prefs. rewrite bind_run. unfold gets. cbv beta iota.
  cbn [manager_data set_msg set_connection_user set_connection_sent
       set_manager_data set_trace].
  destruct data' as [prefs|]; rewrite bind_run, msg_getitem_run;
    cbn [msg set_msg set_connection_user]; rewrite Hgid;
    unfold send_result, send_error, modify; cbn; by rewrite <- app_assoc.
Qed.

Lemma save_then_get_prefs_witness :
  connection_sent
    (serve store_update report_error [save_by_admin; get_by_user] (blank_world "none"))
  = [ SendResult (VInt 1) (PPrefs (Some (solar_prefs [])));
      SendResult (VInt 2) (PPrefs (Some (solar_prefs []))) ].
Proof.
  apply (save_then_get_prefs store_update report_error (blank_world "none")
           save_by_admin get_by_user
           (VInt 1) (VStr "energy/save_prefs") (VInt 2) (Some (solar_prefs [])));
    reflexivity.
Defined.

(** ** Forecast requests: the early return and the order of the candidates *)

(** X5: when no solar source lists an entry id, the forecast request is
    answered with the empty mapping and nothing else happens: no discovery,
    no registry is created in [hass.data], no entry is resolved and no
    callback is called. *)
Theorem ws_solar_forecast_early_return (w : World) (msg_id : Value) :
  (∀ id, ¬ listed w id) →
  msg w !! "id" = Some msg_id →
  ws_solar_forecast w
  = (Ok tt,
     set_connection_sent (connection_sent w ++ [SendResult msg_id (PForecasts ∅)]) w).
Proof.
  intros Hnone Hid.
  assert (candidates w = []) as Hcand.
  { destruct (candidates w) as [|id ids] eqn:Hc; [done|].
    exfalso. apply (Hnone id), candidates_listed. rewrite Hc. left. }
  unfold candidates in Hcand. unfold ws_solar_forecast.
  rewrite bind_run. unfold gets at 1. cbv beta iota zeta.
  destruct (manager_data w) as [prefs|]; [rewrite Hcand|];
    rewrite bind_run, msg_getitem_run, Hid; reflexivity.
Qed.

Lemma ws_solar_forecast_early_return_witness :
  ws_solar_forecast (configured_world "energy/solar_forecast")
  = (Ok tt,
     set_connection_sent [SendResult (VInt 1) (PForecasts ∅)]
       (configured_world "energy/solar_forecast")).
Proof.
  apply (ws_solar_forecast_early_return (configured_world "energy/solar_forecast")
           (VInt 1)).
  - intros id (prefs & [= <-] & source & ids & Hin & Hty & Hcfg & Hid).
    cbn in Hin.
    repeat (apply elem_of_cons in Hin as [->|Hin]; [cbn in *; try discriminate|]).
    + injection Hcfg as <-. by apply elem_of_nil in Hid.
    + by apply elem_of_nil in Hin.
  - reflexivity.
Defined.

Lemma dict_setitem_first (key : string) (seen : list string) :
  dict_setitem key (reverse (remove_dups (reverse seen)))
  = reverse (remove_dups (reverse (seen ++ [key]))).
Proof.
  rewrite reverse_snoc. cbn [remove_dups]. unfold dict_setitem.
  destruct (decide_rel elem_of key (reverse seen)) as [Hin|Hnin].
  - rewrite decide_True; [done|].
    by rewrite elem_of_reverse, elem_of_remove_dups.
  - rewrite decide_False.
    + by rewrite reverse_cons.
    + by rewrite elem_of_reverse, elem_of_remove_dups.
Qed.

Lemma add_config_entries_first (ids seen : list string) :
  add_config_entries ids (reverse (remove_dups (reverse seen)))
  = reverse (remove_dups (reverse (seen ++ ids))).
Proof.
  revert seen. induction ids as [|id ids IH]; intros seen; cbn.
  - by rewrite app_nil_r.
  - rewrite dict_setitem_first, IH. by rewrite <- app_assoc.
Qed.

Lemma collect_config_entries_first (sources : list EnergySource) (seen : list string) :
  collect_config_entries sources (reverse (remove_dups (reverse seen)))
  = reverse (remove_dups (reverse (seen ++ listed_ids sources))).
Proof.
  revert seen. induction sources as [|source sources IH]; intros seen.
  - cbn. by rewrite app_nil_r.
  - cbn [collect_config_entries]. unfold listed_ids. cbn [mbind list_bind].
    fold (listed_ids sources).
    case_bool_decide.
    + by rewrite IH.
    + destruct (config_entry_solar_forecast source) as [ids|]; cbn [default].
      * by rewrite add_config_entries_first, IH, <- app_assoc.
      * by rewrite IH.
Qed.

(** X6: the candidate ids are the entry ids listed by the solar sources, in
    the order of the sources and of each source's list, every id at the
    place of its first listing. *)
Theorem candidates_in_order_of_first_listing (w : World) :
  candidates w
  = match manager_data w with
    | Some prefs =>
        reverse (remove_dups (reverse (listed_ids (energy_sources prefs))))
    | None => []
    end.
Proof.
  unfold candidates. destruct (manager_data w) as [prefs|]; [|done].
  apply (collect_config_entries_first (energy_sources prefs) []).
Qed.

Example scenario_candidates_order :
  listed_ids (energy_sources scenario_prefs) = ["entry1"; "entry2"; "entry1"; "entry1"]
  ∧ candidates scenario_world = ["entry1"; "entry2"].
Proof. split; vm_compute; reflexivity. Qed.

(** ** Every candidate is asked *)

Lemma forecast_loop_calls (registry : gmap string Provider) (ids : list string) :
  ∀ (acc : gmap string Value) (w : World),
  ∃ t,
    trace (forecast_loop registry ids acc w).2 = trace w ++ t
    ∧ (∀ forecasts,
         (forecast_loop registry ids acc w).1 = Ok forecasts →
         resolved t = ids
         ∧ called t
           = filter (λ id, is_Some (callback_for (hass_config_entries w) registry id))
               ids).
Proof.
  induction ids as [|id0 ids IH]; intros acc w.
  - exists []. cbn. split; [by rewrite app_nil_r|done].
  - assert (∀ (w1 : World) (pre t : list Event) (r : Res (gmap string Value))
              (called0 : list string) (asked : bool),
              (∀ forecasts, r = Ok forecasts →
                 resolved t = ids
                 ∧ called t
                   = filter (λ id, is_Some (callback_for (hass_config_entries w1)
                                              registry id)) ids) →
              hass_config_entries w1 = hass_config_entries w →
              resolved pre = [id0] →
              called pre = (if asked then [id0] else []) →
              (asked = true ↔
               is_Some (callback_for (hass_config_entries w) registry id0)) →
              ∀ forecasts, r = Ok forecasts →
                resolved (pre ++ t) = id0 :: ids
                ∧ called (pre ++ t)
                  = filter (λ id, is_Some (callback_for (hass_config_entries w)
                                             registry id)) (id0 :: ids)) as Hstep.
    { intros w1 pre t r called0 asked Hok Hentries Hres Hcall Hasked forecasts Hr.
      destruct (Hok forecasts Hr) as [Hres' Hcall'].
      unfold resolved, called in *. rewrite !omap_app, Hres, Hcall, Hres', Hcall'.
      rewrite Hentries, filter_cons. split; [done|].
      destruct asked.
      - rewrite decide_True; [done|]. by apply Hasked.
      - rewrite decide_False; [done|]. intros Hsome. by apply Hasked in Hsome. }
    cbn [forecast_loop]. unfold async_get_entry, await_forecast. run_monad.
    destruct (hass_config_entries w !! id0) as [entry|] eqn:Hentry;
      [destruct (registry !! domain entry) as [callback|] eqn:Hcb;
       [destruct (outcome (callback id0)) as [[f|]|e] eqn:Hout|]|].
    + edestruct (IH (<[id0 := f]> acc)) as (t & Htrace & Hok).
      exists ([EvGetEntry id0; EvCall (domain entry) id0; EvDone id0] ++ t).
      split.
      * rewrite Htrace. cbn [trace set_trace set_clock]. by rewrite <- !app_assoc.
      * eapply (Hstep _ _ _ _ [] true); [exact Hok|reflexivity|done|done|].
        split; [|done]. intros _. unfold callback_for. rewrite Hentry. cbn. eauto.
    + edestruct (IH acc) as (t & Htrace & Hok).
      exists ([EvGetEntry id0; EvCall (domain entry) id0; EvDone id0] ++ t).
      split.
      * rewrite Htrace. cbn [trace set_trace set_clock]. by rewrite <- !app_assoc.
      * eapply (Hstep _ _ _ _ [] true); [exact Hok|reflexivity|done|done|].
        split; [|done]. intros _. unfold callback_for. rewrite Hentry. cbn. eauto.
    + exists [EvGetEntry id0; EvCall (domain entry) id0; EvRaised id0].
      split.
      * cbn [trace set_trace set_clock snd]. by rewrite <- !app_assoc.
      * intros forecasts Hrun. discriminate Hrun.
    + edestruct (IH acc) as (t & Htrace & Hok).
      exists ([EvGetEntry id0] ++ t).
      split.
      * rewrite Htrace. cbn [trace set_trace set_clock]. by rewrite <- !app_assoc.
      * eapply (Hstep _ _ _ _ [] false); [exact Hok|reflexivity|done|done|].
        split; [done|]. unfold callback_for. rewrite Hentry. cbn. rewrite Hcb.
           by intros [? [=]].
    + edestruct (IH acc) as (t & Htrace & Hok).
      exists ([EvGetEntry id0] ++ t).
      split.
      * rewrite Htrace. cbn [trace set_trace set_clock]. by rewrite <- !app_assoc.
      * eapply (Hstep _ _ _ _ [] false); [exact Hok|reflexivity|done|done|].
        split; [done|]. unfold callback_for. rewrite Hentry. cbn.
           by intros [? [=]].
Qed.

(** X7: a forecast request that returns normally has resolved every
    candidate id exactly once, in the order of the candidates, and has called
    the callback of every candidate whose entry exists and whose domain is in
    the registry, and of no other. *)
Theorem ws_solar_forecast_asks_every_candidate (w : World) :
  (ws_solar_forecast w).1 = Ok tt →
  let w' := (ws_solar_forecast w).2 in
  ∃ t,
    trace w' = trace w ++ t
    ∧ resolved t = candidates w
    ∧ called t
      = filter (λ id, is_Some (callback_for (hass_config_entries w)
                                 (default ∅ (hass_data_energy_platforms w')) id))
          (candidates w).
Proof.
  cbn zeta. rewrite ws_solar_forecast_unfold.
  destruct (candidates w) as [|id0 ids] eqn:Hids.
  - intros _. exists []. rewrite bind_run, msg_getitem_run.
    destruct (msg w !! "id"); cbn; by rewrite app_nil_r.
  - set (cands := id0 :: ids). rewrite bind_run.
    assert (∃ t0 registry w1,
              ensure_platforms w = (Ok registry, w1)
              ∧ trace w1 = trace w ++ t0
              ∧ resolved t0 = [] ∧ called t0 = []
              ∧ hass_data_energy_platforms w1 = Some registry
              ∧ hass_config_entries w1 = hass_config_entries w)
      as (t0 & registry & w1 & -> & Ht0 & Hres0 & Hcall0 & Hreg1 & Hent1).
    { pose proof (ensure_platforms_run w) as Hensure.
      destruct (hass_data_energy_platforms w) as [old|] eqn:Hold.
      - exists [], old, w. rewrite app_nil_r. done.
      - destruct Hensure as (registry & -> & _).
        exists [EvDiscovery], registry. eexists. split; [reflexivity|]. done. }
    rewrite bind_run.
    destruct (forecast_loop_run registry cands ∅ w1) as (t' & r & Hrun & _).
    destruct (forecast_loop_calls registry cands ∅ w1) as (t & Htrace & Hok).
    rewrite Hrun in Htrace, Hok. cbn [fst snd] in Htrace, Hok.
    rewrite Hrun. destruct r as [forecasts|e]; [|by intros [=]].
    destruct (Hok forecasts eq_refl) as [Hres Hcall].
    rewrite bind_run, msg_getitem_run. cbn [msg set_clock set_trace].
    destruct (msg w1 !! "id") as [msg_id|]; [|by intros [=]].
    intros _. exists (t0 ++ t).
    unfold send_result, modify. cbn [snd]. cbn in Htrace.
    cbn [trace hass_data_energy_platforms set_connection_sent set_clock set_trace].
    rewrite Htrace, Ht0, Hreg1, <- Hent1. cbn [default].
    unfold resolved, called in *.
    rewrite !omap_app, Hres0, Hcall0, Hres, Hcall, <- app_assoc. done.
Qed.

Lemma ws_solar_forecast_asks_every_candidate_witness :
  ∃ t,
    trace (ws_solar_forecast scenario_world).2 = trace scenario_world ++ t
    ∧ resolved t = candidates scenario_world
    ∧ called t
      = filter (λ id, is_Some (callback_for (hass_config_entries scenario_world)
                                 (default ∅ (hass_data_energy_platforms
                                               (ws_solar_forecast scenario_world).2))
                                 id))
          (candidates scenario_world).
Proof.
  apply (ws_solar_forecast_asks_every_candidate scenario_world).
  vm_compute. reflexivity.
Defined.

(** ** One reply per request *)

(** A coroutine that sends one message when it returns and none when it
    raises does so under [async_response] too: the message of the connection
    stands in for the reply of a coroutine that raised. *)
Lemma async_response_one_reply (exc : gmap string Value → Exn → Exn + Sent)
    (func : M unit) (w : World) :
  (∃ sent,
     connection_sent (func w).2 = connection_sent w ++ sent
     ∧ length sent = replies (func w).1) →
  ∃ sent,
    connection_sent (async_response exc func w).2 = connection_sent w ++ sent
    ∧ length sent = replies (async_response exc func w).1.
Proof.
  intros (sent & Hsent & Hlen). rewrite async_response_run.
  destruct (func w) as [[a|err] w']; cbn [fst snd] in *; [by exists sent|].
  destruct sent; [|done]. rewrite app_nil_r in Hsent.
  destruct (exc (msg w') err) as [e|message]; cbn [fst snd].
  - exists []. by rewrite app_nil_r.
  - exists [message]. cbn. by rewrite Hsent.
Qed.

(** X8: whichever of the four registered commands runs, and in whatever
    state, the run adds to what the connection has sent exactly one message
    when it returns normally and none when it ends in an exception.  Under
    [async_response] the one message is the reply of the coroutine or, when
    the coroutine raised, the message of the connection for that exception;
    no run sends two messages and none removes one. *)
Theorem one_reply_per_request
    (upd : gmap string Value → option EnergyPreferences → Exn + option EnergyPreferences)
    (exc : gmap string Value → Exn → Exn + Sent)
    (c : Command) (w : World) :
  ∃ sent,
    connection_sent (async_setup upd exc c w).2 = connection_sent w ++ sent
    ∧ length sent = replies (async_setup upd exc c w).1.
Proof.
  destruct c; cbn [async_setup]; unfold _ws_with_manager.
  - apply async_response_one_reply.
    unfold ws_get_prefs. rewrite bind_run. unfold gets. cbv beta iota.
    destruct (manager_data w); rewrite bind_run, msg_getitem_run;
      (destruct (msg w !! "id"); [eexists [_]|exists []]); cbn;
      by rewrite ?app_nil_r.
  - unfold ws_save_prefs_command, require_admin, _ws_with_manager.
    rewrite bind_run. unfold gets. cbv beta iota.
    destruct (is_admin (connection_user w));
      [|exists []; cbn; by rewrite app_nil_r].
    apply async_response_one_reply.
    unfold ws_save_prefs. rewrite bind_run, msg_pop_run.
    destruct (msg w !! "id") as [msg_id|];
      [|exists []; cbn; by rewrite app_nil_r].
    rewrite bind_run, msg_pop_run.
    destruct (msg _ !! "type") as [type_value|];
      [|exists []; cbn; by rewrite app_nil_r].
    unfold async_update. run_monad.
    destruct (upd _ _); [exists []|eexists [_]]; cbn; by rewrite ?app_nil_r.
  - unfold ws_info. rewrite bind_run, msg_getitem_run.
    destruct (msg w !! "id"); [|exists []; cbn; by rewrite app_nil_r].
    rewrite bind_run. unfold gets. cbv beta iota.
    destruct (hass_data_energy w); [eexists [_]|exists []]; cbn;
      by rewrite ?app_nil_r.
  - apply async_response_one_reply.
    destruct (ws_solar_forecast_run w)
      as (platforms & t0 & t & sent & r & Hrun & _ & _ & _ & _ & _ & Hr).
    rewrite Hrun. exists sent. split; [done|]. cbn [fst].
    destruct r as [[]|e].
    + by destruct Hr as (msg_id & forecasts & _ & -> & _).
    + by destruct Hr as (-> & _).
Qed.

(** ** Who changes the preferences *)

Lemma handle_read_only
    (upd : gmap string Value → option EnergyPreferences → Exn + option EnergyPreferences)
    (exc : gmap string Value → Exn → Exn + Sent)
    (req : Request) (w : World) :
  read_only req →
  manager_data (handle upd exc req w) = manager_data w.
Proof.
  unfold read_only, handle. intros Hread.
  set (w0 := set_connection_user (caller req) (set_msg (body req) w)).
  change (manager_data w) with (manager_data w0).
  assert (connection_user w0 = caller req) as Huser by done.
  clearbody w0. destruct (command req); cbn [async_setup]; unfold _ws_with_manager.
  - destruct (async_response_keeps exc ws_get_prefs w0) as (_ & _ & -> & _).
    unfold ws_get_prefs, msg_getitem. run_monad.
    destruct (manager_data w0) eqn:Hdata; destruct (msg w0 !! "id"); done.
  - unfold ws_save_prefs_command, require_admin. rewrite bind_run. unfold gets.
    cbv beta iota. rewrite Huser, Hread; done.
  - unfold ws_info, msg_getitem. run_monad.
    destruct (msg w0 !! "id"); [|done]. by destruct (hass_data_energy w0).
  - destruct (async_response_keeps exc ws_solar_forecast w0) as (_ & _ & -> & _).
    destruct (ws_solar_forecast_run w0)
      as (platforms & t0 & t & sent & r & Hrun & _).
    by rewrite Hrun.
Qed.

(** X9: over any sequence of requests, the stored preferences change only
    through a save by an admin: when every request is a read, a forecast, an
    info request or a save by a caller who is not an admin, [manager.data]
    is at the end what it was at the start. *)
Theorem preferences_change_only_by_admin_save
    (upd : gmap string Value → option EnergyPreferences → Exn + option EnergyPreferences)
    (exc : gmap string Value → Exn → Exn + Sent)
    (requests : list Request) (w : World) :
  Forall read_only requests →
  manager_data (serve upd exc requests w) = manager_data w.
Proof.
  intros Hall. revert w.
  induction Hall as [|req requests Hreq _ IH]; intros w; [done|].
  cbn [serve]. rewrite IH. by apply handle_read_only.
Qed.

Lemma preferences_change_only_by_admin_save_witness :
  manager_data
    (serve store_update report_error
       [ get_by_user;
         {| caller := {| is_admin := false |}; command := SavePrefs;
            body := save_request |};
         {| caller := {| is_admin := true |}; command := SolarForecast;
            body := request "energy/solar_forecast" |} ]
       scenario_world)
  = manager_data scenario_world.
Proof.
  apply (preferences_change_only_by_admin_save store_update report_error).
  repeat constructor; intros Hcommand; try discriminate Hcommand; reflexivity.
Defined.

(** ** Registering a platform *)

(** X10: for a platform that has [async_get_solar_forecast],
    [_process_energy_platform] needs the registry in [hass.data] and raises
    [KeyError] without it.  With a registry, the domain maps to the
    platform's callback afterwards, every other domain is as before, and
    processing the same platform again changes nothing. *)
Theorem _process_energy_platform_registers (dom : string) (platform : Platform)
    (callback : Provider) (w : World) :
  async_get_solar_forecast platform = Some callback →
  match hass_data_energy_platforms w with
  | None =>
      _process_energy_platform dom platform w
        = (Raise (KeyError DATA_ENERGY_PLATFORMS), w)
  | Some registry =>
      ∃ w' registry',
        _process_energy_platform dom platform w = (Ok tt, w')
        ∧ hass_data_energy_platforms w' = Some registry'
        ∧ registry' !! dom = Some callback
        ∧ (∀ other, other ≠ dom → registry' !! other = registry !! other)
        ∧ _process_energy_platform dom platform w' = (Ok tt, w')
  end.
Proof.
  intros Hcb.
  destruct (hass_data_energy_platforms w) as [registry|] eqn:Hreg.
  - exists (set_energy_platforms (Some (<[dom := callback]> registry)) w),
      (<[dom := callback]> registry).
    rewrite (_process_energy_platform_run dom platform registry w Hreg), Hcb.
    split; [done|]. split; [done|]. split; [apply lookup_insert_eq|].
    split; [intros other Hne; by apply lookup_insert_ne|].
    rewrite (_process_energy_platform_run dom platform
               (<[dom := callback]> registry)
               (set_energy_platforms (Some (<[dom := callback]> registry)) w)
               eq_refl), Hcb.
    f_equal. cbn. by rewrite insert_insert_eq.
  - unfold _process_energy_platform. rewrite Hcb. run_monad. by rewrite Hreg.
Qed.

Lemma _process_energy_platform_registers_witness :
  _process_energy_platform "forecast_solar"
    {| async_get_solar_forecast := Some (returns_after 3 None) |} scenario_world
  = (Raise (KeyError DATA_ENERGY_PLATFORMS), scenario_world).
Proof.
  apply (_process_energy_platform_registers "forecast_solar"
           {| async_get_solar_forecast := Some (returns_after 3 None) |}
           (returns_after 3 None) scenario_world).
  reflexivity.
Defined.

(** * The Yeelight light platform *)

(** The resolution orders that Python computes for the classes with more
    than one base. *)
Example yeelight_mro :
  Yeelight.mro Yeelight.YeelightColorLightWithNightlightSwitch
  = [ Yeelight.YeelightColorLightWithNightlightSwitch;
      Yeelight.YeelightNightLightSupport; Yeelight.YeelightColorLightSupport;
      Yeelight.YeelightGenericLight ]
  ∧ Yeelight.mro Yeelight.YeelightWithAmbientAndNightlight
    = [ Yeelight.YeelightWithAmbientAndNightlight; Yeelight.YeelightWithNightLight;
        Yeelight.YeelightNightLightSupport; Yeelight.YeelightWhiteTempLightSupport;
        Yeelight.YeelightGenericLight ]
  ∧ Yeelight.mro Yeelight.YeelightAmbientLight
    = [ Yeelight.YeelightAmbientLight;
        Yeelight.YeelightColorLightWithoutNightlightSwitch;
        Yeelight.YeelightColorLightSupport; Yeelight.YeelightGenericLight ].
Proof. repeat split; vm_compute; reflexivity. Qed.

(** ** The colour a bulb reports *)

Lemma land_255_bounds (n : Z) : (0 ≤ Z.land n 255 ≤ 255)%Z.
Proof.
  assert (Z.land n 255 = n mod 256)%Z as ->.
  { change 255%Z with (Z.ones 8). by rewrite Z.land_ones by lia. }
  pose proof (Z.mod_pos_bound n 256) as H. lia.
Qed.

(** X11: whatever integer the bulb reports as [rgb], negative or beyond 24
    bits, each of the three components that [rgb_color] returns lies between
    0 and 255. *)
Theorem yeelight_rgb_color_bounds (int : string → option Z) (light : Yeelight.Light)
    (red green blue : Z) :
  Yeelight.rgb_color int light = inr (Some (red, green, blue)) →
  (0 ≤ red ≤ 255 ∧ 0 ≤ green ≤ 255 ∧ 0 ≤ blue ≤ 255)%Z.
Proof.
  unfold Yeelight.rgb_color.
  destruct (Yeelight._get_property light "rgb") as [text|]; [|discriminate].
  destruct (int text) as [rgb|]; [|discriminate].
  intros [= <- <- <-]. auto using land_255_bounds.
Qed.

Lemma yeelight_rgb_color_bounds_witness :
  (0 ≤ 255 ≤ 255 ∧ 0 ≤ 0 ≤ 255 ∧ 0 ≤ 255 ≤ 255)%Z.
Proof.
  apply (yeelight_rgb_color_bounds YeelightExamples.int YeelightExamples.color_light).
  vm_compute. reflexivity.
Defined.

(** X12: [rgb_color] undoes the packing of a colour into one integer: when
    the bulb reports [red * 65536 + green * 256 + blue] with the three
    components between 0 and 255, [rgb_color] returns exactly
    [(red, green, blue)]. *)
Theorem yeelight_rgb_color_unpacks (int : string → option Z) (light : Yeelight.Light)
    (text : string) (red green blue : Z) :
  (0 ≤ red ≤ 255)%Z → (0 ≤ green ≤ 255)%Z → (0 ≤ blue ≤ 255)%Z →
  Yeelight._get_property light "rgb" = Some text →
  int text = Some (red * 65536 + green * 256 + blue)%Z →
  Yeelight.rgb_color int light = inr (Some (red, green, blue)).
Proof.
  intros Hr Hg Hb Hprop Hint. unfold Yeelight.rgb_color. rewrite Hprop, Hint.
  cbv zeta. do 3 f_equal; [f_equal|..].
  all: change (Z.land ?n 255) with (Z.land n (Z.ones 8));
    rewrite Z.land_ones by lia;
    rewrite ?Z.shiftr_div_pow2 by lia;
    change (2 ^ 8)%Z with 256%Z; change (2 ^ 16)%Z with 65536%Z;
    Z.div_mod_to_equations; lia.
Qed.

Lemma yeelight_rgb_color_unpacks_witness :
  Yeelight.rgb_color YeelightExamples.int YeelightExamples.color_light
  = inr (Some (255, 0, 255)%Z).
Proof.
  apply (yeelight_rgb_color_unpacks YeelightExamples.int YeelightExamples.color_light
           "16711935" 255 0 255); try lia; reflexivity.
Defined.

(** ** What the classes read *)

(** What [is_on] comes to for each class, by the resolution order. *)
Lemma yeelight_is_on_new_light (c : Yeelight.Class)
    (properties : option (gmap string (option string))) (night : bool)
    (effects : list (string * Yeelight.CustomEffect)) :
  let on prop := bool_decide (mjoin (default ∅ properties !! prop) = Some "on") in
  Yeelight.is_on (Yeelight.new_light c properties night effects)
  = match c with
    | Yeelight.YeelightGenericLight
    | Yeelight.YeelightColorLightSupport
    | Yeelight.YeelightColorLightWithoutNightlightSwitch
    | Yeelight.YeelightWhiteTempWithoutNightlightSwitch => on "power"
    | Yeelight.YeelightColorLightWithNightlightSwitch
    | Yeelight.YeelightWithNightLight => on "power" && negb night
    | Yeelight.YeelightNightLightMode
    | Yeelight.YeelightNightLightModeWithoutBrightnessControl => on "power" && night
    | Yeelight.YeelightNightLightModeWithAmbientSupport => on "main_power" && night
    | Yeelight.YeelightWithAmbientWithoutNightlight => on "main_power"
    | Yeelight.YeelightWithAmbientAndNightlight => on "main_power" && negb night
    | Yeelight.YeelightAmbientLight => on "bg_power"
    | Yeelight.YeelightWhiteTempLightSupport
    | Yeelight.YeelightNightLightSupport => false
    end.
Proof. destruct c; reflexivity. Qed.





(** ** The lights of one device *)

Lemma append_inv_head (s a b : string) :
  String.append s a = String.append s b → a = b.
Proof. induction s as [|c s IH]; cbn; [done|]. intros [= H]. auto. Qed.

Lemma append_empty_r (s : string) : String.append s "" = s.
Proof.
  induction s as [|c s IH]; [done|].
  change (String c (String.append s "") = String c s). by rewrite IH.
Qed.

Lemma append_not_self (s a : string) :
  a ≠ "" → String.append s a ≠ s.
Proof.
  intros Ha H. apply Ha. apply (append_inv_head s a "").
  by rewrite append_empty_r.
Qed.

Lemma yeelight_unique_id (c : Yeelight.Class) (unique : string) :
  Yeelight.unique_id c unique
  = match c with
    | Yeelight.YeelightNightLightMode
    | Yeelight.YeelightNightLightModeWithAmbientSupport
    | Yeelight.YeelightNightLightModeWithoutBrightnessControl =>
        String.append unique "-nightlight"
    | Yeelight.YeelightAmbientLight => String.append unique "-ambilight"
    | _ => unique
    end.
Proof. destruct c; reflexivity. Qed.

Lemma yeelight_setup_classes (device_type : Yeelight.BulbType)
    (nl_switch_light is_nightlight_supported : bool) (unique : string) :
  let classes :=
    Yeelight.setup_classes device_type nl_switch_light is_nightlight_supported in
  classes ≠ []
  ∧ Forall (λ c, Yeelight.YeelightGenericLight ∈ Yeelight.mro c) classes
  ∧ NoDup ((λ c, Yeelight.unique_id c unique) <$> classes)
  ∧ (Yeelight.YeelightAmbientLight ∈ classes ↔ device_type = Yeelight.WhiteTempMood).
Proof.
  assert (String.append unique "-nightlight" ≠ unique) as Hn
    by (by apply append_not_self).
  assert (String.append unique "-ambilight" ≠ unique) as Ha
    by (by apply append_not_self).
  assert (String.append unique "-nightlight" ≠ String.append unique "-ambilight")
    as Hna by (by intros ?%append_inv_head).
  cbn zeta.
  destruct device_type, nl_switch_light, is_nightlight_supported;
    cbn [Yeelight.setup_classes andb app].
  all: split; [done|].
  all: split; [repeat constructor; apply bool_decide_unpack; by vm_compute|].
  all: split;
    [ cbn [fmap list_fmap]; rewrite !yeelight_unique_id;
      repeat (apply NoDup_cons; split;
              [rewrite ?elem_of_cons, elem_of_nil; intuition congruence|]);
      apply NoDup_nil_2
    | ].
  all: rewrite ?elem_of_cons, elem_of_nil; split; intuition congruence.
Qed.

(** X14: [async_setup_entry] parses the custom effects before anything else:
    what [_parse_custom_effects] raises leaves the function and no light is
    built.  Whenever it returns lights, for whatever type of bulb and setting
    of the nightlight switch, the effects were parsed and every light
    carries them, there is at least one light, the class of every light has
    [YeelightGenericLight] in its resolution order, the lights have pairwise
    different unique ids, and an ambient light is among them exactly for a
    bulb of type [WhiteTempMood]. *)
Theorem yeelight_setup_lights (Flow_actions : gmap string Z)
    (yeelight_transition : string → list Z → Yeelight.Error + Yeelight.Transition)
    (effects_config : list Yeelight.EffectConfig) (device_type : Yeelight.BulbType)
    (nl_switch_light is_nightlight_supported : bool)
    (properties : option (gmap string (option string))) (night : bool)
    (unique : string) :
  let setup :=
    Yeelight.async_setup_entry Flow_actions yeelight_transition effects_config
      device_type nl_switch_light is_nightlight_supported properties night in
  let parsed :=
    Yeelight._parse_custom_effects Flow_actions yeelight_transition effects_config in
  (∀ e, parsed = inl e → setup = inl e)
  ∧ (∀ lights,
       setup = inr lights →
       (∃ custom_effects,
          parsed = inr custom_effects
          ∧ Forall (λ light, Yeelight.custom_effects light = custom_effects) lights)
       ∧ lights ≠ []
       ∧ Forall (λ light,
                   Yeelight.YeelightGenericLight ∈ Yeelight.mro (Yeelight.klass light))
           lights
       ∧ NoDup ((λ light, Yeelight.unique_id (Yeelight.klass light) unique) <$> lights)
       ∧ ((∃ light,
             light ∈ lights ∧ Yeelight.klass light = Yeelight.YeelightAmbientLight)
          ↔ device_type = Yeelight.WhiteTempMood)).
Proof.
  cbn zeta. unfold Yeelight.async_setup_entry.
  destruct (Yeelight._parse_custom_effects _ _ _) as [e|custom_effects].
  { split; [by intros e' [= <-]|]. by intros lights [=]. }
  split; [by intros e [=]|]. intros lights [= <-].
  destruct (yeelight_setup_classes device_type nl_switch_light is_nightlight_supported
              unique) as (Hne & Hmro & Hnd & Hambient).
  set (classes :=
         Yeelight.setup_classes device_type nl_switch_light is_nightlight_supported)
    in *.
  split; [|split; [|split; [|split]]].
  - exists custom_effects. split; [done|]. apply Forall_fmap. by apply Forall_true.
  - destruct classes; [done|]. by cbn.
  - apply Forall_fmap. exact Hmro.
  - rewrite <- list_fmap_compose. exact Hnd.
  - rewrite <- Hambient. split.
    + intros (light & Hin & Hklass).
      apply list_elem_of_fmap in Hin as (c & -> & Hin). by cbn in Hklass; subst.
    + intros Hin.
      exists (Yeelight.new_light Yeelight.YeelightAmbientLight properties night
                custom_effects).
      split; [|reflexivity]. apply list_elem_of_fmap. by eexists.
Qed.

Lemma yeelight_setup_lights_witness :
  ∃ lights,
    Yeelight.async_setup_entry yeelight_actions yeelight_new_transition
      yeelight_effects_config Yeelight.WhiteTempMood true true
      (Some YeelightExamples.magenta) false
    = inr lights
    ∧ length lights = 3
    ∧ Forall (λ light, Yeelight.custom_effects light = yeelight_effects) lights
    ∧ NoDup ((λ light, Yeelight.unique_id (Yeelight.klass light) "0x000000000abc")
             <$> lights).
Proof.
  eexists. split; [vm_compute; reflexivity|]. split; [reflexivity|].
  destruct (yeelight_setup_lights yeelight_actions yeelight_new_transition
              yeelight_effects_config Yeelight.WhiteTempMood true true
              (Some YeelightExamples.magenta) false "0x000000000abc")
    as [_ Hlights].
  edestruct Hlights as ((custom_effects & Hparsed & Hcarried) & _ & _ & Hnd & _).
  { vm_compute. reflexivity. }
  split; [|exact Hnd].
  vm_compute in Hparsed. injection Hparsed as <-. exact Hcarried.
Defined.

(** X15: of the main lights that [async_setup_entry] adds for a device, the
    light and, with the nightlight switch, its nightlight entity, exactly one
    is on when the bulb's power property is ["on"] and none otherwise; the
    two are never on together.  The power property is [main_power] for a
    bulb of type [WhiteTempMood] and [power] for every other type. *)
Theorem yeelight_one_main_light_on (device_type : Yeelight.BulbType)
    (nl_switch_light is_nightlight_supported : bool)
    (properties : option (gmap string (option string))) (night : bool)
    (effects : list (string * Yeelight.CustomEffect)) :
  let power :=
    if decide (device_type = Yeelight.WhiteTempMood) then "main_power" else "power" in
  length (filter (λ light, Yeelight.is_on light = true)
            (yeelight_main_lights device_type nl_switch_light is_nightlight_supported
               properties night effects))
  = if bool_decide (mjoin (default ∅ properties !! power) = Some "on") then 1 else 0.
Proof.
  cbn zeta. unfold yeelight_main_lights.
  destruct device_type, nl_switch_light, is_nightlight_supported;
    cbn [Yeelight.setup_classes andb app].
  all: match goal with
       | |- context [filter ?P ?l] =>
           match type of l with
           | list Yeelight.Class =>
               let l' := eval vm_compute in (filter P l) in
               change (filter P l) with l'
           end
       end.
  all: cbn [fmap list_fmap]; rewrite ?filter_cons, ?filter_nil;
    rewrite ?yeelight_is_on_new_light; cbn zeta.
  all: repeat case_decide; try done.
  all: destruct night;
    destruct (bool_decide (mjoin (default ∅ properties !! _) = Some "on"));
    naive_solver.
Qed.

(** ** Effects *)

Lemma yeelight_call_bulb_run
    (bulb : list Yeelight.BulbCommand → Yeelight.BulbCommand → option Yeelight.Error)
    (command : Yeelight.BulbCommand) (light : Yeelight.Light) :
  Yeelight.call_bulb bulb command light
  = match Yeelight.last_properties light with
    | None => (inl Yeelight.AttributeError, light)
    | Some _ =>
        (match bulb (Yeelight.commands light) command with
         | Some e => inl e
         | None => inr tt
         end,
         Yeelight.set_commands (Yeelight.commands light ++ [command]) light)
    end.
Proof.
  unfold Yeelight.call_bulb. destruct (Yeelight.last_properties light); [|done].
  by destruct (bulb _ _).
Qed.

(** X16: whatever the bulb answers, [async_set_effect] never ends in
    [BulbException], makes at most one call on the bulb, and leaves
    [_effect] as it was unless it started a flow and the bulb accepted it;
    then [_effect] is the requested effect. *)
Theorem yeelight_set_effect_contains_bulb_errors
    (bulb : list Yeelight.BulbCommand → Yeelight.BulbCommand → option Yeelight.Error)
    (effect : option string) (light : Yeelight.Light) :
  let result := Yeelight.async_set_effect bulb effect light in
  result.1 ≠ inl Yeelight.BulbException
  ∧ (∃ calls, Yeelight.commands result.2 = Yeelight.commands light ++ calls
              ∧ (length calls ≤ 1)%nat)
  ∧ (Yeelight._effect result.2 = Yeelight._effect light
     ∨ ∃ flow,
         Yeelight._effect result.2 = effect
         ∧ Yeelight.commands result.2
           = Yeelight.commands light
             ++ [Yeelight.async_start_flow flow
                   (Yeelight.light_type (Yeelight.klass light))]
         ∧ bulb (Yeelight.commands light)
             (Yeelight.async_start_flow flow
                (Yeelight.light_type (Yeelight.klass light))) = None).
Proof.
  cbn zeta. unfold Yeelight.async_set_effect, Yeelight._async_cmd,
    Yeelight.async_set_effect_body.
  assert (∃ calls, Yeelight.commands light = Yeelight.commands light ++ calls
                   ∧ (length calls ≤ 1)%nat) as Hsame
    by (exists []; split; [by rewrite app_nil_r|cbn; lia]).
  destruct effect as [name|]; [|by auto].
  case_bool_decide; [by auto|].
  case_bool_decide.
  - rewrite yeelight_call_bulb_run.
    destruct (Yeelight.last_properties light); [|by auto].
    destruct (bulb _ _) as [[]|]; cbn; (split; [done|]);
      (split; [eexists [_]; split; [done|cbn; lia] | by left]).
  - destruct (Yeelight.effect_flow light name) as [flow|]; [|by auto].
    rewrite yeelight_call_bulb_run.
    destruct (Yeelight.last_properties light); [|by auto].
    destruct (bulb _ _) as [[]|] eqn:Hbulb; cbn; (split; [done|]);
      (split; [eexists [_]; split; [done|cbn; lia]|]); try (by left).
    right. by exists flow.
Qed.

Lemma yeelight_predefined_effects_known (c : Yeelight.Class) (name : string) :
  name ∈ Yeelight._predefined_effects c →
  name ∈ Yeelight.YEELIGHT_COLOR_EFFECT_LIST.
Proof.
  destruct c;
    match goal with
    | |- _ ∈ ?l → _ => let l' := eval vm_compute in l in change l with l'
    end;
    match goal with
    | |- _ → _ ∈ ?l => let l' := eval vm_compute in l in change l with l'
    end;
    rewrite ?elem_of_cons, ?elem_of_nil; intuition.
Qed.

Lemma yeelight_custom_effect_has_flow (light : Yeelight.Light) (name : string) :
  name ∈ Yeelight.custom_effects_names light →
  is_Some (Yeelight.effect_flow light name).
Proof.
  intros Hcustom. unfold Yeelight.effect_flow.
  rewrite bool_decide_eq_true_2 by done.
  unfold Yeelight.custom_effects_names in Hcustom.
  apply list_elem_of_fmap in Hcustom as ([k v] & -> & Hin).
  destruct (list_find _ _) as [[i found]|] eqn:Hfind; [cbn; by eexists|].
  apply list_find_None in Hfind. rewrite Forall_forall in Hfind.
  by destruct (Hfind _ Hin).
Qed.

Lemma yeelight_known_effect_has_flow (light : Yeelight.Light) (name : string) :
  name ∈ Yeelight.YEELIGHT_COLOR_EFFECT_LIST →
  name = Yeelight.EFFECT_STOP ∨ is_Some (Yeelight.effect_flow light name).
Proof.
  intros Hin.
  destruct (decide (name ∈ Yeelight.custom_effects_names light)) as [Hcustom|Hcustom];
    [right; by apply yeelight_custom_effect_has_flow|].
  unfold Yeelight.effect_flow. rewrite bool_decide_eq_false_2 by done.
  - revert Hin.
    match goal with
    | |- _ ∈ ?l → _ => let l' := eval vm_compute in l in change l with l'
    end.
    rewrite ?elem_of_cons, elem_of_nil.
    intros Hin.
    repeat (destruct Hin as [->|Hin];
            [first [by left | right; by vm_compute; eexists]|]).
    done.
Qed.

(** X17: every effect that a light lists in [effect_list], predefined for
    its class or custom, is acted on: when it is not the empty string and the
    light has a bulb, [async_set_effect] makes exactly one call on the bulb
    for it. *)
Theorem yeelight_listed_effect_is_sent
    (bulb : list Yeelight.BulbCommand → Yeelight.BulbCommand → option Yeelight.Error)
    (light : Yeelight.Light) (name : string) :
  name ∈ Yeelight.effect_list light →
  name ≠ "" →
  is_Some (Yeelight.last_properties light) →
  ∃ command,
    Yeelight.commands (Yeelight.async_set_effect bulb (Some name) light).2
    = Yeelight.commands light ++ [command].
Proof.
  intros Hin Hne [properties Hbulb].
  assert (name = Yeelight.EFFECT_STOP ∨ is_Some (Yeelight.effect_flow light name))
    as Hflow.
  { unfold Yeelight.effect_list in Hin. apply elem_of_app in Hin as [Hin|Hin].
    - by apply yeelight_known_effect_has_flow,
        (yeelight_predefined_effects_known (Yeelight.klass light)).
    - right. by apply yeelight_custom_effect_has_flow. }
  unfold Yeelight.async_set_effect, Yeelight._async_cmd,
    Yeelight.async_set_effect_body.
  rewrite bool_decide_eq_false_2 by done.
  case_bool_decide as Hstop.
  - rewrite yeelight_call_bulb_run, Hbulb.
    destruct (bulb _ _) as [[]|]; by eexists.
  - destruct Hflow as [|[flow Hflow]]; [done|]. rewrite Hflow.
    rewrite yeelight_call_bulb_run, Hbulb.
    destruct (bulb _ _) as [[]|]; by eexists.
Qed.

Lemma yeelight_listed_effect_is_sent_witness :
  ∃ command,
    Yeelight.commands
      (Yeelight.async_set_effect YeelightExamples.rejects (Some "Police")
         YeelightExamples.color_light).2
    = Yeelight.commands YeelightExamples.color_light ++ [command].
Proof.
  apply (yeelight_listed_effect_is_sent YeelightExamples.rejects
           YeelightExamples.color_light "Police").
  - apply (bool_decide_unpack _). by vm_compute.
  - discriminate.
  - by eexists.
Defined.

(** X18: the effect ["Stop"] always stops the flow: for a light with a bulb,
    [async_set_effect] calls [async_stop_flow] and nothing else, even when a
    custom effect is named ["Stop"], and [_effect] keeps the name of the
    effect that was started before. *)
Theorem yeelight_stop_effect
    (bulb : list Yeelight.BulbCommand → Yeelight.BulbCommand → option Yeelight.Error)
    (light : Yeelight.Light) :
  is_Some (Yeelight.last_properties light) →
  let result := Yeelight.async_set_effect bulb (Some Yeelight.EFFECT_STOP) light in
  Yeelight.commands result.2
  = Yeelight.commands light
    ++ [Yeelight.async_stop_flow (Yeelight.light_type (Yeelight.klass light))]
  ∧ Yeelight._effect result.2 = Yeelight._effect light.
Proof.
  intros [properties Hbulb]. cbn zeta.
  unfold Yeelight.async_set_effect, Yeelight._async_cmd,
    Yeelight.async_set_effect_body.
  rewrite bool_decide_eq_false_2 by done.
  rewrite bool_decide_eq_true_2 by done.
  rewrite yeelight_call_bulb_run, Hbulb.
  by destruct (bulb _ _) as [[]|].
Qed.

Lemma yeelight_stop_effect_witness :
  let light :=
    Yeelight.set_effect (Some "Police")
      (Yeelight.new_light Yeelight.YeelightGenericLight (Some YeelightExamples.magenta)
         false [("Stop", YeelightExamples.party)]) in
  let result :=
    Yeelight.async_set_effect YeelightExamples.accepts (Some Yeelight.EFFECT_STOP)
      light in
  Yeelight.commands result.2
  = Yeelight.commands light
    ++ [Yeelight.async_stop_flow (Yeelight.light_type (Yeelight.klass light))]
  ∧ Yeelight._effect result.2 = Yeelight._effect light.
Proof.
  apply (yeelight_stop_effect YeelightExamples.accepts). by eexists.
Defined.

(** ** Setting a colour *)

Lemma yeelight_rgb_support (c : Yeelight.Class) :
  bool_decide (Yeelight.COLOR_MODE_RGB ∈ Yeelight.supported_color_modes c)
  = bool_decide (Yeelight.YeelightColorLightSupport ∈ Yeelight.mro c).
Proof. destruct c; reflexivity. Qed.

(** X19: a light whose class does not have [YeelightColorLightSupport] in
    its resolution order, that is every white, white-temperature and
    nightlight entity, never calls the bulb from [async_set_rgb], whatever
    colour is asked for and whatever the bulb shows. *)
Theorem yeelight_set_rgb_needs_color_support (int : string → option Z)
    (bulb : list Yeelight.BulbCommand → Yeelight.BulbCommand → option Yeelight.Error)
    (rgb : option (Z * Z * Z)) (duration : Z) (light : Yeelight.Light) :
  Yeelight.YeelightColorLightSupport ∉ Yeelight.mro (Yeelight.klass light) →
  Yeelight.async_set_rgb int bulb rgb duration light = (inr tt, light).
Proof.
  intros Hno. unfold Yeelight.async_set_rgb, Yeelight._async_cmd,
    Yeelight.async_set_rgb_body.
  destruct rgb as [[[red green] blue]|]; [|done].
  by rewrite yeelight_rgb_support, bool_decide_eq_false_2.
Qed.

Lemma yeelight_set_rgb_needs_color_support_witness :
  Yeelight.async_set_rgb YeelightExamples.int YeelightExamples.accepts
    (Some (1, 2, 3)%Z) 350
    (Yeelight.new_light Yeelight.YeelightWithNightLight (Some YeelightExamples.magenta)
       false [])
  = (inr tt,
     Yeelight.new_light Yeelight.YeelightWithNightLight (Some YeelightExamples.magenta)
       false []).
Proof.
  apply (yeelight_set_rgb_needs_color_support YeelightExamples.int
           YeelightExamples.accepts).
  intros Hin. apply (bool_decide_pack _) in Hin. by vm_compute in Hin.
Defined.

Lemma unpack_rgb (red green blue : Z) :
  (0 ≤ red ≤ 255)%Z → (0 ≤ green ≤ 255)%Z → (0 ≤ blue ≤ 255)%Z →
  let rgb := (red * 65536 + green * 256 + blue)%Z in
  (Z.land (Z.shiftr rgb 16) 255, Z.land (Z.shiftr rgb 8) 255, Z.land rgb 255)
  = (red, green, blue).
Proof.
  intros Hr Hg Hb. cbv zeta. do 2 f_equal; [f_equal|..].
  all: change (Z.land ?n 255) with (Z.land n (Z.ones 8));
    rewrite Z.land_ones by lia;
    rewrite ?Z.shiftr_div_pow2 by lia;
    change (2 ^ 8)%Z with 256%Z; change (2 ^ 16)%Z with 65536%Z;
    Z.div_mod_to_equations; lia.
Qed.

(** X20: a colour light whose bulb is in RGB mode (its [color_mode] property
    reads 1) and already shows the colour asked for makes no call on the
    bulb: [async_set_rgb] returns at once and changes nothing. *)
Theorem yeelight_set_rgb_skips_repeat (int : string → option Z)
    (bulb : list Yeelight.BulbCommand → Yeelight.BulbCommand → option Yeelight.Error)
    (light : Yeelight.Light) (mode_text rgb_text : string)
    (red green blue duration : Z) :
  Yeelight.YeelightColorLightSupport ∈ Yeelight.mro (Yeelight.klass light) →
  Yeelight._get_property light "color_mode" = Some mode_text →
  int mode_text = Some 1%Z →
  Yeelight._get_property light "rgb" = Some rgb_text →
  int rgb_text = Some (red * 65536 + green * 256 + blue)%Z →
  (0 ≤ red ≤ 255)%Z → (0 ≤ green ≤ 255)%Z → (0 ≤ blue ≤ 255)%Z →
  Yeelight.async_set_rgb int bulb (Some (red, green, blue)) duration light
  = (inr tt, light).
Proof.
  intros Hcolor Hmode Hone Hrgb Hint Hr Hg Hb.
  unfold Yeelight.async_set_rgb, Yeelight._async_cmd, Yeelight.async_set_rgb_body.
  rewrite yeelight_rgb_support, bool_decide_eq_true_2 by done.
  unfold Yeelight.color_mode. rewrite bool_decide_eq_true_2 by done.
  rewrite Hmode, Hone. cbn [bool_decide decide_rel]. rewrite bool_decide_eq_true_2 by done.
  rewrite bool_decide_eq_true_2 by done.
  unfold Yeelight.rgb_color. rewrite Hrgb, Hint. cbv zeta.
  rewrite (unpack_rgb red green blue Hr Hg Hb).
  by rewrite bool_decide_eq_true_2.
Qed.

Lemma yeelight_set_rgb_skips_repeat_witness :
  Yeelight.async_set_rgb YeelightExamples.int YeelightExamples.accepts
    (Some (255, 0, 255)%Z) 350 YeelightExamples.color_light
  = (inr tt, YeelightExamples.color_light).
Proof.
  apply (yeelight_set_rgb_skips_repeat YeelightExamples.int YeelightExamples.accepts
           YeelightExamples.color_light "1" "16711935" 255 0 255 350);
    try lia; try reflexivity.
  apply (bool_decide_unpack _). by vm_compute.
Defined.

(** A colour other than the one shown is sent to the bulb. *)
Example yeelight_set_rgb_sends :
  Yeelight.commands
    (Yeelight.async_set_rgb YeelightExamples.int YeelightExamples.accepts
       (Some (0, 0, 255)%Z) 350 YeelightExamples.color_light).2
  = [Yeelight.async_set_rgb_command 0 0 255 350 Yeelight.Main].
Proof. vm_compute. reflexivity. Qed.

(** ** Custom effects *)

Lemma yeelight_dict_set_keys {V} (key : string) (value : V) (items : list (string * V)) :
  (Yeelight.dict_set key value items).*1
  = if decide (key ∈ items.*1) then items.*1 else items.*1 ++ [key].
Proof.
  induction items as [|[k v] items IH].
  - cbn. by rewrite decide_False by apply not_elem_of_nil.
  - cbn [Yeelight.dict_set]. rewrite fmap_cons. cbn [fst].
    destruct (decide (k = key)) as [->|Hk].
    + rewrite fmap_cons. cbn [fst].
      rewrite decide_True; [done|]. apply elem_of_cons. by left.
    + rewrite fmap_cons, IH. cbn [fst].
      destruct (decide (key ∈ items.*1)) as [Hin|Hnin].
      * rewrite decide_True; [done|]. apply elem_of_cons. by right.
      * rewrite decide_False; [done|].
        intros [?|?]%elem_of_cons; by subst.
Qed.

Lemma yeelight_dict_set_NoDup {V} (key : string) (value : V)
    (items : list (string * V)) :
  NoDup items.*1 → NoDup (Yeelight.dict_set key value items).*1.
Proof.
  intros Hnd. rewrite yeelight_dict_set_keys. case_decide; [done|].
  apply NoDup_app. split; [done|]. split; [|apply NoDup_singleton].
  intros x Hx ->%list_elem_of_singleton. done.
Qed.

Lemma yeelight_dict_set_elem {V} (key : string) (value : V)
    (items : list (string * V)) (k : string) (v : V) :
  NoDup items.*1 →
  (k, v) ∈ Yeelight.dict_set key value items
  ↔ (k = key ∧ v = value) ∨ (k ≠ key ∧ (k, v) ∈ items).
Proof.
  induction items as [|[k0 v0] items IH]; cbn; intros Hnd.
  - rewrite list_elem_of_singleton, elem_of_nil. split.
    + intros [= -> ->]. by left.
    + intros [[-> ->]|[_ []]]. done.
  - apply NoDup_cons in Hnd as [Hk0 Hnd]. case_decide as Hk.
    + subst k0. rewrite !elem_of_cons. split.
      * intros [[= -> ->]|Hin]; [by left|]. right. split; [|by right].
        intros ->. apply Hk0. apply list_elem_of_fmap. by exists (key, v).
      * intros [[-> ->]|[Hne [[= -> _]|Hin]]]; [by left|done|by right].
    + rewrite !elem_of_cons, (IH Hnd). split.
      * intros [[= -> ->]|[[-> ->]|[Hne Hin]]]; [right|by left|right]; split; auto.
      * intros [[-> ->]|[Hne [[= -> ->]|Hin]]]; auto.
Qed.

Lemma yeelight_built_from_unique (Flow_actions : gmap string Z)
    (yeelight_transition : string → list Z → Yeelight.Error + Yeelight.Transition)
    (config : Yeelight.EffectConfig) (e1 e2 : Yeelight.CustomEffect) :
  yeelight_built_from Flow_actions yeelight_transition config e1 →
  yeelight_built_from Flow_actions yeelight_transition config e2 →
  e1 = e2.
Proof.
  intros (a1 & o1 & Ha1 & Ho1 & ->) (a2 & o2 & Ha2 & Ho2 & ->). congruence.
Qed.

Lemma yeelight_parse_effects_spec (Flow_actions : gmap string Z)
    (yeelight_transition : string → list Z → Yeelight.Error + Yeelight.Transition)
    (configs : list Yeelight.EffectConfig) :
  ∀ (acc effects : list (string * Yeelight.CustomEffect)),
    Yeelight.parse_effects Flow_actions yeelight_transition configs acc = inr effects →
    NoDup acc.*1 →
    NoDup effects.*1
    ∧ ∀ name effect,
        (name, effect) ∈ effects
        ↔ (∃ config,
             last (filter (λ c, Yeelight.conf_name c = name) configs) = Some config
             ∧ yeelight_built_from Flow_actions yeelight_transition config effect)
          ∨ (filter (λ c, Yeelight.conf_name c = name) configs = []
             ∧ (name, effect) ∈ acc).
Proof.
  induction configs as [|config configs IH]; intros acc effects Hrun Hnd.
  - cbn in Hrun. injection Hrun as <-. split; [done|].
    intros name effect. rewrite filter_nil. cbn. split; [by right|].
    intros [(c & [=] & _)|[_ Hin]]. done.
  - cbn [Yeelight.parse_effects] in Hrun.
    destruct (Flow_actions !! Yeelight.attr_action config) as [act|] eqn:Hact;
      [|discriminate].
    destruct (Yeelight._transitions_config_parser yeelight_transition
                (Yeelight.attr_transitions config))
      as [e|objects] eqn:Hobjects; [discriminate|].
    set (built := {| Yeelight.count := Yeelight.attr_count config;
                     Yeelight.action := act;
                     Yeelight.transitions := objects |}) in Hrun.
    assert (yeelight_built_from Flow_actions yeelight_transition config built) as Hbuilt
      by (by exists act, objects).
    destruct (IH _ _ Hrun (yeelight_dict_set_NoDup _ _ _ Hnd)) as [Hnd' Hiff].
    split; [done|]. intros name effect. rewrite Hiff.
    rewrite (yeelight_dict_set_elem _ _ _ _ _ Hnd).
    destruct (decide (Yeelight.conf_name config = name)) as [Hname|Hname].
    + rewrite (filter_cons_True _ config) by done. rewrite last_cons.
      destruct (filter _ configs) as [|c' cs] eqn:Hfilter.
      * cbn. split.
        -- intros [(c & [=] & _)|[_ [[_ ->]|[Hne _]]]]; [left|done].
           by exists config.
        -- intros [(c & [= <-] & Hc)|[[=] _]]. right. split; [done|]. left.
           split; [done|]. by apply (yeelight_built_from_unique Flow_actions yeelight_transition config).
      * destruct (last (c' :: cs)) as [c|] eqn:Hlast;
          [|by apply last_None in Hlast].
        split.
        -- intros [Hl|[[=] _]]. by left.
        -- intros [Hl|[[=] _]]. by left.
    + rewrite (filter_cons_False _ config) by done. split.
      * intros [Hl|[Hnone [[-> _]|[_ Hin]]]]; [by left|done|by right].
      * intros [Hl|[Hnone Hin]]; [by left|]. right. split; [done|]. right.
        split; [congruence|done].
Qed.

(** X21: when [_parse_custom_effects] succeeds, every name in the result is
    there once, and under a name stands the effect built from the last
    config with that name: of two configured effects with the same name the
    later one replaces the earlier.  A name is in the result exactly when
    some config has it. *)
Theorem yeelight_custom_effects_last_wins (Flow_actions : gmap string Z)
    (yeelight_transition : string → list Z → Yeelight.Error + Yeelight.Transition)
    (configs : list Yeelight.EffectConfig)
    (effects : list (string * Yeelight.CustomEffect)) :
  Yeelight._parse_custom_effects Flow_actions yeelight_transition configs
  = inr effects →
  NoDup effects.*1
  ∧ ∀ name effect,
      (name, effect) ∈ effects
      ↔ ∃ config,
          last (filter (λ c, Yeelight.conf_name c = name) configs) = Some config
          ∧ yeelight_built_from Flow_actions yeelight_transition config effect.
Proof.
  intros Hrun.
  destruct (yeelight_parse_effects_spec Flow_actions yeelight_transition configs []
              effects Hrun)
    as [Hnd Hiff]; [constructor|].
  split; [done|]. intros name effect. rewrite Hiff. split; [|by left].
  intros [H|[_ Hin]]; [done|]. by apply elem_of_nil in Hin.
Qed.

Lemma yeelight_custom_effects_last_wins_witness :
  NoDup yeelight_effects.*1
  ∧ ∀ name effect,
      (name, effect) ∈ yeelight_effects
      ↔ ∃ config,
          last (filter (λ c, Yeelight.conf_name c = name) yeelight_effects_config)
            = Some config
          ∧ yeelight_built_from yeelight_actions yeelight_new_transition config effect.
Proof.
  apply (yeelight_custom_effects_last_wins yeelight_actions yeelight_new_transition
           yeelight_effects_config yeelight_effects).
  vm_compute. reflexivity.
Defined.

(** * The Ezviz sensor platform *)

Section EzvizFacts.

Variable SensorType : gmap string string.
Variable str : Value → string.

Lemma ezviz_dict_get_key (camera : list (string * Value)) (key : string) (v : Value) :
  Ezviz.dict_get camera key = Some v → key ∈ camera.*1.
Proof.
  unfold Ezviz.dict_get. destruct (list_find _ _) as [[i [k v']]|] eqn:Hfind; [|done].
  intros _. apply list_find_Some in Hfind as (Hi & Hk & _). cbn in Hk. subst.
  apply list_elem_of_fmap. exists (key, v'). split; [done|].
  by eapply list_elem_of_lookup_2.
Qed.

Lemma ezviz_step_skip (data : list (list (string * Value))) (idx : nat)
    (camera : list (string * Value)) (name : string) (rest : list string)
    (acc : list Ezviz.EzvizSensor) :
  Ezviz.dict_get camera name = None ∨ Ezviz.dict_get camera name = Some VNone
  ∨ SensorType !! name = None →
  Ezviz.camera_sensors SensorType str data idx camera (name :: rest) acc
  = Ezviz.camera_sensors SensorType str data idx camera rest acc.
Proof.
  cbn [Ezviz.camera_sensors].
  destruct (Ezviz.dict_get camera name) as [[]|]; destruct (SensorType !! name);
    try done; intros [|[|]]; congruence.
Qed.

Lemma ezviz_step_eligible (data : list (list (string * Value))) (idx : nat)
    (camera : list (string * Value)) (name type_name : string) (value : Value)
    (rest : list string) (acc : list Ezviz.EzvizSensor) :
  Ezviz.dict_get camera name = Some value →
  value ≠ VNone →
  SensorType !! name = Some type_name →
  Ezviz.camera_sensors SensorType str data idx camera (name :: rest) acc
  = match Ezviz.__init__ str data idx name type_name with
    | inl e => inl e
    | inr sensor =>
        Ezviz.camera_sensors SensorType str data idx camera rest (acc ++ [sensor])
    end.
Proof.
  intros Hget Hvalue Htype. cbn [Ezviz.camera_sensors]. rewrite Hget, Htype.
  by destruct value.
Qed.

Lemma ezviz_eligible_cases (camera : list (string * Value)) (name : string) :
  (Ezviz.dict_get camera name = None ∨ Ezviz.dict_get camera name = Some VNone
   ∨ SensorType !! name = None)
  ∨ ∃ value type_name,
      Ezviz.dict_get camera name = Some value ∧ value ≠ VNone
      ∧ SensorType !! name = Some type_name.
Proof.
  destruct (Ezviz.dict_get camera name) as [value|]; [|by auto].
  destruct (SensorType !! name) as [type_name|]; [|by auto].
  destruct value; try (right; by eexists _, _); auto.
Qed.

Lemma ezviz_sensor_of_unique (data : list (list (string * Value)))
    (s1 s2 : Ezviz.EzvizSensor) :
  Ezviz.sensor_of SensorType str data s1 →
  Ezviz.sensor_of SensorType str data s2 →
  Ezviz._idx s1 = Ezviz._idx s2 →
  Ezviz._name s1 = Ezviz._name s2 →
  s1 = s2.
Proof.
  intros (c1 & v1 & Hc1 & _ & _ & Ht1 & Hn1 & Hs1 & Hsn1)
         (c2 & v2 & Hc2 & _ & _ & Ht2 & Hn2 & Hs2 & Hsn2) Hidx Hname.
  destruct s1, s2. cbn in *. subst.
  assert (c1 = c2) as -> by congruence.
  f_equal; congruence.
Qed.

Lemma ezviz_camera_sensors_spec (data : list (list (string * Value))) (idx : nat)
    (camera : list (string * Value)) :
  data !! idx = Some camera →
  ∀ (names : list string) (acc : list Ezviz.EzvizSensor),
    match Ezviz.camera_sensors SensorType str data idx camera names acc with
    | inr sensors =>
        ∃ new,
          sensors = acc ++ new
          ∧ (∀ s, s ∈ new
                  ↔ Ezviz._idx s = idx ∧ Ezviz._name s ∈ names
                    ∧ Ezviz.sensor_of SensorType str data s)
          ∧ (∀ name value,
               name ∈ names →
               Ezviz.dict_get camera name = Some value →
               value ≠ VNone →
               is_Some (SensorType !! name) →
               is_Some (Ezviz.dict_get camera "name")
               ∧ is_Some (Ezviz.dict_get camera "serial"))
    | inl e => ezviz_setup_failure SensorType data e
    end.
Proof.
  intros Hcamera. induction names as [|name rest IH]; intros acc.
  - cbn. exists []. rewrite app_nil_r. split; [done|]. split.
    + intros s. rewrite !elem_of_nil. tauto.
    + intros n v Hin. by apply elem_of_nil in Hin.
  - destruct (ezviz_eligible_cases camera name)
      as [Hskip|(value & type_name & Hget & Hvalue & Htype)].
    + rewrite ezviz_step_skip by done. specialize (IH acc).
      destruct (Ezviz.camera_sensors _ _ _ _ _ rest acc) as [e|sensors]; [done|].
      destruct IH as (new & -> & Hiff & Hneeds). exists new. split; [done|]. split.
      * intros s. rewrite Hiff, elem_of_cons. split; [tauto|].
        intros (Hidx & [Hname|Hin] & Hof); [|tauto]. exfalso.
        destruct Hof as (c & v & Hc & Hv & Hnone & Ht & _).
        rewrite Hidx, Hcamera in Hc. injection Hc as <-. rewrite Hname in Hv, Ht.
        destruct Hskip as [|[|]]; congruence.
      * intros n v [->|Hin]%elem_of_cons Hv Hnone [t Ht]; [|by eapply Hneeds].
        exfalso. destruct Hskip as [|[|]]; congruence.
    + rewrite (ezviz_step_eligible _ _ _ _ type_name value) by done.
      assert (camera ∈ data) as Hin by (by eapply list_elem_of_lookup_2).
      unfold Ezviz.__init__. rewrite Hcamera. unfold Ezviz.dict_getitem.
      destruct (Ezviz.dict_get camera "name") as [camera_name|] eqn:Hname.
      2: { exists camera, name, value. split; [done|]. split; [done|].
           split; [done|]. split; [by eexists|]. by left. }
      destruct (Ezviz.dict_get camera "serial") as [serial|] eqn:Hserial.
      2: { exists camera, name, value. split; [done|]. split; [done|].
           split; [done|]. split; [by eexists|]. by right. }
      match goal with
      | |- context [acc ++ [?s]] => set (sensor := s)
      end.
      assert (Ezviz.sensor_of SensorType str data sensor) as Hsensor.
      { exists camera, value. by repeat split. }
      specialize (IH (acc ++ [sensor])).
      destruct (Ezviz.camera_sensors _ _ _ _ _ rest (acc ++ [sensor]))
        as [e|sensors]; [done|].
      destruct IH as (new & -> & Hiff & _). exists (sensor :: new).
      split; [by rewrite <- app_assoc|]. split; [|by eauto].
      intros s. rewrite !elem_of_cons, Hiff. split.
      * intros [->|(? & ? & ?)]; [|tauto]. split; [done|]. split; [by left|done].
      * intros (Hidx & [Hn|Hn] & Hof); [|tauto]. left.
        by apply (ezviz_sensor_of_unique data).
Qed.

Lemma ezviz_setup_cameras_spec (data : list (list (string * Value))) :
  ∀ (cameras : list (list (string * Value))) (idx : nat)
    (acc : list Ezviz.EzvizSensor),
    (∀ i camera, cameras !! i = Some camera → data !! (idx + i) = Some camera) →
    match Ezviz.setup_cameras SensorType str data idx cameras acc with
    | inr sensors =>
        ∃ new,
          sensors = acc ++ new
          ∧ (∀ s, s ∈ new
                  ↔ idx ≤ Ezviz._idx s < idx + length cameras
                    ∧ Ezviz.sensor_of SensorType str data s)
          ∧ (∀ camera name value,
               camera ∈ cameras →
               Ezviz.dict_get camera name = Some value →
               value ≠ VNone →
               is_Some (SensorType !! name) →
               is_Some (Ezviz.dict_get camera "name")
               ∧ is_Some (Ezviz.dict_get camera "serial"))
    | inl e => ezviz_setup_failure SensorType data e
    end.
Proof.
  induction cameras as [|camera cameras IH]; intros idx acc Hdata.
  - cbn. exists []. rewrite app_nil_r. split; [done|]. split.
    + intros s. rewrite elem_of_nil. split; [done|]. lia.
    + intros c n v Hin. by apply elem_of_nil in Hin.
  - cbn [Ezviz.setup_cameras].
    assert (data !! idx = Some camera) as Hcamera.
    { rewrite <- (Nat.add_0_r idx). by apply Hdata. }
    pose proof (ezviz_camera_sensors_spec data idx camera Hcamera camera.*1 acc)
      as Hinner.
    destruct (Ezviz.camera_sensors _ _ _ _ _ _ acc) as [e|sensors]; [done|].
    destruct Hinner as (new1 & -> & Hiff1 & Hneeds1).
    specialize (IH (S idx) (acc ++ new1)).
    destruct (Ezviz.setup_cameras _ _ _ _ cameras (acc ++ new1)) as [e|sensors].
    { apply IH. intros i c Hi. replace (S idx + i) with (idx + S i) by lia.
      by apply Hdata. }
    destruct IH as (new2 & -> & Hiff2 & Hneeds2).
    { intros i c Hi. replace (S idx + i) with (idx + S i) by lia. by apply Hdata. }
    exists (new1 ++ new2). split; [by rewrite app_assoc|]. split.
    + intros s. rewrite elem_of_app, Hiff1, Hiff2. cbn [length]. split.
      * intros [(-> & _ & Hof)|(Hrange & Hof)]; (split; [lia|done]).
      * intros (Hrange & Hof).
        destruct (decide (Ezviz._idx s = idx)) as [Heq|Hne];
          [left|right; split; [lia|done]].
        split; [done|]. split; [|done].
        destruct Hof as (c & v & Hc & Hv & _).
        rewrite Heq, Hcamera in Hc. injection Hc as <-.
        by eapply ezviz_dict_get_key.
    + intros c n v [->|Hin]%elem_of_cons Hv Hnone Ht; [|by eapply Hneeds2].
      eapply Hneeds1; [|done..]. by eapply ezviz_dict_get_key.
Qed.

Lemma ezviz_setup_spec (data : list (list (string * Value))) :
  match Ezviz.async_setup_entry SensorType str data with
  | inr sensors =>
      (∀ s, s ∈ sensors ↔ Ezviz.sensor_of SensorType str data s)
      ∧ ∀ e, ¬ ezviz_setup_failure SensorType data e
  | inl e => ezviz_setup_failure SensorType data e
  end.
Proof.
  unfold Ezviz.async_setup_entry.
  pose proof (ezviz_setup_cameras_spec data data 0 []) as Hspec.
  destruct (Ezviz.setup_cameras _ _ _ _ _ _) as [e|sensors]; [by apply Hspec|].
  destruct Hspec as (new & -> & Hiff & Hneeds); [done|]. split.
  - intros s. cbn. rewrite Hiff. split; [tauto|]. intros Hof. split; [|done].
    destruct Hof as (c & v & Hc & _). apply lookup_lt_Some in Hc. lia.
  - intros e (camera & name & value & Hin & Hv & Hnone & Ht & Hmissing).
    destruct (Hneeds camera name value Hin Hv Hnone Ht) as [[? Hn] [? Hs]].
    destruct Hmissing as [[_ ?]|[_ ?]]; congruence.
Qed.

End EzvizFacts.

(** X22: when the Ezviz [async_setup_entry] returns, the entities it hands to
    [async_add_entities] are exactly the sensors of the keys that have a value
    other than [None] in their camera and are member names of [SensorType],
    each built by [__init__] from that camera's [name] and [serial]. *)
Theorem ezviz_setup_adds_exactly (SensorType : gmap string string)
    (str : Value → string) (data : list (list (string * Value)))
    (sensors : list Ezviz.EzvizSensor) :
  Ezviz.async_setup_entry SensorType str data = inr sensors →
  ∀ s, s ∈ sensors ↔ Ezviz.sensor_of SensorType str data s.
Proof.
  intros Hsetup. pose proof (ezviz_setup_spec SensorType str data) as Hspec.
  rewrite Hsetup in Hspec. apply Hspec.
Qed.

Lemma ezviz_setup_adds_exactly_witness :
  ∃ sensors,
    Ezviz.async_setup_entry ezviz_sensor_types ezviz_str ezviz_data = inr sensors
    ∧ ∀ s, s ∈ sensors ↔ Ezviz.sensor_of ezviz_sensor_types ezviz_str ezviz_data s.
Proof.
  eexists. split; [vm_compute; reflexivity|].
  apply (ezviz_setup_adds_exactly ezviz_sensor_types ezviz_str ezviz_data).
  vm_compute. reflexivity.
Defined.

(** X23: every sensor that the Ezviz [async_setup_entry] adds has a state on
    the data it was set up from: [native_value] returns a value that is not
    [None], and [device_class] is the value of the [SensorType] member named
    like the sensor. *)
Theorem ezviz_added_sensor_has_value (SensorType : gmap string string)
    (str : Value → string) (data : list (list (string * Value)))
    (sensors : list Ezviz.EzvizSensor) (s : Ezviz.EzvizSensor) :
  Ezviz.async_setup_entry SensorType str data = inr sensors →
  s ∈ sensors →
  (∃ value, Ezviz.native_value data s = inr value ∧ value ≠ VNone)
  ∧ SensorType !! Ezviz._name s = Some (Ezviz.device_class s).
Proof.
  intros Hsetup Hin. pose proof (ezviz_setup_spec SensorType str data) as Hspec.
  rewrite Hsetup in Hspec. destruct Hspec as [Hiff _].
  apply Hiff in Hin as (camera & value & Hcamera & Hvalue & Hnone & Htype & _).
  split; [|done]. exists value. split; [|done].
  unfold Ezviz.native_value, Ezviz.dict_getitem. by rewrite Hcamera, Hvalue.
Qed.

Lemma ezviz_added_sensor_has_value_witness :
  ∃ sensors s,
    Ezviz.async_setup_entry ezviz_sensor_types ezviz_str ezviz_data = inr sensors
    ∧ s ∈ sensors
    ∧ (∃ value, Ezviz.native_value ezviz_data s = inr value ∧ value ≠ VNone)
    ∧ ezviz_sensor_types !! Ezviz._name s = Some (Ezviz.device_class s).
Proof.
  eexists _, _. split; [vm_compute; reflexivity|]. split; [by left|].
  eapply (ezviz_added_sensor_has_value ezviz_sensor_types ezviz_str ezviz_data).
  - vm_compute. reflexivity.
  - by left.
Defined.

(** X24: two sensors that the Ezviz [async_setup_entry] adds for the same
    camera and that have the same [unique_id] are the same sensor. *)
Theorem ezviz_unique_id_per_camera (SensorType : gmap string string)
    (str : Value → string) (data : list (list (string * Value)))
    (sensors : list Ezviz.EzvizSensor) (s1 s2 : Ezviz.EzvizSensor) :
  Ezviz.async_setup_entry SensorType str data = inr sensors →
  s1 ∈ sensors →
  s2 ∈ sensors →
  Ezviz._idx s1 = Ezviz._idx s2 →
  Ezviz.unique_id str s1 = Ezviz.unique_id str s2 →
  s1 = s2.
Proof.
  intros Hsetup Hin1 Hin2 Hidx Hid.
  pose proof (ezviz_setup_spec SensorType str data) as Hspec.
  rewrite Hsetup in Hspec. destruct Hspec as [Hiff _].
  apply Hiff in Hin1 as Hof1. apply Hiff in Hin2 as Hof2.
  apply (ezviz_sensor_of_unique SensorType str data); [done..|].
  destruct Hof1 as (c1 & _ & Hc1 & _ & _ & _ & Hn1 & Hs1 & Hsn1).
  destruct Hof2 as (c2 & _ & Hc2 & _ & _ & _ & Hn2 & Hs2 & Hsn2).
  assert (c1 = c2) as -> by congruence.
  assert (Ezviz._camera_name s1 = Ezviz._camera_name s2) as Hcn by congruence.
  assert (Ezviz._serial s1 = Ezviz._serial s2) as Hse by congruence.
  unfold Ezviz.unique_id in Hid. rewrite Hsn1, Hsn2, Hcn, Hse in Hid.
  apply append_inv_head, (append_inv_head "_"), append_inv_head in Hid.
  by apply (append_inv_head ".").
Qed.

Lemma ezviz_unique_id_per_camera_witness :
  ∃ sensors s,
    Ezviz.async_setup_entry ezviz_sensor_types ezviz_str ezviz_data = inr sensors
    ∧ s ∈ sensors
    ∧ s = s.
Proof.
  eexists _, _. split; [vm_compute; reflexivity|]. split; [by left|].
  eapply (ezviz_unique_id_per_camera ezviz_sensor_types ezviz_str ezviz_data).
  - vm_compute. reflexivity.
  - by left.
  - by left.
  - reflexivity.
  - reflexivity.
Defined.

(** X25: the Ezviz [async_setup_entry] raises only a [KeyError] for [name] or
    for [serial], and only when a camera that has a value for a [SensorType]
    member lacks that key; a camera without sensor values may lack both. *)
Theorem ezviz_setup_failure_cause (SensorType : gmap string string)
    (str : Value → string) (data : list (list (string * Value)))
    (e : Ezviz.Error) :
  Ezviz.async_setup_entry SensorType str data = inl e →
  ezviz_setup_failure SensorType data e.
Proof.
  intros Hsetup. pose proof (ezviz_setup_spec SensorType str data) as Hspec.
  by rewrite Hsetup in Hspec.
Qed.

Lemma ezviz_setup_failure_cause_witness :
  let data := [ [ ("serial", VStr "D456"); ("battery_level", VInt 15) ] ] in
  Ezviz.async_setup_entry ezviz_sensor_types ezviz_str data
  = inl (Ezviz.KeyError "name")
  ∧ ezviz_setup_failure ezviz_sensor_types data (Ezviz.KeyError "name").
Proof.
  split; [vm_compute; reflexivity|].
  apply (ezviz_setup_failure_cause ezviz_sensor_types ezviz_str).
  vm_compute. reflexivity.
Defined.

(** X26: the Ezviz [async_setup_entry] returns its sensors whenever every
    camera that has a value for a [SensorType] member has a [name] and a
    [serial]. *)
Theorem ezviz_setup_succeeds (SensorType : gmap string string)
    (str : Value → string) (data : list (list (string * Value))) :
  Forall (λ camera,
            (∃ name value,
               Ezviz.dict_get camera name = Some value ∧ value ≠ VNone
               ∧ is_Some (SensorType !! name)) →
            is_Some (Ezviz.dict_get camera "name")
            ∧ is_Some (Ezviz.dict_get camera "serial")) data →
  ∃ sensors, Ezviz.async_setup_entry SensorType str data = inr sensors.
Proof.
  intros Hcomplete. pose proof (ezviz_setup_spec SensorType str data) as Hspec.
  destruct (Ezviz.async_setup_entry SensorType str data) as [e|sensors];
    [exfalso|by eexists].
  destruct Hspec as (camera & name & value & Hin & Hvalue & Hnone & Htype & Hmiss).
  rewrite Forall_forall in Hcomplete.
  destruct (Hcomplete camera Hin) as [[? Hn] [? Hs]]; [by eexists _, _|].
  destruct Hmiss as [[_ ?]|[_ ?]]; congruence.
Qed.

Lemma ezviz_setup_succeeds_witness :
  ∃ sensors,
    Ezviz.async_setup_entry ezviz_sensor_types ezviz_str ezviz_data = inr sensors.
Proof.
  apply (ezviz_setup_succeeds ezviz_sensor_types ezviz_str ezviz_data).
  apply Forall_cons_2; [|apply Forall_cons_2; [|apply Forall_nil_2]].
  - intros _. split; by eexists.
  - intros (name & value & Hvalue & Hnone & Htype). exfalso.
    unfold Ezviz.dict_get in Hvalue. cbn in Hvalue.
    repeat case_decide; subst; cbn in Hvalue; try done.
    + by destruct Htype.
    + congruence.
Defined.
